(** * svu_picker: range parsing, record normalisation, filtering, ranking
      and detail expansion of the SVU episode picker (svu_picker.py).

    The Python functions are embedded as Rocq functions of the same
    names.  Python values are modelled as follows.

    - [int] is [Z] (unbounded).
    - [float] is [spec_float], the IEEE-754 values of the Standard Library,
      compared with [SFcompare]; a NaN compares false with everything.
    - [str] is [text], a list of 8-bit characters: an ASCII string is the
      list of its characters, any other string the list of the bytes of
      its UTF-8 encoding.  Concatenation, equality, order, and cutting at
      or searching for an ASCII character are the same on the encoding as
      on the string.  The methods that look characters up in the Unicode
      tables ([strip], [split()], [upper], [lower], [isdigit]) and the
      reader [int(s)] are parameters of the functions in [Generic]; the
      functions [strip], [split_ws], [upper], [lower], [isdigit] and
      [parse_int] defined here are these methods on ASCII text
      ([is_ascii]), and the functions outside [Generic] are the program
      run with them.
    - a [dict] row read from the CSV file is a [gmap string pyval]; the
      dictionary [normalize_row] returns has fixed keys and is the record
      [Episode].
    - a [set] of seasons is a [gset Z].
    - a raised exception is the [Err] case of [result]; [try]/[except] is
      a match on it.
    - a loop is a recursive function that passes the list it builds.

    The decimal reader [float(s)] and the printer [str(f)] of the Python
    runtime are section variables, and so are the key and the answers of
    the rating service.  The CSV reader is the list of the rows it
    yields; [main_loaded] starts from the list of records. *)

From Stdlib Require Import ZArith List Ascii String Bool Lia.
From Stdlib Require Import Sorting.Permutation Sorting.Sorted.
From Stdlib Require Import Floats.SpecFloat.
From stdpp Require Import base gmap strings.

Import ListNotations.
Open Scope Z_scope.

(** ** Text *)

Definition text := list ascii.

Definition str (s : string) : text := list_ascii_of_string s.

#[global] Arguments str : simpl never.

Definition code (c : ascii) : N := N_of_ascii c.

(** The strings the ASCII functions of this file are exact on. *)
Definition is_ascii (s : text) : bool := forallb (fun c => (code c <? 128)%N) s.

(** [str.isspace] on ASCII: TAB, LF, VT, FF, CR, FS, GS, RS, US and space. *)
Definition is_space (c : ascii) : bool :=
  let n := code c in
  ((9 <=? n) && (n <=? 13) || (28 <=? n) && (n <=? 32))%N.

(** The white space [int(s)] skips around the digits of an ASCII string:
    TAB, LF, VT, FF, CR and space, but not the separators FS, GS, RS, US
    that [strip] removes. *)
Definition is_int_space (c : ascii) : bool :=
  let n := code c in
  ((9 <=? n) && (n <=? 13) || (n =? 32))%N.

Definition is_digit (c : ascii) : bool :=
  let n := code c in ((48 <=? n) && (n <=? 57))%N.

Definition char_eqb (a b : ascii) : bool := Ascii.eqb a b.

#[global] Arguments char_eqb : simpl never.
#[global] Arguments is_space : simpl never.
#[global] Arguments is_int_space : simpl never.
#[global] Arguments is_digit : simpl never.

Definition upper_char (c : ascii) : ascii :=
  let n := code c in
  if ((97 <=? n) && (n <=? 122))%N then ascii_of_N (n - 32) else c.

Definition lower_char (c : ascii) : ascii :=
  let n := code c in
  if ((65 <=? n) && (n <=? 90))%N then ascii_of_N (n + 32) else c.

(** [s.upper()] and [s.lower()]. *)
Definition upper (s : text) : text := map upper_char s.
Definition lower (s : text) : text := map lower_char s.

Fixpoint lstrip (s : text) : text :=
  match s with
  | c :: s' => if is_space c then lstrip s' else s
  | [] => []
  end.

Definition rstrip (s : text) : text := rev (lstrip (rev s)).

(** [s.strip()]. *)
Definition strip (s : text) : text := rstrip (lstrip s).

(** The text [int(s)] reads its sign and digits from. *)
Fixpoint int_lstrip (s : text) : text :=
  match s with
  | c :: s' => if is_int_space c then int_lstrip s' else s
  | [] => []
  end.

Definition int_strip (s : text) : text := rev (int_lstrip (rev (int_lstrip s))).

Definition text_eqb (a b : text) : bool := bool_decide (a = b).

(** [s.startswith(p)]. *)
Fixpoint startswith (p s : text) : bool :=
  match p, s with
  | [], _ => true
  | a :: p', b :: s' => char_eqb a b && startswith p' s'
  | _ :: _, [] => false
  end.

(** [c in s] for a one-character [c]. *)
Definition contains_char (c : ascii) (s : text) : bool :=
  existsb (char_eqb c) s.

(** [s.split(sep)] for a one-character separator: never the empty list. *)
Fixpoint split_on (sep : ascii) (s : text) : list text :=
  match s with
  | [] => [[]]
  | c :: s' =>
      if char_eqb c sep then [] :: split_on sep s'
      else match split_on sep s' with
           | p :: ps => (c :: p) :: ps
           | [] => [[c]]
           end
  end.

(** [s.split()]: maximal runs of characters that are not white space. *)
Fixpoint split_ws_from (cur : text) (s : text) : list text :=
  match s with
  | [] => match cur with [] => [] | _ => [rev cur] end
  | c :: s' =>
      if is_space c
      then match cur with
           | [] => split_ws_from [] s'
           | _ => rev cur :: split_ws_from [] s'
           end
      else split_ws_from (c :: cur) s'
  end.

Definition split_ws (s : text) : list text := split_ws_from [] s.

(** [sep.join(parts)]. *)
Fixpoint join (sep : text) (parts : list text) : text :=
  match parts with
  | [] => []
  | [p] => p
  | p :: ps => p ++ sep ++ join sep ps
  end.

(** [s.replace(old, new)] for a non-empty [old]: left to right, occurrences
    do not overlap.  [skip] counts the characters of a match still to drop. *)
Fixpoint replace_from (old new : text) (skip : nat) (s : text) : text :=
  match s with
  | [] => []
  | c :: s' =>
      match skip with
      | S k => replace_from old new k s'
      | O =>
          if startswith old s
          then new ++ replace_from old new (length old - 1) s'
          else c :: replace_from old new O s'
      end
  end.

Definition replace (old new s : text) : text := replace_from old new O s.

(** [s.index(c)]: position of the first [c]. *)
Fixpoint index_of (c : ascii) (s : text) : option nat :=
  match s with
  | [] => None
  | d :: s' => if char_eqb d c then Some O else S <$> index_of c s'
  end.

(** [l[a:b]] for indices that are not negative. *)
Definition slice {A} (a b : nat) (l : list A) : list A :=
  firstn (b - a) (skipn a l).

(** [l[:n]] for any integer [n]: a negative [n] counts from the end. *)
Definition take_upto {A} (n : Z) (l : list A) : list A :=
  if 0 <=? n then firstn (Z.to_nat n) l
  else firstn (length l - Z.to_nat (- n)) l.

(** Order of [str]: lexicographic on the character codes. *)
Fixpoint text_compare (a b : text) : comparison :=
  match a, b with
  | [], [] => Eq
  | [], _ :: _ => Lt
  | _ :: _, [] => Gt
  | x :: a', y :: b' =>
      match (code x ?= code y)%N with
      | Eq => text_compare a' b'
      | c => c
      end
  end.

Definition text_ltb (a b : text) : bool :=
  match text_compare a b with Lt => true | _ => false end.

Definition text_leb (a b : text) : bool :=
  match text_compare a b with Gt => false | _ => true end.

(** ** Exceptions and results *)

(** The exceptions the program can raise.  The message of an exception
    raised by a built-in is abbreviated; the messages the program itself
    writes are kept in full.  [ArgumentTypeError msg cause] is
    [raise argparse.ArgumentTypeError(msg) from cause]. *)
Inductive exn : Type :=
  | ValueError (msg : text)
  | TypeError (msg : text)
  | OverflowError (msg : text)
  | IndexError (msg : text)
  | ArgumentTypeError (msg : text) (cause : exn).

Inductive result (A : Type) : Type :=
  | Ok (a : A)
  | Err (e : exn).

Arguments Ok {A} a.
Arguments Err {A} e.

#[global] Instance result_ret : MRet result := fun A a => Ok a.

#[global] Instance result_bind : MBind result := fun A B f m =>
  match m with
  | Ok a => f a
  | Err e => Err e
  end.

Definition is_ok {A} (r : result A) : bool :=
  match r with Ok _ => true | Err _ => false end.

(** ** Numbers *)

(** Python's [float] is IEEE-754 binary64. *)
Definition float : Type := spec_float.

Definition float_of_Z (z : Z) : float := binary_normalize 53 1024 z 0 false.

Definition fzero : float := S754_zero false.

Definition is_nan (f : float) : bool :=
  match f with S754_nan => true | _ => false end.

Definition is_fzero (f : float) : bool :=
  match f with S754_zero _ => true | _ => false end.

(** [a < b], [a <= b], [a == b] and [-a] on floats. *)
Definition flt (a b : float) : bool := SFltb a b.
Definition fle (a b : float) : bool := SFleb a b.
Definition feq (a b : float) : bool := SFeqb a b.
Definition fneg (a : float) : float := SFopp a.

(** [int(f)] for a float: truncation towards zero. *)
Definition int_of_float (f : float) : result Z :=
  match f with
  | S754_zero _ => Ok 0
  | S754_infinity _ =>
      Err (OverflowError (str "cannot convert float infinity to integer"))
  | S754_nan => Err (ValueError (str "cannot convert float NaN to integer"))
  | S754_finite s m e =>
      let a := if 0 <=? e then Z.shiftl (Z.pos m) e
               else Z.shiftr (Z.pos m) (- e) in
      Ok (if s then - a else a)
  end.

Definition digit_value (c : ascii) : Z := Z.of_N (code c) - 48.

(** Decimal digits with single underscores between them, as [int] reads
    them.  [prev] tells whether the previous character was a digit. *)
Fixpoint parse_digits (acc : Z) (prev : bool) (s : text) : option Z :=
  match s with
  | [] => if prev then Some acc else None
  | c :: s' =>
      if is_digit c then parse_digits (10 * acc + digit_value c) true s'
      else if char_eqb c "_" && prev then parse_digits acc false s'
      else None
  end.

(** [int(s)] for an ASCII string, base 10: the white space [int] knows
    is dropped around the number, one sign is allowed.  (The limit on the
    number of digits that recent interpreters put on [int(s)] is not
    modelled.) *)
Definition parse_int (s : text) : option Z :=
  match int_strip s with
  | c :: s' =>
      if char_eqb c "-" then Z.opp <$> parse_digits 0 false s'
      else if char_eqb c "+" then parse_digits 0 false s'
      else parse_digits 0 false (c :: s')
  | [] => None
  end.

(** ** Python values *)

Inductive pyval : Type :=
  | PNone
  | PBool (b : bool)
  | PInt (z : Z)
  | PFloat (f : float)
  | PStr (s : text).

(** Truth value of a Python value. *)
Definition truthy (v : pyval) : bool :=
  match v with
  | PNone => false
  | PBool b => b
  | PInt z => negb (z =? 0)
  | PFloat f => negb (is_fzero f)
  | PStr s => match s with [] => false | _ => true end
  end.

(** [a or b]. *)
Definition py_or (a b : pyval) : pyval := if truthy a then a else b.

(** [str(z)] for an integer. *)
Fixpoint digits_of_pos (fuel : nat) (p : Z) (acc : text) : text :=
  match fuel with
  | O => acc
  | S k =>
      let d := ascii_of_N (Z.to_N (p mod 10) + 48) in
      if p <? 10 then d :: acc else digits_of_pos k (p / 10) (d :: acc)
  end.

Definition str_of_Z (z : Z) : text :=
  if z <? 0 then "-"%char :: digits_of_pos (Z.to_nat (Z.log2 (- z)) + 1) (- z) []
  else digits_of_pos (Z.to_nat (Z.log2 z) + 1) z [].

(** ** Configuration constants *)

(** [8.0], [8.2], [8.3], [8.5] and [9.0] as binary64 values. *)
Definition f8_0 : float := Eval vm_compute in float_of_Z 8.
Definition f9_0 : float := Eval vm_compute in float_of_Z 9.
Definition f8_2 : float := Eval vm_compute in SFdiv 53 1024 (float_of_Z 82) (float_of_Z 10).
Definition f8_3 : float := Eval vm_compute in SFdiv 53 1024 (float_of_Z 83) (float_of_Z 10).
Definition f8_5 : float := Eval vm_compute in SFdiv 53 1024 (float_of_Z 85) (float_of_Z 10).

Definition MAX_SEASONS_ALLOWED : Z * Z := (1, 12).
Definition MIN_IMDB_RATING : float := f8_0.
Definition DEFAULT_NUM_RESULTS : Z := 3.

(** ** Episode records *)

(** The dictionary [normalize_row] builds: its keys are fixed, so it is a
    record.  [imdb_rating = None] is the unknown rating. *)
Record Episode : Type := mkEpisode {
  season : Z;
  episode : Z;
  title : text;
  air_date : text;
  imdb_id : text;
  imdb_rating : option float;
  features_george_huang : bool;
  heavy_finn_munch : bool;
  heavy_trial : bool;
  one_sentence_plot : text;
  one_sentence_reason : text
}.

#[global] Instance float_eq_dec : EqDecision float.
Proof. solve_decision. Defined.

#[global] Instance Episode_eq_dec : EqDecision Episode.
Proof. solve_decision. Defined.

(** ** Helpers of [parse_range] *)

(** [a, b = parts]: exactly two values or [ValueError]. *)
Definition unpack2 {A} (parts : list A) : result (A * A) :=
  match parts with
  | [a; b] => Ok (a, b)
  | [] | [_] => Err (ValueError (str "not enough values to unpack (expected 2)"))
  | _ => Err (ValueError (str "too many values to unpack (expected 2)"))
  end.

(** [s.index("E")], which raises when there is no "E". *)
Definition index (c : ascii) (s : text) : result nat :=
  match index_of c s with
  | Some i => Ok i
  | None => Err (ValueError (str "substring not found"))
  end.

Definition order_message : text := str "Range end must be >= range start.".

Definition format_message (range_str : text) : text :=
  str "Invalid range format: '" ++ range_str ++ str "'. Expected 'SxEy>SxEy'".

(** ** Conversions of [normalize_row] *)

Section Conversions.

(** [float(s)] and [str(f)] of the Python runtime, for a string [s] and
    a float [f]: the decimal reader and printer are not part of the
    program and are taken as given. *)
Variable float_of_text : text -> option float.
Variable repr_float : float -> text.

(** [float(v)]. *)
Definition py_float (v : pyval) : result float :=
  match v with
  | PNone => Err (TypeError (str "float() argument must be a string or a real number"))
  | PBool b => Ok (float_of_Z (if b then 1 else 0))
  | PInt z =>
      match float_of_Z z with
      | S754_infinity _ => Err (OverflowError (str "int too large to convert to float"))
      | f => Ok f
      end
  | PFloat f => Ok f
  | PStr s =>
      match float_of_text s with
      | Some f => Ok f
      | None => Err (ValueError (str "could not convert string to float"))
      end
  end.

(** [str(v)]. *)
Definition py_str (v : pyval) : text :=
  match v with
  | PNone => str "None"
  | PBool b => if b then str "True" else str "False"
  | PInt z => str_of_Z z
  | PFloat f => repr_float f
  | PStr s => s
  end.

Definition truthy_words : list text :=
  [str "1"; str "true"; str "yes"; str "y"; str "t"].

Definition to_float (v : pyval) : option float :=
  match py_float v with
  | Ok f => Some f
  | Err _ => None
  end.

(** [r.get(k)]: [None] for a missing key. *)
Definition get (r : gmap string pyval) (k : string) : pyval :=
  default PNone (r !! k).

(** A text column holds a [str] or nothing, in a row of the CSV reader
    and in the sample rows alike; [as_text] reads the value left by
    [... or ""] in such a column. *)
Definition as_text (v : pyval) : text :=
  match v with
  | PStr s => s
  | _ => []
  end.

End Conversions.

(** The rows of [SAMPLE_EPISODES], as the program writes them. *)
Definition SAMPLE_EPISODES : list (gmap string pyval) :=
  [ {[ "season" := PInt 2; "episode" := PInt 21; "title" := PStr (str "Scourge");
       "air_date" := PStr (str "2001-05-11"); "imdb_id" := PStr (str "tt0629728");
       "imdb_rating" := PFloat f8_5;
       "features_george_huang" := PBool true; "heavy_finn_munch" := PBool false;
       "heavy_trial" := PBool false;
       "one_sentence_plot" := PStr (str "The SVU hunts a sadistic serial killer whose crimes escalate in brutality and psychological complexity.");
       "one_sentence_reason" := PStr (str "A tense, profiler-driven episode where George Huang’s insights meaningfully shape the investigation.") ]};
    {[ "season" := PInt 3; "episode" := PInt 1; "title" := PStr (str "Repression");
       "air_date" := PStr (str "2001-09-28"); "imdb_id" := PStr (str "tt0629715");
       "imdb_rating" := PFloat f8_2;
       "features_george_huang" := PBool true; "heavy_finn_munch" := PBool false;
       "heavy_trial" := PBool false;
       "one_sentence_plot" := PStr (str "A rape case hinges on repressed childhood memories, raising doubts about truth, trauma, and memory.");
       "one_sentence_reason" := PStr (str "Classic Huang-focused psychology episode with moral ambiguity and no trial-heavy payoff.") ]};
    {[ "season" := PInt 3; "episode" := PInt 2; "title" := PStr (str "Wrath");
       "air_date" := PStr (str "2001-10-05"); "imdb_id" := PStr (str "tt0629756");
       "imdb_rating" := PFloat f8_3;
       "features_george_huang" := PBool true; "heavy_finn_munch" := PBool false;
       "heavy_trial" := PBool false;
       "one_sentence_plot" := PStr (str "A killer seeks revenge against people tied to Benson’s past cases, turning SVU’s history against them.");
       "one_sentence_reason" := PStr (str "High emotional stakes, strong profiling, and relentless momentum without courtroom drag.") ]} ].

(** ** [in_range] and [filter_episodes] *)

Definition in_range (ep : Episode) (s1 e1 s2 e2 : Z) : bool :=
  let v := season ep * 100 + episode ep in
  let start := s1 * 100 + e1 in
  let end_ := s2 * 100 + e2 in
  (start <=? v) && (v <=? end_).

(** [ep["imdb_rating"] is None or ep["imdb_rating"] < min_imdb]. *)
Definition rating_too_low (ep : Episode) (min_imdb : float) : bool :=
  match imdb_rating ep with
  | None => true
  | Some r => flt r min_imdb
  end.

(** The [for] loop of [filter_episodes]: [out] is the list built so far,
    each [continue] goes on with the rest and leaves [out] as it is. *)
Fixpoint filter_loop (s1 e1 s2 e2 : Z) (min_imdb : float)
    (allow_seasons : Z * Z) (ex_seasons : gset Z)
    (episodes out : list Episode) : list Episode :=
  match episodes with
  | [] => out
  | ep :: rest =>
      let continue := filter_loop s1 e1 s2 e2 min_imdb allow_seasons ex_seasons rest in
      if bool_decide (ex_seasons ≠ ∅) && bool_decide (season ep ∈ ex_seasons)
      then continue out
      else if negb (in_range ep s1 e1 s2 e2) then continue out
      else if negb ((fst allow_seasons <=? season ep) && (season ep <=? snd allow_seasons))
      then continue out
      else if negb (features_george_huang ep) then continue out
      else if heavy_finn_munch ep then continue out
      else if heavy_trial ep then continue out
      else if rating_too_low ep min_imdb then continue out
      else continue (out ++ [ep])
  end.

(** [exclude_seasons] is [None] when the argument is left out. *)
Definition filter_episodes (episodes : list Episode) (rng : Z * Z * Z * Z)
    (min_imdb : float) (allow_seasons : Z * Z)
    (exclude_seasons : option (list Z)) : list Episode :=
  let '(s1, e1, s2, e2) := rng in
  let ex_seasons : gset Z := list_to_set (default [] exclude_seasons) in
  filter_loop s1 e1 s2 e2 min_imdb allow_seasons ex_seasons episodes [].

(** ** [rank_and_select] *)

(** [float(r or 0.0)] for a rating [r] that is a float or [None]: a zero
    of either sign is false and gives [0.0] as well. *)
Definition rating_or_zero (r : option float) : float :=
  match r with
  | Some f => if is_fzero f then fzero else f
  | None => fzero
  end.

(** The sort key [(-float(e.get("imdb_rating") or 0.0), e.get("title",""))]. *)
Definition sort_key (e : Episode) : float * text :=
  (fneg (rating_or_zero (imdb_rating e)), title e).

(** [k1 < k2] on the key tuples: the first components decide unless they
    are equal, then the second ones do. *)
Definition key_ltb (k1 k2 : float * text) : bool :=
  if feq (fst k1) (fst k2) then text_ltb (snd k1) (snd k2)
  else flt (fst k1) (fst k2).

(** [sorted(l, key=...)] is a stable sort.  When [<] on the keys is a
    strict weak order (no key holds a NaN) the result is the one stable
    sorted arrangement of [l], whatever the algorithm; it is computed here
    by insertion, a new element going behind the elements that are
    strictly smaller.  With a NaN among the keys the result of Python's
    sort depends on its algorithm, and this function is the same only on
    a list in which no key is smaller than the key before it, which both
    return as it is. *)
Fixpoint insert_by {A K} (key : A -> K) (ltb : K -> K -> bool) (x : A) (l : list A) : list A :=
  match l with
  | [] => [x]
  | y :: l' =>
      if ltb (key y) (key x) then y :: insert_by key ltb x l'
      else x :: l
  end.

Fixpoint sorted_by {A K} (key : A -> K) (ltb : K -> K -> bool) (l : list A) : list A :=
  match l with
  | [] => []
  | x :: l' => insert_by key ltb x (sorted_by key ltb l')
  end.

(** [random.seed(seed)] only resets the generator, which nothing reads. *)
Definition rank_and_select (candidates : list Episode) (n : Z) : list Episode :=
  let candidates_sorted := sorted_by sort_key key_ltb candidates in
  take_upto n candidates_sorted.

(** ** Helpers of [details_expand] *)

Definition no_detail : text := str "(No detail available)".

(** [bullets[-1]]. *)
Definition last_item (bullets : list text) : result text :=
  match last bullets with
  | Some b => Ok b
  | None => Err (IndexError (str "list index out of range"))
  end.

(** The loop [while len(bullets) < max_bullets: bullets.append(bullets[-1])].
    Each round adds one bullet, so the loop runs [max_bullets - len(bullets)]
    times, which is [rounds]. *)
Fixpoint pad_loop (rounds : nat) (bullets : list text) : result (list text) :=
  match rounds with
  | O => Ok bullets
  | S k =>
      b ← last_item bullets;
      pad_loop k (bullets ++ [b])
  end.

Definition nonempty (s : text) : bool :=
  match s with [] => false | _ => true end.

Definition newline : text := [ascii_of_N 10].

Definition bullet_line (b : text) : text := str "- " ++ b.

(** ** Arguments and outcomes of [main] *)

Record Args : Type := mkArgs {
  arg_range : option text;
  arg_num : Z;
  arg_details : option text;
  arg_exclude_seasons : text
}.

(** How a run ends: the lines printed and the exit status, or the lines
    printed before an exception that nothing catches. *)
Inductive outcome : Type :=
  | Exit (status : Z) (printed : list text)
  | Uncaught (e : exn) (printed : list text).

Definition not_found_message (title_ : text) : text :=
  str "No episode found with title '" ++ title_ ++ str "'.".

Definition no_range_message : text :=
  str "Please provide --range 'SxEy>SxEy' (e.g. S2E1>S6E20) or use --details.".

Definition no_match_message : text :=
  str "No episodes matched your constraints in that range. Try expanding the range or check your dataset.".

(** [[conv(x) for x in pieces if keep(x)]] for a conversion that may
    raise: the first piece that raises ends the comprehension. *)
Fixpoint comprehension {A B} (conv : A -> result B) (keep : A -> bool)
    (pieces : list A) : result (list B) :=
  match pieces with
  | [] => Ok []
  | x :: rest =>
      if keep x
      then
        y ← conv x;
        ys ← comprehension conv keep rest;
        Ok (y :: ys)
      else comprehension conv keep rest
  end.

(** [x.isdigit()] on ASCII text. *)
Definition isdigit (s : text) : bool := nonempty s && forallb is_digit s.

Section Printing.

(** [str(f)] of the Python runtime for a float. *)
Variable repr_float : float -> text.

(** The text an f-string writes for [ep['imdb_rating']]. *)
Definition rating_text (r : option float) : text :=
  match r with
  | Some f => repr_float f
  | None => str "None"
  end.

Definition format_episode (ep : Episode) : text :=
  str "**" ++ title ep ++ str "** (S" ++ str_of_Z (season ep)
    ++ str "E" ++ str_of_Z (episode ep) ++ str ")" ++ newline
    ++ air_date ep ++ newline
    ++ str "IMDb Rating: " ++ rating_text (imdb_rating ep) ++ newline
    ++ one_sentence_plot ep ++ newline
    ++ one_sentence_reason ep ++ newline.

End Printing.

(** * The program over the string methods of the Python runtime *)

Module Generic.

Section Runtime.

(** [s.strip()], [s.upper()], [s.lower()], [s.split()], [s.isdigit()] and
    [int(s)] for a string [s], as the Python runtime computes them on
    every string; [int_of_text s] is [None] when [int(s)] raises
    [ValueError].  [float_of_text] and [repr_float] are [float(s)] and
    [str(f)], as in the conversions above. *)
Variable str_strip str_upper str_lower : text -> text.
Variable str_split : text -> list text.
Variable str_isdigit : text -> bool.
Variable int_of_text : text -> option Z.
Variable float_of_text : text -> option float.
Variable repr_float : float -> text.

(** [int(s)] for a string. *)
Definition py_int_text (s : text) : result Z :=
  match int_of_text s with
  | Some z => Ok z
  | None => Err (ValueError (str "invalid literal for int() with base 10"))
  end.

(** [int(v)]. *)
Definition py_int (v : pyval) : result Z :=
  match v with
  | PNone => Err (TypeError (str "int() argument must be a string or a real number"))
  | PBool b => Ok (if b then 1 else 0)
  | PInt z => Ok z
  | PFloat f => int_of_float f
  | PStr s => py_int_text s
  end.

(** ** [normalize_row] *)

Definition to_bool (v : pyval) : bool :=
  match v with
  | PBool b => b
  | PNone => false
  | _ =>
      let s := str_lower (str_strip (py_str repr_float v)) in
      existsb (text_eqb s) truthy_words
  end.

Definition normalize_row (r : gmap string pyval) : result Episode :=
  s ← py_int (py_or (get r "season") (PInt 0));
  e ← py_int (py_or (get r "episode") (PInt 0));
  Ok {|
    season := s;
    episode := e;
    title := as_text (py_or (get r "title") (py_or (get r "name") (PStr [])));
    air_date := as_text (py_or (get r "air_date") (PStr []));
    imdb_id := as_text (py_or (get r "imdb_id") (PStr []));
    imdb_rating := to_float float_of_text (get r "imdb_rating");
    features_george_huang := to_bool (get r "features_george_huang");
    heavy_finn_munch := to_bool (get r "heavy_finn_munch");
    heavy_trial := to_bool (get r "heavy_trial");
    one_sentence_plot := as_text (py_or (get r "one_sentence_plot") (PStr []));
    one_sentence_reason := as_text (py_or (get r "one_sentence_reason") (PStr []))
  |}.

(** ** [parse_range] *)

Definition se_to_tuple (s0 : text) : result (Z * Z) :=
  let s := str_upper (str_strip s0) in
  if negb (startswith (str "S") s && contains_char "E" s)
  then Err (ValueError [])
  else
    i ← index "E" s;
    s_idx ← py_int_text (slice 1 i s);
    j ← index "E" s;
    e_idx ← py_int_text (skipn (j + 1) s);
    Ok (s_idx, e_idx).

(** The body of the [try] block. *)
Definition parse_range_try (range_str : text) : result (Z * Z * Z * Z) :=
  '(lhs, rhs) ← unpack2 (split_on ">" range_str);
  '(s1, e1) ← se_to_tuple lhs;
  '(s2, e2) ← se_to_tuple rhs;
  if (s2 <? s1) || ((s2 =? s1) && (e2 <? e1))
  then Err (ValueError order_message)
  else Ok (s1, e1, s2, e2).

(** Every exception of the body is caught and raised again as an
    [ArgumentTypeError] that carries the input text. *)
Definition parse_range (range_str : text) : result (Z * Z * Z * Z) :=
  match parse_range_try range_str with
  | Ok q => Ok q
  | Err ex => Err (ArgumentTypeError (format_message range_str) ex)
  end.

(** ** [details_expand] *)

(** The loop [for i in range(max_bullets)] that cuts [words] into chunks of
    [approx] words and keeps the chunks that are not empty. *)
Fixpoint chunk_loop (words : list text) (approx : nat) (indices : list nat)
    (bullets : list text) : list text :=
  match indices with
  | [] => bullets
  | i :: rest =>
      let chunk := join (str " ") (slice (i * approx) ((i + 1) * approx) words) in
      match chunk with
      | [] => chunk_loop words approx rest bullets
      | _ => chunk_loop words approx rest (bullets ++ [str_strip chunk])
      end
  end.

Definition expand_sentence_to_bullets (sentence : text) (max_bullets : nat)
    : result (list text) :=
  match sentence with
  | [] => Ok (repeat no_detail max_bullets)
  | _ =>
      let parts :=
        List.filter (fun p => nonempty p)
          (map str_strip (split_on "," (replace (str " and ") (str ", ") sentence))) in
      if (length parts <? max_bullets)%nat
      then
        let words := str_split sentence in
        let approx := Nat.max 1 (length words / max_bullets) in
        let bullets := chunk_loop words approx (seq 0 max_bullets) [] in
        bullets' ← pad_loop (max_bullets - length bullets) bullets;
        Ok (firstn max_bullets bullets')
      else Ok (firstn max_bullets parts)
  end.

Definition plot_bullets (ep : Episode) : result (list text) :=
  expand_sentence_to_bullets (one_sentence_plot ep) 4.

Definition reason_bullets (ep : Episode) : result (list text) :=
  expand_sentence_to_bullets (one_sentence_reason ep) 4.

Definition details_expand (ep : Episode) : result text :=
  plot ← plot_bullets ep;
  reason ← reason_bullets ep;
  let out_lines :=
    [str "**" ++ title ep ++ str "**" ++ newline
       ++ str "**" ++ air_date ep ++ str "**" ++ newline
       ++ str "**IMDb Rating:** " ++ rating_text repr_float (imdb_rating ep) ++ newline;
     str "**Plot:**"]
    ++ map bullet_line plot
    ++ [newline ++ str "**Why it’s a great pick:**"]
    ++ map bullet_line reason in
  Ok (join newline out_lines).

(** ** [main], after the arguments are read and the episodes loaded *)

(** The details-only branch:
    [matched = [e for e in episodes if e["title"].lower() == title.lower()]]. *)
Definition details_mode (episodes : list Episode) (details : text) : outcome :=
  let title_ := str_strip details in
  let matched :=
    List.filter (fun e => text_eqb (str_lower (title e)) (str_lower title_)) episodes in
  match matched with
  | [] => Exit 1 [not_found_message title_]
  | e :: _ =>
      match details_expand e with
      | Ok s => Exit 0 [s]
      | Err ex => Uncaught ex []
      end
  end.

(** [[int(x) for x in s.split(",") if x.strip().isdigit()]]: the piece
    itself is converted, not the trimmed piece the test looks at. *)
Definition exclude_list (s : text) : result (list Z) :=
  comprehension py_int_text (fun x => str_isdigit (str_strip x)) (split_on "," s).

(** The list of excluded seasons [main] reads from its argument. *)
Definition main_exclude_seasons (exclude_seasons : text) : result (list Z) :=
  match exclude_seasons with
  | [] => Ok []
  | s => exclude_list s
  end.

(** Nothing is printed before the range and the list of excluded seasons
    are read, so an exception raised there leaves no output. *)
Definition main_loaded (episodes : list Episode) (args : Args) : outcome :=
  match arg_details args with
  | Some (c :: d) => details_mode episodes (c :: d)
  | _ =>
      match arg_range args with
      | None | Some [] => Exit 1 [no_range_message]
      | Some range_str =>
          match parse_range range_str with
          | Err ex => Uncaught ex []
          | Ok rng =>
              match main_exclude_seasons (arg_exclude_seasons args) with
              | Err ex => Uncaught ex []
              | Ok exclude_seasons =>
                  let candidates :=
                    filter_episodes episodes rng MIN_IMDB_RATING MAX_SEASONS_ALLOWED
                      (Some exclude_seasons) in
                  match candidates with
                  | [] => Exit 0 [no_match_message]
                  | _ =>
                      let results := rank_and_select candidates (arg_num args) in
                      Exit 0 (flat_map (fun ep => [format_episode repr_float ep; str "---"])
                                results)
                  end
              end
          end
      end
  end.

(** ** The web page (app.py) *)

(** The list of excluded seasons the page reads from its text box:
    [[int(x.strip()) for x in text.split(",") if x.strip().isdigit()]]
    when the trimmed text is not empty. *)
Definition app_exclude_seasons (exclude_seasons_text : text) : result (list Z) :=
  match str_strip exclude_seasons_text with
  | [] => Ok []
  | _ =>
      comprehension (fun x => py_int_text (str_strip x))
        (fun x => str_isdigit (str_strip x)) (split_on "," exclude_seasons_text)
  end.

End Runtime.

End Generic.

(** * The program on ASCII text *)

(** The functions of [Generic] with the string methods of this file, which
    are the methods of the runtime on ASCII text. *)

Definition py_int (v : pyval) : result Z := Generic.py_int parse_int v.

Definition to_bool (repr_float : float -> text) (v : pyval) : bool :=
  Generic.to_bool strip lower repr_float v.

Definition normalize_row (float_of_text : text -> option float)
    (repr_float : float -> text) (r : gmap string pyval) : result Episode :=
  Generic.normalize_row strip lower parse_int float_of_text repr_float r.

Definition se_to_tuple (s0 : text) : result (Z * Z) :=
  Generic.se_to_tuple strip upper parse_int s0.

Definition parse_range (range_str : text) : result (Z * Z * Z * Z) :=
  Generic.parse_range strip upper parse_int range_str.

Definition expand_sentence_to_bullets (sentence : text) (max_bullets : nat)
    : result (list text) :=
  Generic.expand_sentence_to_bullets strip split_ws sentence max_bullets.

Definition plot_bullets (ep : Episode) : result (list text) :=
  Generic.plot_bullets strip split_ws ep.

Definition reason_bullets (ep : Episode) : result (list text) :=
  Generic.reason_bullets strip split_ws ep.

Definition details_expand (repr_float : float -> text) (ep : Episode) : result text :=
  Generic.details_expand strip split_ws repr_float ep.

Definition exclude_list (s : text) : result (list Z) :=
  Generic.exclude_list strip isdigit parse_int s.

Definition main_exclude_seasons (exclude_seasons : text) : result (list Z) :=
  Generic.main_exclude_seasons strip isdigit parse_int exclude_seasons.

Definition app_exclude_seasons (exclude_seasons_text : text) : result (list Z) :=
  Generic.app_exclude_seasons strip isdigit parse_int exclude_seasons_text.

Definition main_loaded (repr_float : float -> text) (episodes : list Episode)
    (args : Args) : outcome :=
  Generic.main_loaded strip upper lower split_ws isdigit parse_int repr_float episodes args.

(** ** [load_csv], after the file is opened *)

(** [csv.DictReader] yields one row after the other; the loop
    normalizes each and appends it to [rows].  The first row that raises
    ends the load. *)
Fixpoint load_rows (float_of_text : text -> option float) (repr_float : float -> text)
    (reader : list (gmap string pyval)) (rows : list Episode) : result (list Episode) :=
  match reader with
  | [] => Ok rows
  | r :: rest =>
      ep ← normalize_row float_of_text repr_float r;
      load_rows float_of_text repr_float rest (rows ++ [ep])
  end.

Definition load_csv (float_of_text : text -> option float) (repr_float : float -> text)
    (reader : list (gmap string pyval)) : result (list Episode) :=
  load_rows float_of_text repr_float reader [].

(** ** The rating lookup and the refresh loop of [main] *)

(** [0.1] as a binary64 value. *)
Definition f0_1 : float := Eval vm_compute in SFdiv 53 1024 (float_of_Z 1) (float_of_Z 10).

Definition set_rating (ep : Episode) (r : float) : Episode :=
  {| season := season ep; episode := episode ep; title := title ep;
     air_date := air_date ep; imdb_id := imdb_id ep;
     imdb_rating := Some r;
     features_george_huang := features_george_huang ep;
     heavy_finn_munch := heavy_finn_munch ep; heavy_trial := heavy_trial ep;
     one_sentence_plot := one_sentence_plot ep;
     one_sentence_reason := one_sentence_reason ep |}.

Section Enrichment.

(** [os.getenv("OMDB_API_KEY")], and what the request to the service
    gives for an identifier: the rating it answers, or nothing when the
    request fails or the answer holds no rating.  The answer may differ
    from call to call, so it is given by the position of the record that
    asks. *)
Variable OMDB_API_KEY : option text.
Variable omdb_answer : nat -> text -> option float.

Definition fetch_imdb_rating_from_omdb (call : nat) (imdb_id_ : text) : option float :=
  match OMDB_API_KEY with
  | None | Some [] => None
  | Some _ =>
      match imdb_id_ with
      | [] => None
      | _ => omdb_answer call imdb_id_
      end
  end.

(** [(rating is None or rating < 0.1) and imdb_id]. *)
Definition wants_lookup (ep : Episode) : bool :=
  match imdb_rating ep with
  | None => true
  | Some r => flt r f0_1
  end && nonempty (imdb_id ep).

(** One round of the loop: [if rating: ep["imdb_rating"] = rating]. *)
Definition refresh (call : nat) (ep : Episode) : Episode :=
  if wants_lookup ep
  then match fetch_imdb_rating_from_omdb call (imdb_id ep) with
       | Some rating => if is_fzero rating then ep else set_rating ep rating
       | None => ep
       end
  else ep.

Fixpoint refresh_loop (call : nat) (episodes : list Episode) : list Episode :=
  match episodes with
  | [] => []
  | ep :: rest => refresh call ep :: refresh_loop (S call) rest
  end.

Definition refresh_ratings (episodes : list Episode) : list Episode :=
  refresh_loop O episodes.

End Enrichment.

(** ** The web page (app.py) *)

(** [f"S{int(start_season)}E{int(start_episode)}>S{int(end_season)}E{int(end_episode)}"]. *)
Definition app_range_str (start_season start_episode end_season end_episode : Z) : text :=
  str "S" ++ str_of_Z start_season ++ str "E" ++ str_of_Z start_episode
    ++ str ">S" ++ str_of_Z end_season ++ str "E" ++ str_of_Z end_episode.

(** * Notions of the specification *)

(** ** Range expressions *)

(** The order test on two endpoints: the end point comes before the start
    point in the order on pairs, the season first. *)
Definition end_before_start (s1 e1 s2 e2 : Z) : Prop :=
  s2 < s1 \/ (s2 = s1 /\ e2 < e1).

(** Number of separators in a range expression. *)
Definition separators (x : text) : nat :=
  length (List.filter (fun c => char_eqb c ">") x).

(** [cut_at c s] cuts [s] at its first [c]. *)
Fixpoint cut_at (c : ascii) (s : text) : option (text * text) :=
  match s with
  | [] => None
  | d :: s' =>
      if char_eqb d c then Some ([], s')
      else match cut_at c s' with
           | Some (a, b) => Some (d :: a, b)
           | None => None
           end
  end.

Section RangeSyntax.

(** [s.strip()], [s.upper()] and [int(s)] of the Python runtime, as in
    [Generic]. *)
Variable str_strip str_upper : text -> text.
Variable int_of_text : text -> option Z.

Definition reads_as_integer (s : text) : bool :=
  match int_of_text s with Some _ => true | None => false end.

(** A side is well formed when, trimmed and in upper case, it begins with
    the season marker, holds the episode marker after it, and the text
    between the markers and the text after the episode marker both read
    as integers. *)
Definition well_formed_side (side : text) : bool :=
  match str_upper (str_strip side) with
  | c :: rest =>
      char_eqb c "S" &&
      match cut_at "E" rest with
      | Some (a, b) => reads_as_integer a && reads_as_integer b
      | None => false
      end
  | [] => false
  end.

(** A range expression is well formed when it has exactly one separator
    and both sides of it are well formed. *)
Definition well_formed (x : text) : bool :=
  (separators x =? 1)%nat &&
  match cut_at ">" x with
  | Some (l, r) => well_formed_side l && well_formed_side r
  | None => false
  end.

End RangeSyntax.

(** [x] occurs in [m]. *)
Definition includes (m x : text) : Prop :=
  exists pre post, m = pre ++ x ++ post.

(** ** The seven predicates of the filter *)

(** Linearized position of a record. *)
Definition linear (ep : Episode) : Z := season ep * 100 + episode ep.

(** 1. the season is in the list of excluded seasons. *)
Definition season_excluded (exclude_seasons : option (list Z)) (ep : Episode) : bool :=
  existsb (Z.eqb (season ep)) (default [] exclude_seasons).

(** 2. the linearized position lies in [start, end]. *)
Definition within_range (rng : Z * Z * Z * Z) (ep : Episode) : bool :=
  let '(s1, e1, s2, e2) := rng in
  (s1 * 100 + e1 <=? linear ep) && (linear ep <=? s2 * 100 + e2).

(** 3. the season lies in the allowed interval. *)
Definition season_allowed (allow_seasons : Z * Z) (ep : Episode) : bool :=
  (fst allow_seasons <=? season ep) && (season ep <=? snd allow_seasons).

(** 7. the rating is known and at least the minimum. *)
Definition rating_at_least (min_imdb : float) (ep : Episode) : bool :=
  match imdb_rating ep with
  | Some r => fle min_imdb r
  | None => false
  end.

Definition passes_all (rng : Z * Z * Z * Z) (min_imdb : float)
    (allow_seasons : Z * Z) (exclude_seasons : option (list Z))
    (ep : Episode) : bool :=
  negb (season_excluded exclude_seasons ep)
  && within_range rng ep
  && season_allowed allow_seasons ep
  && features_george_huang ep
  && negb (heavy_finn_munch ep)
  && negb (heavy_trial ep)
  && rating_at_least min_imdb ep.

(** The test the loop makes on one record, all [continue]s taken
    together. *)
Definition kept (s1 e1 s2 e2 : Z) (min_imdb : float) (allow_seasons : Z * Z)
    (ex_seasons : gset Z) (ep : Episode) : bool :=
  negb (bool_decide (ex_seasons ≠ ∅) && bool_decide (season ep ∈ ex_seasons))
  && in_range ep s1 e1 s2 e2
  && ((fst allow_seasons <=? season ep) && (season ep <=? snd allow_seasons))
  && features_george_huang ep
  && negb (heavy_finn_munch ep)
  && negb (heavy_trial ep)
  && negb (rating_too_low ep min_imdb).

(** The data model has no NaN rating: a rating is a number or unknown. *)
Definition rating_is_number (ep : Episode) : bool :=
  match imdb_rating ep with
  | Some r => negb (is_nan r)
  | None => true
  end.

(** The sample rows of the program, as [normalize_row] returns them. *)
Definition scourge : Episode :=
  {| season := 2; episode := 21; title := str "Scourge";
     air_date := str "2001-05-11"; imdb_id := str "tt0629728";
     imdb_rating := Some f8_5;
     features_george_huang := true; heavy_finn_munch := false; heavy_trial := false;
     one_sentence_plot := str "The SVU hunts a sadistic serial killer whose crimes escalate in brutality and psychological complexity.";
     one_sentence_reason := str "A tense, profiler-driven episode where George Huang’s insights meaningfully shape the investigation." |}.

Definition repression : Episode :=
  {| season := 3; episode := 1; title := str "Repression";
     air_date := str "2001-09-28"; imdb_id := str "tt0629715";
     imdb_rating := Some f8_2;
     features_george_huang := true; heavy_finn_munch := false; heavy_trial := false;
     one_sentence_plot := str "A rape case hinges on repressed childhood memories, raising doubts about truth, trauma, and memory.";
     one_sentence_reason := str "Classic Huang-focused psychology episode with moral ambiguity and no trial-heavy payoff." |}.

Definition wrath : Episode :=
  {| season := 3; episode := 2; title := str "Wrath";
     air_date := str "2001-10-05"; imdb_id := str "tt0629756";
     imdb_rating := Some f8_3;
     features_george_huang := true; heavy_finn_munch := false; heavy_trial := false;
     one_sentence_plot := str "A killer seeks revenge against people tied to Benson’s past cases, turning SVU’s history against them.";
     one_sentence_reason := str "High emotional stakes, strong profiling, and relentless momentum without courtroom drag." |}.

Definition sample_episodes : list Episode := [scourge; repression; wrath].

(** A record as the normalizer builds it from a rating cell that holds the
    text "nan". *)
Definition nan_rated : Episode :=
  {| season := 3; episode := 5; title := str "Sacrifice";
     air_date := []; imdb_id := [];
     imdb_rating := Some S754_nan;
     features_george_huang := true; heavy_finn_munch := false; heavy_trial := false;
     one_sentence_plot := []; one_sentence_reason := [] |}.

(** A float reader that knows the text "nan" only, and a row whose
    rating cell holds that text. *)
Definition nan_reader (s : text) : option float :=
  if text_eqb s (str "nan") then Some S754_nan else None.

Definition row_nan_rating : gmap string pyval :=
  {[ "season" := PStr (str "3"); "episode" := PStr (str "5");
     "title" := PStr (str "Sacrifice"); "imdb_rating" := PStr (str "nan");
     "features_george_huang" := PStr (str "1") ]}.

(** ** The ranking order *)

(** The list is one ascending run: no key is smaller than the key before
    it.  Python's sort begins by looking for such a run and returns the
    list as it is when the run is the whole list. *)
Fixpoint ascending_run {A K} (key : A -> K) (ltb : K -> K -> bool) (l : list A) : bool :=
  match l with
  | x :: (y :: _) as l' => negb (ltb (key y) (key x)) && ascending_run key ltb l'
  | _ => true
  end.

(** A record with the rating 9.0. *)
Definition nine_rated : Episode :=
  {| season := 4; episode := 4; title := str "Authority";
     air_date := []; imdb_id := [];
     imdb_rating := Some f9_0;
     features_george_huang := true; heavy_finn_munch := false; heavy_trial := false;
     one_sentence_plot := []; one_sentence_reason := [] |}.

(** [key_le key ltb x y]: in a list sorted by [key], [x] may stand before
    [y], as the key of [y] is not smaller than the key of [x]. *)
Definition key_le {A K} (key : A -> K) (ltb : K -> K -> bool) (x y : A) : Prop :=
  ltb (key y) (key x) = false.

(** The rating a record is ranked with: an unknown rating counts as 0.0. *)
Definition rating_as_number (e : Episode) : float :=
  match imdb_rating e with
  | Some r => r
  | None => fzero
  end.

(** [ranked_le a b]: [a] may stand before [b] in the ranking, that is,
    [a] has the higher rating, or the two ratings are equal and the title
    of [a] is not after the title of [b]. *)
Definition ranked_le (a b : Episode) : bool :=
  flt (rating_as_number b) (rating_as_number a)
  || (feq (rating_as_number a) (rating_as_number b) && text_leb (title a) (title b)).

(** Two records tie when rating and title are both equal. *)
Definition same_rank (a b : Episode) : bool :=
  feq (rating_as_number a) (rating_as_number b) && text_eqb (title a) (title b).

(** No two different records of the list tie. *)
Definition no_ties (l : list Episode) : bool :=
  forallb (fun a => forallb (fun b => implb (same_rank a b) (bool_decide (a = b))) l) l.

Definition rating_known (e : Episode) : bool :=
  match imdb_rating e with Some _ => true | None => false end.

(** The record with an unknown rating replaced by 0.0. *)
Definition with_unknown_as_zero (e : Episode) : Episode :=
  {| season := season e; episode := episode e; title := title e;
     air_date := air_date e; imdb_id := imdb_id e;
     imdb_rating := Some (rating_as_number e);
     features_george_huang := features_george_huang e;
     heavy_finn_munch := heavy_finn_munch e; heavy_trial := heavy_trial e;
     one_sentence_plot := one_sentence_plot e;
     one_sentence_reason := one_sentence_reason e |}.

(** A second record with the title and the rating of [scourge]. *)
Definition scourge_again : Episode :=
  {| season := 2; episode := 22; title := str "Scourge";
     air_date := str "2001-05-18"; imdb_id := str "tt0000000";
     imdb_rating := Some f8_5;
     features_george_huang := true; heavy_finn_munch := false; heavy_trial := false;
     one_sentence_plot := str "The hunt goes on.";
     one_sentence_reason := str "More of the same." |}.

Definition f10_0 : float := Eval vm_compute in float_of_Z 10.

(** A record with the known rating 0.0 and a record with no rating. *)
Definition zero_rated : Episode :=
  {| season := 4; episode := 1; title := str "Deception";
     air_date := []; imdb_id := [];
     imdb_rating := Some fzero;
     features_george_huang := true; heavy_finn_munch := false; heavy_trial := false;
     one_sentence_plot := []; one_sentence_reason := [] |}.

Definition unrated : Episode :=
  {| season := 4; episode := 2; title := str "Chameleon";
     air_date := []; imdb_id := [];
     imdb_rating := None;
     features_george_huang := true; heavy_finn_munch := false; heavy_trial := false;
     one_sentence_plot := []; one_sentence_reason := [] |}.

(** ** Detail lookup *)

(** The record is a hit for the query: the titles are equal once both are
    in lower case, [str_lower] being [s.lower()] of the Python runtime. *)
Definition title_matches (str_lower : text -> text) (query : text) (e : Episode) : bool :=
  text_eqb (str_lower (title e)) (str_lower query).

(** A float printer to run the printing functions with. *)
Definition plain_repr (f : float) : text :=
  match f with
  | S754_nan => str "nan"
  | S754_infinity s => if s then str "-inf" else str "inf"
  | _ => str "<float>"
  end.

Definition lookup_args : Args :=
  {| arg_range := None; arg_num := 3;
     arg_details := Some (str " rEPRESSION ");
     arg_exclude_seasons := [] |}.

(** ** Cells of a row *)

(** The integer in a season or episode cell: 0 for an absent or empty
    cell, the integer a text cell reads as, [int_of_text] being [int(s)]
    of the Python runtime, the integer itself. *)
Definition cell_integer (int_of_text : text -> option Z) (v : pyval) : option Z :=
  match v with
  | PNone => Some 0
  | PStr [] => Some 0
  | PStr s => int_of_text s
  | PInt z => Some z
  | _ => None
  end.

(** A float reader to run the normalizer with: it reads nothing. *)
Definition no_float (s : text) : option float := None.

Definition row_negative_season : gmap string pyval :=
  {[ "season" := PStr (str "-3"); "episode" := PStr (str "4"); "title" := PStr (str "Loss") ]}.

Definition row_unreadable_season : gmap string pyval :=
  {[ "season" := PStr (str "abc"); "episode" := PStr (str "4"); "title" := PStr (str "Loss") ]}.

Definition row_missing_numbers : gmap string pyval :=
  {[ "season" := PStr []; "title" := PStr (str "Loss") ]}.

(** ** Free-text fields *)

(** A record whose plot is a single space. *)
Definition blank_plot : Episode :=
  {| season := 5; episode := 3; title := str "Mother";
     air_date := str "2003-10-07"; imdb_id := [];
     imdb_rating := Some f8_0;
     features_george_huang := true; heavy_finn_munch := false; heavy_trial := false;
     one_sentence_plot := str " ";
     one_sentence_reason := str "Huang at work." |}.

(** The field has a character that is not white space. *)
Definition has_word (s : text) : bool := existsb (fun c => negb (is_space c)) s.

(** ** Runs of the program on the sample rows *)

Definition run_args (range_ : string) (num : Z) (exclude : string) : Args :=
  {| arg_range := Some (str range_); arg_num := num;
     arg_details := None; arg_exclude_seasons := str exclude |}.

(** * Notions for the further properties *)

(** The characters [str] writes for an integer: digits after an optional
    minus sign. *)
Definition numeric_char (c : ascii) : bool := is_digit c || char_eqb c "-".

Definition no_space (s : text) : bool := forallb (fun c => negb (is_space c)) s.

(** One side of a range expression as it is printed: [S<season>E<episode>]. *)
Definition printed_side (s e : Z) : text :=
  "S"%char :: str_of_Z s ++ "E"%char :: str_of_Z e.

(** The start point is not after the end point, the season first. *)
Definition ordered_range (q : Z * Z * Z * Z) : Prop :=
  let '(s1, e1, s2, e2) := q in s1 < s2 \/ (s1 = s2 /\ e1 <= e2).

(** The season is not in the list. *)
Definition season_not_in (ex : list Z) (ep : Episode) : bool :=
  negb (existsb (Z.eqb (season ep)) ex).

(** The field is not empty and holds white space only. *)
Definition blank_only (s : text) : bool := nonempty s && forallb is_space s.

(** The separators FS, GS, RS and US (codes 28 to 31): white space for
    [strip], but not skipped by [int]. *)
Definition is_separator_control (c : ascii) : bool :=
  let n := code c in ((28 <=? n) && (n <=? 31))%N.

(** The piece passes the test of the comprehension: trimmed, it is made
    of digits. *)
Definition digit_piece (x : text) : bool := isdigit (strip x).

(** The season a piece stands for: the number its digits read as. *)
Definition piece_value (x : text) : Z := default 0 (parse_int (strip x)).

(** The exception [int] raises on a string it cannot read. *)
Definition int_error : exn :=
  ValueError (str "invalid literal for int() with base 10").

(** The characters of a number as [int] reads it. *)
Definition int_char (c : ascii) : bool :=
  is_digit c || char_eqb c "_" || char_eqb c "+" || char_eqb c "-".

(** An unrated record that has an identifier. *)
Definition unrated_with_id : Episode :=
  {| season := 4; episode := 3; title := str "Vulnerable";
     air_date := []; imdb_id := str "tt0629747";
     imdb_rating := None;
     features_george_huang := true; heavy_finn_munch := false; heavy_trial := false;
     one_sentence_plot := []; one_sentence_reason := [] |}.

(** Arguments with a range that parses and a list of excluded seasons
    whose one piece begins with the separator FS. *)
Definition bad_exclusion_args : Args :=
  {| arg_range := Some (str "S2E1>S6E20"); arg_num := 2; arg_details := None;
     arg_exclude_seasons := ascii_of_N 28 :: str "2" |}.
Example is_space_examples :
  map is_space [" "%char; ascii_of_N 9; ascii_of_N 31; "x"%char; "_"%char]
  = [true; true; true; false; false].
Proof. reflexivity. Qed.

Example strip_upper_example : upper (strip (str "  s2e1 ")) = str "S2E1".
Proof. reflexivity. Qed.

Example split_on_example :
  split_on ">" (str "S2E1>S6E20") = [str "S2E1"; str "S6E20"].
Proof. reflexivity. Qed.

Example split_on_none : split_on ">" (str "S2E1") = [str "S2E1"].
Proof. reflexivity. Qed.

Example split_ws_example :
  split_ws (str " a  rape case" ++ newline ++ str "hinges ")
  = [str "a"; str "rape"; str "case"; str "hinges"].
Proof. reflexivity. Qed.

Example replace_example :
  replace (str " and ") (str ", ") (str "truth, trauma, and memory and doubt")
  = str "truth, trauma,, memory, doubt".
Proof. reflexivity. Qed.

Example join_example : join (str " ") [str "a"; str "b"; str "c"] = str "a b c".
Proof. reflexivity. Qed.

Example parse_int_examples :
  map parse_int [str "21"; str " 7 "; str "-3"; str "+4"; str "1_000"; str "007"]
  = [Some 21; Some 7; Some (-3); Some 4; Some 1000; Some 7].
Proof. reflexivity. Qed.

Example parse_int_rejects :
  map parse_int
    [str ""; str "abc"; str "2-"; str "1__0"; str "_1"; str "1_"; str "+ 1"; str "1E5";
     ascii_of_N 28 :: str "5"; str "5" ++ [ascii_of_N 31]]
  = [None; None; None; None; None; None; None; None; None; None].
Proof. reflexivity. Qed.

Example str_of_Z_examples :
  map str_of_Z [0; 7; 10; 2001; -35] = [str "0"; str "7"; str "10"; str "2001"; str "-35"].
Proof. reflexivity. Qed.

(** * Facts about text *)

Lemma char_eqb_eq (a b : ascii) : char_eqb a b = true <-> a = b.
Proof. apply Ascii.eqb_eq. Qed.

Lemma char_eqb_neq (a b : ascii) : char_eqb a b = false <-> a <> b.
Proof. apply Ascii.eqb_neq. Qed.

Lemma char_eqb_sym (a b : ascii) : char_eqb a b = char_eqb b a.
Proof. apply Ascii.eqb_sym. Qed.

Lemma contains_char_app c (a b : text) :
  contains_char c (a ++ b) = contains_char c a || contains_char c b.
Proof. apply existsb_app. Qed.

Lemma split_on_not_nil sep s : split_on sep s <> [].
Proof.
  destruct s as [|c s]; simpl; [discriminate|].
  destruct (char_eqb c sep); [discriminate|].
  destruct (split_on sep s); discriminate.
Qed.

Lemma split_on_no_sep sep s :
  contains_char sep s = false -> split_on sep s = [s].
Proof.
  induction s as [|c s IH]; simpl; [reflexivity|].
  intros H. apply orb_false_iff in H as [Hc Hs].
  rewrite char_eqb_sym, Hc, (IH Hs). reflexivity.
Qed.

Lemma split_on_app sep (l r : text) :
  contains_char sep l = false ->
  split_on sep (l ++ sep :: r) = l :: split_on sep r.
Proof.
  induction l as [|c l IH]; simpl; intros H.
  - rewrite (proj2 (char_eqb_eq sep sep) eq_refl). reflexivity.
  - apply orb_false_iff in H as [Hc Hl].
    rewrite char_eqb_sym, Hc, (IH Hl). reflexivity.
Qed.

Lemma split_on_two sep (l r : text) :
  contains_char sep l = false -> contains_char sep r = false ->
  split_on sep (l ++ sep :: r) = [l; r].
Proof.
  intros Hl Hr. rewrite split_on_app, split_on_no_sep; auto.
Qed.

Lemma split_on_one_inv sep s p :
  split_on sep s = [p] -> p = s /\ contains_char sep s = false.
Proof.
  revert p. induction s as [|c s IH]; simpl; intros p H.
  - injection H as <-. auto.
  - destruct (char_eqb c sep) eqn:E.
    + injection H as _ H. destruct (split_on_not_nil _ _ H).
    + destruct (split_on sep s) as [|q qs] eqn:Es; [destruct (split_on_not_nil _ _ Es)|].
      injection H as <- ->. destruct (IH q eq_refl) as [-> Hs].
      rewrite char_eqb_sym, E, Hs. auto.
Qed.

Lemma split_on_two_inv sep s (l r : text) :
  split_on sep s = [l; r] ->
  s = l ++ sep :: r /\ contains_char sep l = false /\ contains_char sep r = false.
Proof.
  revert l. induction s as [|c s IH]; simpl; intros l H; [discriminate|].
  destruct (char_eqb c sep) eqn:E.
  - injection H as <- H. apply split_on_one_inv in H as [-> Hr].
    apply char_eqb_eq in E as ->. auto.
  - destruct (split_on sep s) as [|q qs] eqn:Es; [discriminate|].
    injection H as <- ->. destruct (IH q eq_refl) as (-> & Hq & Hr).
    simpl. rewrite char_eqb_sym, E, Hq. auto.
Qed.

(** * The range parser *)

Example parse_range_sample :
  parse_range (str "S2E1>S6E20") = Ok (2, 1, 6, 20).
Proof. reflexivity. Qed.

Example parse_range_descending :
  parse_range (str "S6E1>S3E1")
  = Err (ArgumentTypeError (format_message (str "S6E1>S3E1")) (ValueError order_message)).
Proof. reflexivity. Qed.

Lemma order_test_spec (s1 e1 s2 e2 : Z) :
  (s2 <? s1) || ((s2 =? s1) && (e2 <? e1)) = true <-> end_before_start s1 e1 s2 e2.
Proof.
  unfold end_before_start.
  rewrite orb_true_iff, andb_true_iff, !Z.ltb_lt, Z.eqb_eq. reflexivity.
Qed.

Lemma cut_at_spec c s :
  match cut_at c s with
  | Some (a, b) => s = a ++ c :: b /\ contains_char c a = false
  | None => contains_char c s = false
  end.
Proof.
  induction s as [|d s IH]; simpl; [reflexivity|].
  destruct (char_eqb d c) eqn:E.
  - apply char_eqb_eq in E as ->. auto.
  - destruct (cut_at c s) as [[a b]|].
    + destruct IH as [-> Ha]. simpl. rewrite char_eqb_sym, E. auto.
    + rewrite char_eqb_sym, E. exact IH.
Qed.

Lemma cut_at_app c (a b : text) :
  contains_char c a = false -> cut_at c (a ++ c :: b) = Some (a, b).
Proof.
  induction a as [|d a IH]; simpl; intros H.
  - rewrite (proj2 (char_eqb_eq c c) eq_refl). reflexivity.
  - apply orb_false_iff in H as [Hd Ha].
    rewrite char_eqb_sym, Hd, (IH Ha). reflexivity.
Qed.

Lemma cut_at_none c s : contains_char c s = false -> cut_at c s = None.
Proof.
  intros H. pose proof (cut_at_spec c s) as Hs.
  destruct (cut_at c s) as [[a b]|]; [|reflexivity].
  destruct Hs as [-> _]. rewrite contains_char_app in H. simpl in H.
  rewrite (proj2 (char_eqb_eq c c) eq_refl) in H.
  rewrite orb_true_r in H. discriminate.
Qed.

Lemma index_of_app c (a b : text) :
  contains_char c a = false -> index_of c (a ++ c :: b) = Some (length a).
Proof.
  induction a as [|d a IH]; simpl; intros H.
  - rewrite (proj2 (char_eqb_eq c c) eq_refl). reflexivity.
  - apply orb_false_iff in H as [Hd Ha].
    rewrite char_eqb_sym, Hd, (IH Ha). reflexivity.
Qed.

Lemma separators_app (a b : text) : separators (a ++ b) = (separators a + separators b)%nat.
Proof. unfold separators. rewrite List.filter_app, List.length_app. reflexivity. Qed.

Lemma separators_none s : contains_char ">" s = false <-> separators s = 0%nat.
Proof.
  unfold separators. induction s as [|c s IH]; simpl; [tauto|].
  rewrite (char_eqb_sym ">" c). destruct (char_eqb c ">"); simpl; [split; discriminate|].
  exact IH.
Qed.

(** The parts of [split] are one more than the separators. *)
Lemma split_on_length s : length (split_on ">" s) = S (separators s).
Proof.
  unfold separators. induction s as [|c s IH]; simpl; [reflexivity|].
  destruct (char_eqb c ">"); simpl; [rewrite IH; reflexivity|].
  pose proof (split_on_not_nil ">" s) as Hn.
  destruct (split_on ">" s); [contradiction|]. simpl in *. exact IH.
Qed.

(** ** The parser over any string methods *)

Section RangeParser.

Variable str_strip str_upper : text -> text.
Variable int_of_text : text -> option Z.

Lemma parse_range_endpoints_gen x (l r : text) s1 e1 s2 e2 :
  split_on ">" x = [l; r] ->
  Generic.se_to_tuple str_strip str_upper int_of_text l = Ok (s1, e1) ->
  Generic.se_to_tuple str_strip str_upper int_of_text r = Ok (s2, e2) ->
  Generic.parse_range str_strip str_upper int_of_text x =
    if (s2 <? s1) || ((s2 =? s1) && (e2 <? e1))
    then Err (ArgumentTypeError (format_message x) (ValueError order_message))
    else Ok (s1, e1, s2, e2).
Proof.
  intros Hx Hl Hr. unfold Generic.parse_range, Generic.parse_range_try.
  rewrite Hx. simpl. rewrite Hl. simpl. rewrite Hr. simpl.
  destruct ((s2 <? s1) || ((s2 =? s1) && (e2 <? e1))); reflexivity.
Qed.

(** What [se_to_tuple] computes, read off the trimmed upper-case side. *)
Lemma se_to_tuple_cut_gen side :
  Generic.se_to_tuple str_strip str_upper int_of_text side =
    match str_upper (str_strip side) with
    | c :: rest =>
        if char_eqb c "S"
        then match cut_at "E" rest with
             | Some (a, b) =>
                 s_idx ← Generic.py_int_text int_of_text a;
                 e_idx ← Generic.py_int_text int_of_text b;
                 Ok (s_idx, e_idx)
             | None => Err (ValueError [])
             end
        else Err (ValueError [])
    | [] => Err (ValueError [])
    end.
Proof.
  unfold Generic.se_to_tuple.
  destruct (str_upper (str_strip side)) as [|c rest]; [reflexivity|].
  change (startswith (str "S") (c :: rest)) with (char_eqb "S" c && true).
  rewrite andb_true_r, (char_eqb_sym "S" c).
  destruct (char_eqb c "S") eqn:Ec; [|reflexivity].
  apply char_eqb_eq in Ec as ->.
  change (contains_char "E" ("S"%char :: rest)) with (false || contains_char "E" rest).
  rewrite orb_false_l.
  pose proof (cut_at_spec "E" rest) as Hc.
  destruct (cut_at "E" rest) as [[a b]|].
  - destruct Hc as [-> Ha].
    rewrite contains_char_app. simpl contains_char at 2.
    rewrite orb_true_r. simpl negb. cbv iota.
    unfold index. simpl index_of. rewrite (index_of_app _ _ _ Ha). simpl.
    unfold slice. simpl.
    replace (length a - 0)%nat with (length a) by lia.
    rewrite drop_0, take_app_length.
    replace (length a + 1)%nat with (S (length a)) by lia.
    replace (a ++ "E"%char :: b) with ((a ++ ["E"%char]) ++ b)
      by (rewrite <- List.app_assoc; reflexivity).
    rewrite drop_app_length' by (rewrite List.length_app; simpl; lia).
    reflexivity.
  - rewrite Hc. reflexivity.
Qed.

Lemma well_formed_side_ok side :
  well_formed_side str_strip str_upper int_of_text side
  = is_ok (Generic.se_to_tuple str_strip str_upper int_of_text side).
Proof.
  rewrite se_to_tuple_cut_gen. unfold well_formed_side.
  destruct (str_upper (str_strip side)) as [|c rest]; [reflexivity|].
  destruct (char_eqb c "S"); [|reflexivity]. simpl.
  destruct (cut_at "E" rest) as [[a b]|]; [|reflexivity].
  unfold reads_as_integer, Generic.py_int_text.
  destruct (int_of_text a); simpl; [|reflexivity].
  destruct (int_of_text b); reflexivity.
Qed.

Lemma well_formed_sides x (l r : text) :
  split_on ">" x = [l; r] ->
  well_formed str_strip str_upper int_of_text x
  = well_formed_side str_strip str_upper int_of_text l
    && well_formed_side str_strip str_upper int_of_text r.
Proof.
  intros H. unfold well_formed.
  pose proof (split_on_length x) as Hn. rewrite H in Hn. simpl in Hn.
  injection Hn as Hn. rewrite <- Hn. simpl.
  apply split_on_two_inv in H as (-> & Hl & _).
  rewrite (cut_at_app _ _ _ Hl). reflexivity.
Qed.

Lemma well_formed_two_parts x :
  well_formed str_strip str_upper int_of_text x = true ->
  exists l r, split_on ">" x = [l; r].
Proof.
  unfold well_formed. intros H. apply andb_true_iff in H as [Hn _].
  apply Nat.eqb_eq in Hn. pose proof (split_on_length x) as Hl. rewrite Hn in Hl.
  destruct (split_on ">" x) as [|l [|r [|t ts]]]; try discriminate. eauto.
Qed.

(** A side fails with the bare [ValueError] of the marker test or with
    the [ValueError] of [int], never with the order error. *)
Lemma se_to_tuple_cause side e :
  Generic.se_to_tuple str_strip str_upper int_of_text side = Err e ->
  e <> ValueError order_message.
Proof.
  rewrite se_to_tuple_cut_gen.
  destruct (str_upper (str_strip side)) as [|c rest]; [intros [= <-]; discriminate|].
  destruct (char_eqb c "S"); [|intros [= <-]; discriminate].
  destruct (cut_at "E" rest) as [[a b]|]; [|intros [= <-]; discriminate].
  unfold Generic.py_int_text.
  destruct (int_of_text a); simpl; [|intros [= <-]; discriminate].
  destruct (int_of_text b); simpl; [discriminate|intros [= <-]; discriminate].
Qed.

(** The parser rejects what is not well formed. *)
Lemma parse_range_malformed (x : text) :
  well_formed str_strip str_upper int_of_text x = false ->
  exists cause,
    Generic.parse_range str_strip str_upper int_of_text x
    = Err (ArgumentTypeError (format_message x) cause)
    /\ cause <> ValueError order_message.
Proof.
  intros Hwf. unfold Generic.parse_range, Generic.parse_range_try.
  destruct (split_on ">" x) as [|l [|r [|t ts]]] eqn:Hs; simpl.
  - eexists. split; [reflexivity|discriminate].
  - eexists. split; [reflexivity|discriminate].
  - rewrite (well_formed_sides x l r Hs), !well_formed_side_ok in Hwf.
    destruct (Generic.se_to_tuple str_strip str_upper int_of_text l)
      as [[s1 e1]|el] eqn:Hl; simpl.
    + destruct (Generic.se_to_tuple str_strip str_upper int_of_text r)
        as [[s2 e2]|er] eqn:Hr; simpl; [discriminate|].
      eexists. split; [reflexivity|]. apply (se_to_tuple_cause r); exact Hr.
    + eexists. split; [reflexivity|]. apply (se_to_tuple_cause l); exact Hl.
  - eexists. split; [reflexivity|discriminate].
Qed.

(** A well-formed expression passes the format checks: the parser
    returns its four numbers or fails on their order. *)
Lemma parse_range_well_formed (x : text) :
  well_formed str_strip str_upper int_of_text x = true ->
  exists s1 e1 s2 e2,
    Generic.parse_range str_strip str_upper int_of_text x =
      if (s2 <? s1) || ((s2 =? s1) && (e2 <? e1))
      then Err (ArgumentTypeError (format_message x) (ValueError order_message))
      else Ok (s1, e1, s2, e2).
Proof.
  intros Hwf. destruct (well_formed_two_parts x Hwf) as (l & r & Hs).
  rewrite (well_formed_sides x l r Hs), !well_formed_side_ok in Hwf.
  apply andb_true_iff in Hwf as [Hl Hr].
  destruct (Generic.se_to_tuple str_strip str_upper int_of_text l)
    as [[s1 e1]|] eqn:El; [|discriminate].
  destruct (Generic.se_to_tuple str_strip str_upper int_of_text r)
    as [[s2 e2]|] eqn:Er; [|discriminate].
  exists s1, e1, s2, e2. apply (parse_range_endpoints_gen x l r); assumption.
Qed.

End RangeParser.

(** ** The parser on ASCII text *)

Lemma parse_range_endpoints x (l r : text) s1 e1 s2 e2 :
  split_on ">" x = [l; r] ->
  se_to_tuple l = Ok (s1, e1) ->
  se_to_tuple r = Ok (s2, e2) ->
  parse_range x =
    if (s2 <? s1) || ((s2 =? s1) && (e2 <? e1))
    then Err (ArgumentTypeError (format_message x) (ValueError order_message))
    else Ok (s1, e1, s2, e2).
Proof. apply parse_range_endpoints_gen. Qed.

Lemma se_to_tuple_cut side :
  se_to_tuple side =
    match upper (strip side) with
    | c :: rest =>
        if char_eqb c "S"
        then match cut_at "E" rest with
             | Some (a, b) =>
                 s_idx ← py_int (PStr a); e_idx ← py_int (PStr b); Ok (s_idx, e_idx)
             | None => Err (ValueError [])
             end
        else Err (ValueError [])
    | [] => Err (ValueError [])
    end.
Proof. apply (se_to_tuple_cut_gen strip upper parse_int). Qed.


(** C3, as the code has it: for endpoints (s1,e1) and (s2,e2) read from
    the two sides of the separator, the parser fails with the order error
    exactly when s2 < s1, or s2 = s1 and e2 < e1, and returns
    (s1,e1,s2,e2) unchanged otherwise; when both episode numbers lie in
    0..99 that test is the test s2*100+e2 < s1*100+e1 on the linearized
    positions. *)
Theorem parse_range_order_check x (l r : text) (s1 e1 s2 e2 : Z) :
  split_on ">" x = [l; r] ->
  se_to_tuple l = Ok (s1, e1) ->
  se_to_tuple r = Ok (s2, e2) ->
  (end_before_start s1 e1 s2 e2 <->
     parse_range x
     = Err (ArgumentTypeError (format_message x) (ValueError order_message)))
  /\ (~ end_before_start s1 e1 s2 e2 <-> parse_range x = Ok (s1, e1, s2, e2))
  /\ (0 <= e1 < 100 -> 0 <= e2 < 100 ->
      (end_before_start s1 e1 s2 e2 <-> s2 * 100 + e2 < s1 * 100 + e1)).
Proof.
  intros Hx Hl Hr.
  rewrite (parse_range_endpoints x l r s1 e1 s2 e2 Hx Hl Hr).
  pose proof (order_test_spec s1 e1 s2 e2) as Ht.
  destruct ((s2 <? s1) || ((s2 =? s1) && (e2 <? e1))).
  - assert (Hb : end_before_start s1 e1 s2 e2) by (apply Ht; reflexivity).
    repeat split; intros; try tauto; try discriminate;
      unfold end_before_start in *; lia.
  - assert (Hb : ~ end_before_start s1 e1 s2 e2)
      by (intros H; apply Ht in H; discriminate).
    repeat split; intros; try tauto; try discriminate;
      unfold end_before_start in *; lia.
Qed.

Lemma parse_range_order_check_witness :
  parse_range (str "S6E1>S3E1")
  = Err (ArgumentTypeError (format_message (str "S6E1>S3E1")) (ValueError order_message)).
Proof.
  apply (parse_range_order_check (str "S6E1>S3E1") (str "S6E1") (str "S3E1") 6 1 3 1);
    [reflexivity | reflexivity | reflexivity |].
  unfold end_before_start. lia.
Defined.

(** C3 as stated fails: with an episode number of 100 or more the
    linearized end point can lie before the linearized start point of a
    range the parser accepts, and after the start point of one it
    rejects. *)
Lemma parse_range_linearized_counterexample :
  (3 * 100 + 1 < 2 * 100 + 150
   /\ parse_range (str "S2E150>S3E1") = Ok (2, 150, 3, 1))
  /\ (~ 2 * 100 + 150 < 3 * 100 + 1
      /\ parse_range (str "S3E1>S2E150")
         = Err (ArgumentTypeError (format_message (str "S3E1>S2E150"))
                  (ValueError order_message))).
Proof.
  repeat split; try lia; reflexivity.
Qed.

Lemma format_message_includes x : includes (format_message x) x.
Proof. unfold includes, format_message. eauto. Qed.

(** C7: for the string methods of the runtime, whatever they do on a
    string: a range expression that is not well formed (it has no
    separator or more than one, or a side of it, trimmed and in upper
    case, does not begin with S, or has no E after it, or one of its two
    numbers does not read as an integer) makes the parser fail with the
    format error, whose message includes the expression as it was given;
    the failure is not the order failure. *)
Theorem parse_range_rejects_malformed
    (str_strip str_upper : text -> text) (int_of_text : text -> option Z) (x : text) :
  well_formed str_strip str_upper int_of_text x = false ->
  exists cause,
    Generic.parse_range str_strip str_upper int_of_text x
    = Err (ArgumentTypeError (format_message x) cause)
    /\ cause <> ValueError order_message
    /\ includes (format_message x) x.
Proof.
  intros Hwf.
  destruct (parse_range_malformed str_strip str_upper int_of_text x Hwf)
    as (cause & Hp & Hc).
  exists cause. split; [exact Hp|]. split; [exact Hc|apply format_message_includes].
Qed.

Lemma parse_range_rejects_malformed_witness :
  exists cause,
    parse_range (str "S2-E1>S3E1")
    = Err (ArgumentTypeError (format_message (str "S2-E1>S3E1")) cause)
    /\ cause <> ValueError order_message
    /\ includes (format_message (str "S2-E1>S3E1")) (str "S2-E1>S3E1").
Proof.
  apply (parse_range_rejects_malformed strip upper parse_int (str "S2-E1>S3E1")).
  reflexivity.
Defined.

Example malformed_examples :
  map (well_formed strip upper parse_int)
    [str "S2-E1>S3E1"; str "S2E1"; str "S2E1>S3E1>S4E1"; str "2E1>S3E1";
     str "S2>S3E1"; str "S2E>S3E1"; str "S2E1E5>S3E1"; str "";
     str "S2E1>S3E" ++ [ascii_of_N 31] ++ str "1"]
  = [false; false; false; false; false; false; false; false; false].
Proof. reflexivity. Qed.

Example well_formed_examples :
  map (well_formed strip upper parse_int)
    [str "S2E1>S6E20"; str " s2e1 > s6e20 "; str "S6E1>S3E1"; str "S+2E-1>S3E1_0"]
  = [true; true; true; true].
Proof. reflexivity. Qed.

(** ** Letter case and surrounding white space *)

Lemma is_space_upper_char c : is_space (upper_char c) = is_space c.
Proof. destruct c as [[] [] [] [] [] [] [] []]; reflexivity. Qed.

Lemma upper_char_lower_char c : upper_char (lower_char c) = upper_char c.
Proof. destruct c as [[] [] [] [] [] [] [] []]; reflexivity. Qed.

Lemma separator_upper_char c : char_eqb ">" (upper_char c) = char_eqb ">" c.
Proof. destruct c as [[] [] [] [] [] [] [] []]; reflexivity. Qed.

Lemma space_not_separator c : is_space c = true -> char_eqb ">" c = false.
Proof. destruct c as [[] [] [] [] [] [] [] []]; (reflexivity || discriminate). Qed.

Lemma upper_lower s : upper (lower s) = upper s.
Proof.
  unfold upper, lower. rewrite List.map_map.
  apply List.map_ext. exact upper_char_lower_char.
Qed.

Lemma upper_lstrip s : upper (lstrip s) = lstrip (upper s).
Proof.
  induction s as [|c s IH]; simpl; [reflexivity|].
  rewrite is_space_upper_char. destruct (is_space c); [exact IH|reflexivity].
Qed.

Lemma upper_strip s : upper (strip s) = strip (upper s).
Proof.
  unfold strip, rstrip, upper.
  rewrite List.map_rev. fold (upper (lstrip (rev (lstrip s)))).
  rewrite upper_lstrip. unfold upper at 1. rewrite List.map_rev.
  fold (upper (lstrip s)). rewrite upper_lstrip. reflexivity.
Qed.

Lemma lstrip_blank w : forallb is_space w = true -> lstrip w = [].
Proof.
  induction w as [|c w IH]; simpl; [reflexivity|].
  intros H. apply andb_true_iff in H as [-> Hw]. auto.
Qed.

Lemma lstrip_app (u v : text) :
  lstrip (u ++ v) = if forallb is_space u then lstrip v else lstrip u ++ v.
Proof.
  induction u as [|c u IH]; simpl; [reflexivity|].
  destruct (is_space c); simpl; [exact IH|reflexivity].
Qed.

Lemma forallb_rev {A} (f : A -> bool) (l : list A) :
  forallb f (rev l) = forallb f l.
Proof.
  induction l as [|x l IH]; simpl; [reflexivity|].
  rewrite forallb_app, IH. simpl. rewrite andb_true_r. apply andb_comm.
Qed.

Lemma rstrip_blank_end (u w : text) :
  forallb is_space w = true -> rstrip (u ++ w) = rstrip u.
Proof.
  intros Hw. unfold rstrip. rewrite List.rev_app_distr, lstrip_app.
  rewrite forallb_rev, Hw. reflexivity.
Qed.

Lemma rstrip_blank w : forallb is_space w = true -> rstrip w = [].
Proof.
  intros Hw. unfold rstrip. rewrite lstrip_blank; [reflexivity|].
  rewrite forallb_rev. exact Hw.
Qed.

(** White space around a side does not change what [strip] leaves. *)
Lemma strip_padded (w1 u w2 : text) :
  forallb is_space w1 = true -> forallb is_space w2 = true ->
  strip (w1 ++ u ++ w2) = strip u.
Proof.
  intros H1 H2. unfold strip. rewrite lstrip_app, H1, lstrip_app.
  destruct (forallb is_space u) eqn:Hu.
  - rewrite (lstrip_blank w2 H2), (lstrip_blank u Hu). reflexivity.
  - apply rstrip_blank_end. exact H2.
Qed.

Lemma contains_separator_upper s :
  contains_char ">" (upper s) = contains_char ">" s.
Proof.
  induction s as [|c s IH]; simpl; [reflexivity|].
  rewrite separator_upper_char, IH. reflexivity.
Qed.

Lemma blank_no_separator w :
  forallb is_space w = true -> contains_char ">" w = false.
Proof.
  induction w as [|c w IH]; simpl; [reflexivity|].
  intros H. apply andb_true_iff in H as [Hc Hw].
  rewrite (space_not_separator c Hc), (IH Hw). reflexivity.
Qed.

(** [se_to_tuple] reads a side only through its trimmed upper-case form. *)
Lemma se_to_tuple_ext (a b : text) :
  upper (strip a) = upper (strip b) -> se_to_tuple a = se_to_tuple b.
Proof. intros H. rewrite !se_to_tuple_cut, H. reflexivity. Qed.

Lemma se_to_tuple_variant (w1 u w2 s : text) :
  forallb is_space w1 = true -> forallb is_space w2 = true ->
  upper u = upper s ->
  se_to_tuple (w1 ++ u ++ w2) = se_to_tuple s.
Proof.
  intros H1 H2 Hu. apply se_to_tuple_ext.
  rewrite (strip_padded w1 u w2 H1 H2), !upper_strip, Hu. reflexivity.
Qed.

Lemma variant_no_separator (w1 u w2 s : text) :
  forallb is_space w1 = true -> forallb is_space w2 = true ->
  upper u = upper s -> contains_char ">" s = false ->
  contains_char ">" (w1 ++ u ++ w2) = false.
Proof.
  intros H1 H2 Hu Hs. rewrite !contains_char_app.
  rewrite (blank_no_separator w1 H1), (blank_no_separator w2 H2).
  rewrite <- (contains_separator_upper u), Hu, contains_separator_upper, Hs.
  reflexivity.
Qed.

Lemma parse_range_ok_sides (l r : text) q :
  parse_range (l ++ ">"%char :: r) = Ok q ->
  split_on ">" (l ++ ">"%char :: r) = [l; r].
Proof.
  intros H. unfold parse_range, Generic.parse_range, Generic.parse_range_try in H.
  destruct (split_on ">" (l ++ ">"%char :: r)) as [|a [|b [|t ts]]] eqn:Hs;
    try discriminate.
  pose proof (split_on_length (l ++ ">"%char :: r)) as Hn.
  rewrite Hs, separators_app in Hn. simpl in Hn.
  change (separators (">"%char :: r)) with (S (separators r)) in Hn.
  rewrite <- Hs. apply split_on_two; apply separators_none; lia.
Qed.

(** C10: for a valid expression [l > r], a variant of it that pads either
    side with white space and changes the case of letters (so [s2e1] for
    [S2E1]) parses to the same four numbers. *)
Theorem parse_range_case_and_space_insensitive
    (l r : text) (q : Z * Z * Z * Z) (wl1 ul wl2 wr1 ur wr2 : text) :
  parse_range (l ++ ">"%char :: r) = Ok q ->
  forallb is_space wl1 = true -> forallb is_space wl2 = true ->
  forallb is_space wr1 = true -> forallb is_space wr2 = true ->
  upper ul = upper l -> upper ur = upper r ->
  parse_range ((wl1 ++ ul ++ wl2) ++ ">"%char :: (wr1 ++ ur ++ wr2)) = Ok q.
Proof.
  intros Hq Hl1 Hl2 Hr1 Hr2 Hul Hur.
  pose proof (parse_range_ok_sides l r q Hq) as Hs.
  destruct (split_on_two_inv _ _ _ _ Hs) as (_ & Hnl & Hnr).
  assert (Hs' : split_on ">" ((wl1 ++ ul ++ wl2) ++ ">"%char :: (wr1 ++ ur ++ wr2))
                = [wl1 ++ ul ++ wl2; wr1 ++ ur ++ wr2]).
  { apply split_on_two; eapply variant_no_separator; eauto. }
  unfold parse_range, Generic.parse_range, Generic.parse_range_try in *.
  rewrite Hs in Hq. rewrite Hs'.
  simpl in *.
  change (Generic.se_to_tuple strip upper parse_int) with se_to_tuple in *.
  rewrite (se_to_tuple_variant wl1 ul wl2 l Hl1 Hl2 Hul).
  destruct (se_to_tuple l) as [[s1 e1]|]; simpl in *; [|discriminate].
  rewrite (se_to_tuple_variant wr1 ur wr2 r Hr1 Hr2 Hur).
  destruct (se_to_tuple r) as [[s2 e2]|]; simpl in *; [|discriminate].
  destruct ((s2 <? s1) || ((s2 =? s1) && (e2 <? e1))); [discriminate|exact Hq].
Qed.

Lemma parse_range_case_and_space_insensitive_witness :
  parse_range (str "S2E1>S6E20") = Ok (2, 1, 6, 20)
  /\ parse_range (str "  s2e1 > S6e20  ") = Ok (2, 1, 6, 20).
Proof.
  split; [reflexivity|].
  apply (parse_range_case_and_space_insensitive
           (str "S2E1") (str "S6E20") (2, 1, 6, 20)
           (str "  ") (str "s2e1") (str " ") (str " ") (str "S6e20") (str "  "));
    reflexivity.
Defined.

(** * The order on floats *)

(** Case analysis on every integer comparison a float comparison makes. *)
Ltac compare_cases :=
  repeat match goal with
    | H : context [Pos.compare_cont Eq ?a ?b] |- _ =>
        change (Pos.compare_cont Eq a b) with (Pos.compare a b) in H
    | |- context [Pos.compare_cont Eq ?a ?b] =>
        change (Pos.compare_cont Eq a b) with (Pos.compare a b)
    end;
  repeat match goal with
    | H : context [Z.compare ?a ?b] |- _ => destruct (Z.compare_spec a b); simpl in H
    | |- context [Z.compare ?a ?b] => destruct (Z.compare_spec a b); simpl
    | H : context [Pos.compare ?a ?b] |- _ => destruct (Pos.compare_spec a b); simpl in H
    | |- context [Pos.compare ?a ?b] => destruct (Pos.compare_spec a b); simpl
    end;
  subst; try reflexivity; try discriminate; try lia.

Lemma SFcompare_antisym (a b : float) :
  SFcompare b a = option_map CompOpp (SFcompare a b).
Proof.
  destruct a as [[]|[]| |[] ? ?], b as [[]|[]| |[] ? ?]; simpl; try reflexivity;
    compare_cases.
Qed.

Lemma SFcompare_defined (a b : float) :
  is_nan a = false -> is_nan b = false -> exists c, SFcompare a b = Some c.
Proof.
  destruct a as [[]|[]| |[] ? ?], b as [[]|[]| |[] ? ?]; simpl; intros; try discriminate; eauto.
Qed.

(** Without NaN, [not (a < b)] is [b <= a]. *)
Lemma flt_false_fle (a b : float) :
  is_nan a = false -> is_nan b = false -> negb (flt a b) = fle b a.
Proof.
  intros Ha Hb. unfold flt, fle, SFltb, SFleb. rewrite (SFcompare_antisym a b).
  destruct (SFcompare_defined a b Ha Hb) as [c ->]. destruct c; reflexivity.
Qed.

Lemma fle_refl (a : float) : is_nan a = false -> fle a a = true.
Proof.
  unfold fle, SFleb. destruct a as [[]|[]| |[] ? ?]; simpl; try discriminate; try reflexivity;
    intros _; rewrite Z.compare_refl;
    change (Pos.compare_cont Eq m m) with (Pos.compare m m);
    rewrite Pos.compare_refl; reflexivity.
Qed.

Lemma fle_trans (a b c : float) :
  fle a b = true -> fle b c = true -> fle a c = true.
Proof.
  unfold fle, SFleb.
  destruct a as [[]|[]| |[] ? ?], b as [[]|[]| |[] ? ?], c as [[]|[]| |[] ? ?];
    simpl; try reflexivity; try discriminate; intros H1 H2; compare_cases.
Qed.

Lemma feq_fle (a b : float) : feq a b = fle a b && fle b a.
Proof.
  unfold feq, fle, SFeqb, SFleb. rewrite (SFcompare_antisym a b).
  destruct (SFcompare a b) as [[]|]; reflexivity.
Qed.

Lemma flt_fle (a b : float) : flt a b = fle a b && negb (fle b a).
Proof.
  unfold flt, fle, SFltb, SFleb. rewrite (SFcompare_antisym a b).
  destruct (SFcompare a b) as [[]|]; reflexivity.
Qed.

Lemma fle_total (a b : float) :
  is_nan a = false -> is_nan b = false -> fle a b = true \/ fle b a = true.
Proof.
  intros Ha Hb. unfold fle, SFleb. rewrite (SFcompare_antisym a b).
  destruct (SFcompare_defined a b Ha Hb) as [c ->]. destruct c; simpl; auto.
Qed.

Lemma is_nan_fneg (a : float) : is_nan (fneg a) = is_nan a.
Proof. destruct a; reflexivity. Qed.

(** Negation turns the order round. *)
Lemma fle_fneg (a b : float) : fle (fneg a) (fneg b) = fle b a.
Proof.
  unfold fle, SFleb, fneg.
  destruct a as [[]|[]| |[] ? ?], b as [[]|[]| |[] ? ?]; simpl; try reflexivity;
    compare_cases.
Qed.

(** * The filter *)

Lemma filter_loop_spec s1 e1 s2 e2 min_imdb allow_seasons ex_seasons episodes out :
  filter_loop s1 e1 s2 e2 min_imdb allow_seasons ex_seasons episodes out
  = out ++ List.filter (kept s1 e1 s2 e2 min_imdb allow_seasons ex_seasons) episodes.
Proof.
  revert out. induction episodes as [|ep rest IH]; intros out; simpl.
  - rewrite List.app_nil_r. reflexivity.
  - unfold kept at 1.
    destruct (bool_decide (ex_seasons ≠ ∅) && bool_decide (season ep ∈ ex_seasons));
      simpl; [apply IH|].
    destruct (in_range ep s1 e1 s2 e2); simpl; [|apply IH].
    destruct ((fst allow_seasons <=? season ep) && (season ep <=? snd allow_seasons));
      simpl; [|apply IH].
    destruct (features_george_huang ep); simpl; [|apply IH].
    destruct (heavy_finn_munch ep); simpl; [apply IH|].
    destruct (heavy_trial ep); simpl; [apply IH|].
    destruct (rating_too_low ep min_imdb); simpl; [apply IH|].
    rewrite IH, <- List.app_assoc. reflexivity.
Qed.

Lemma filter_episodes_kept episodes s1 e1 s2 e2 min_imdb allow_seasons exclude_seasons :
  filter_episodes episodes (s1, e1, s2, e2) min_imdb allow_seasons exclude_seasons
  = List.filter
      (kept s1 e1 s2 e2 min_imdb allow_seasons (list_to_set (default [] exclude_seasons)))
      episodes.
Proof. unfold filter_episodes. rewrite filter_loop_spec. reflexivity. Qed.

Lemma existsb_eqb_elem_of (x : Z) (l : list Z) :
  existsb (Z.eqb x) l = bool_decide (x ∈ l).
Proof.
  induction l as [|y l IH].
  - symmetry. apply bool_decide_eq_false. apply not_elem_of_nil.
  - cbn [existsb]. rewrite IH. destruct (Z.eqb_spec x y) as [->|Hne].
    + symmetry. apply bool_decide_eq_true. apply list_elem_of_here.
    + apply bool_decide_ext. rewrite elem_of_cons. tauto.
Qed.

(** Membership in the set built from the list of excluded seasons; the
    test that the set is not empty changes nothing. *)
Lemma excluded_test (exclude_seasons : option (list Z)) (ep : Episode) :
  let ex_seasons : gset Z := list_to_set (default [] exclude_seasons) in
  bool_decide (ex_seasons ≠ ∅) && bool_decide (season ep ∈ ex_seasons)
  = season_excluded exclude_seasons ep.
Proof.
  intros ex_seasons. unfold season_excluded. rewrite existsb_eqb_elem_of.
  assert (Hin : season ep ∈ ex_seasons <-> season ep ∈ default [] exclude_seasons)
    by (unfold ex_seasons; apply elem_of_list_to_set).
  rewrite <- (bool_decide_ext _ _ Hin).
  destruct (bool_decide (season ep ∈ ex_seasons)) eqn:E.
  - rewrite andb_true_r. apply bool_decide_eq_true.
    apply bool_decide_eq_true in E. intros Hempty. rewrite Hempty in E.
    exact (not_elem_of_empty _ E).
  - apply andb_false_r.
Qed.

Lemma in_range_within ep s1 e1 s2 e2 :
  in_range ep s1 e1 s2 e2 = within_range (s1, e1, s2, e2) ep.
Proof. reflexivity. Qed.

Lemma rating_test ep min_imdb :
  is_nan min_imdb = false -> rating_is_number ep = true ->
  negb (rating_too_low ep min_imdb) = rating_at_least min_imdb ep.
Proof.
  unfold rating_too_low, rating_at_least, rating_is_number.
  intros Hm Hr. destruct (imdb_rating ep) as [r|]; [|reflexivity].
  apply flt_false_fle; [|exact Hm]. destruct (is_nan r); [discriminate|reflexivity].
Qed.

Lemma kept_passes_all ep s1 e1 s2 e2 min_imdb allow_seasons exclude_seasons :
  is_nan min_imdb = false -> rating_is_number ep = true ->
  kept s1 e1 s2 e2 min_imdb allow_seasons (list_to_set (default [] exclude_seasons)) ep
  = passes_all (s1, e1, s2, e2) min_imdb allow_seasons exclude_seasons ep.
Proof.
  intros Hm Hr. unfold kept, passes_all.
  rewrite (excluded_test exclude_seasons ep), in_range_within, (rating_test ep min_imdb Hm Hr).
  reflexivity.
Qed.

Lemma filter_ext_forallb {A} (f g p : A -> bool) (l : list A) :
  forallb p l = true -> (forall x, p x = true -> f x = g x) ->
  List.filter f l = List.filter g l.
Proof.
  intros Hp Hfg. induction l as [|x l IH]; simpl in *; [reflexivity|].
  apply andb_true_iff in Hp as [Hx Hl].
  rewrite (Hfg x Hx), (IH Hl). reflexivity.
Qed.

Lemma filter_idempotent {A} (f : A -> bool) (l : list A) :
  List.filter f (List.filter f l) = List.filter f l.
Proof.
  induction l as [|x l IH]; simpl; [reflexivity|].
  destruct (f x) eqn:E; simpl; [rewrite E, IH; reflexivity|exact IH].
Qed.

Lemma filter_none {A} (f : A -> bool) (l : list A) :
  (forall x, In x l -> f x = false) -> List.filter f l = [].
Proof.
  induction l as [|x l IH]; simpl; intros H; [reflexivity|].
  rewrite (H x (or_introl eq_refl)). apply IH. intros y Hy. apply H. right. exact Hy.
Qed.

(** C4, as the code has it: on records whose known ratings are numbers
    (none is NaN), and for a minimum that is a number, the filter returns
    exactly the records that pass all seven predicates, in the order of
    the input; a record is in the result exactly when it is in the input
    and passes; when no record passes the result is the empty list. *)
Theorem filter_episodes_seven_predicates (episodes : list Episode)
    (rng : Z * Z * Z * Z) (min_imdb : float) (allow_seasons : Z * Z)
    (exclude_seasons : option (list Z)) :
  is_nan min_imdb = false ->
  forallb rating_is_number episodes = true ->
  let result := filter_episodes episodes rng min_imdb allow_seasons exclude_seasons in
  let passes := passes_all rng min_imdb allow_seasons exclude_seasons in
  result = List.filter passes episodes
  /\ (forall ep, In ep result <-> In ep episodes /\ passes ep = true)
  /\ ((forall ep, In ep episodes -> passes ep = false) -> result = []).
Proof.
  intros Hm Hr result passes.
  assert (Heq : result = List.filter passes episodes).
  { unfold result, passes. destruct rng as [[[s1 e1] s2] e2].
    rewrite filter_episodes_kept.
    apply (filter_ext_forallb _ _ rating_is_number); [exact Hr|].
    intros ep Hep. apply kept_passes_all; assumption. }
  split; [exact Heq|]. rewrite Heq. split.
  - intros ep. apply List.filter_In.
  - apply filter_none.
Qed.

Lemma filter_episodes_seven_predicates_witness :
  filter_episodes sample_episodes (2, 1, 6, 20) MIN_IMDB_RATING MAX_SEASONS_ALLOWED (Some [2])
  = List.filter (passes_all (2, 1, 6, 20) MIN_IMDB_RATING MAX_SEASONS_ALLOWED (Some [2]))
      sample_episodes.
Proof.
  apply (filter_episodes_seven_predicates sample_episodes (2, 1, 6, 20)
           MIN_IMDB_RATING MAX_SEASONS_ALLOWED (Some [2])); reflexivity.
Defined.

(** C6: filtering the result of the filter again, with the same
    parameters, returns the same list. *)
Theorem filter_episodes_idempotent (episodes : list Episode)
    (rng : Z * Z * Z * Z) (min_imdb : float) (allow_seasons : Z * Z)
    (exclude_seasons : option (list Z)) :
  filter_episodes
    (filter_episodes episodes rng min_imdb allow_seasons exclude_seasons)
    rng min_imdb allow_seasons exclude_seasons
  = filter_episodes episodes rng min_imdb allow_seasons exclude_seasons.
Proof.
  destruct rng as [[[s1 e1] s2] e2].
  rewrite !filter_episodes_kept. apply filter_idempotent.
Qed.

Example filter_sample :
  filter_episodes sample_episodes (2, 1, 6, 20) MIN_IMDB_RATING MAX_SEASONS_ALLOWED (Some [])
  = [scourge; repression; wrath].
Proof. vm_compute. reflexivity. Qed.

Example filter_sample_excluding_season_2 :
  filter_episodes sample_episodes (2, 1, 6, 20) MIN_IMDB_RATING MAX_SEASONS_ALLOWED (Some [2])
  = [repression; wrath].
Proof. vm_compute. reflexivity. Qed.

Example filter_sample_minimum_9 :
  filter_episodes sample_episodes (2, 1, 6, 20) f9_0 MAX_SEASONS_ALLOWED None = [].
Proof. vm_compute. reflexivity. Qed.

(** C4 as stated fails on a NaN: the test of the loop is
    [rating < minimum], and a NaN compares false with everything.  A
    record whose rating is NaN, as the normalizer builds it from the cell
    "nan", is kept although its rating is not at least the minimum; and
    with a minimum that is NaN every rated record is kept although none
    passes the seventh predicate. *)
Lemma filter_episodes_nan_counterexample :
  (normalize_row nan_reader plain_repr row_nan_rating = Ok nan_rated
   /\ filter_episodes [nan_rated] (2, 1, 6, 20) MIN_IMDB_RATING MAX_SEASONS_ALLOWED None
      = [nan_rated]
   /\ rating_at_least MIN_IMDB_RATING nan_rated = false
   /\ passes_all (2, 1, 6, 20) MIN_IMDB_RATING MAX_SEASONS_ALLOWED None nan_rated = false)
  /\ (filter_episodes sample_episodes (2, 1, 6, 20) S754_nan MAX_SEASONS_ALLOWED None
      = sample_episodes
      /\ List.filter (passes_all (2, 1, 6, 20) S754_nan MAX_SEASONS_ALLOWED None)
           sample_episodes = []).
Proof. repeat split; vm_compute; reflexivity. Qed.

(** * Sorting by a key *)

Section SortedBy.

Context {A K : Type}.
Variable key : A -> K.
Variable ltb : K -> K -> bool.

Let key_le := key_le key ltb.

Lemma insert_by_Permutation x l : Permutation (insert_by key ltb x l) (x :: l).
Proof.
  induction l as [|y l IH]; simpl; [reflexivity|].
  destruct (ltb (key y) (key x)); [|reflexivity].
  rewrite IH. apply perm_swap.
Qed.

Lemma sorted_by_Permutation l : Permutation (sorted_by key ltb l) l.
Proof.
  induction l as [|x l IH]; simpl; [reflexivity|].
  rewrite insert_by_Permutation, IH. reflexivity.
Qed.

Lemma sorted_by_length l : length (sorted_by key ltb l) = length l.
Proof. apply Permutation_length, sorted_by_Permutation. Qed.

(** Elements on which the order is a total preorder. *)
Variable ok : A -> Prop.
Hypothesis ltb_asym :
  forall a b, ok a -> ok b -> ltb (key a) (key b) = true -> ltb (key b) (key a) = false.
Hypothesis key_le_trans :
  forall a b c, ok a -> ok b -> ok c -> key_le a b -> key_le b c -> key_le a c.

Lemma insert_by_sorted x l :
  ok x -> Forall ok l ->
  StronglySorted key_le l -> StronglySorted key_le (insert_by key ltb x l).
Proof.
  intros Hx Hl Hs. induction Hs as [|y l Hs IH Hy]; simpl.
  - constructor; constructor.
  - inversion Hl as [|? ? Hoky Hokl]; subst.
    destruct (ltb (key y) (key x)) eqn:E.
    + constructor; [apply IH; exact Hokl|].
      apply (Permutation_Forall (Permutation_sym (insert_by_Permutation x l))).
      constructor; [apply ltb_asym; assumption|exact Hy].
    + constructor; [constructor; assumption|].
      constructor; [exact E|].
      rewrite List.Forall_forall in *. intros z Hz.
      apply (key_le_trans x y z); auto.
Qed.

Lemma sorted_by_sorted l :
  Forall ok l -> StronglySorted key_le (sorted_by key ltb l).
Proof.
  induction l as [|x l IH]; simpl; intros Hl; [constructor|].
  inversion Hl; subst.
  apply insert_by_sorted; auto.
  apply (Permutation_Forall (Permutation_sym (sorted_by_Permutation l))). assumption.
Qed.

(** Two sorted arrangements of the same elements are equal when no two
    different elements tie. *)
Lemma sorted_unique l1 l2 :
  (forall a b, In a l1 -> In b l1 -> key_le a b -> key_le b a -> a = b) ->
  Permutation l1 l2 ->
  StronglySorted key_le l1 -> StronglySorted key_le l2 -> l1 = l2.
Proof.
  intros Hanti Hp Hs1. revert l2 Hp.
  induction Hs1 as [|x l1 Hs1 IH Hx]; intros l2 Hp Hs2.
  - apply Permutation_nil in Hp. subst. reflexivity.
  - destruct l2 as [|y l2]; [apply Permutation_sym, Permutation_nil in Hp; discriminate|].
    inversion Hs2 as [|? ? Hs2' Hy]; subst.
    assert (Hxy : x = y).
    { assert (Hin_y : In y (x :: l1))
        by (apply (Permutation_in _ (Permutation_sym Hp)); left; reflexivity).
      assert (Hin_x : In x (y :: l2))
        by (apply (Permutation_in _ Hp); left; reflexivity).
      destruct Hin_y as [Hyx|Hin_y]; [exact Hyx|].
      destruct Hin_x as [Hxy|Hin_x]; [symmetry; exact Hxy|].
      rewrite List.Forall_forall in Hx, Hy.
      apply Hanti; [left; reflexivity|right; exact Hin_y|apply Hx; exact Hin_y|
                    apply Hy; exact Hin_x]. }
    subst y. f_equal. apply IH; [|apply Permutation_cons_inv with x; exact Hp|exact Hs2'].
    intros a b Ha Hb. apply Hanti; right; assumption.
Qed.

(** Stability: the elements that tie with [z] keep their order. *)
Variable tie : A -> A -> bool.
Hypothesis tie_not_below :
  forall x y z, ok x -> ok y -> ok z ->
    tie z x = true -> ltb (key y) (key x) = true -> tie z y = false.

Lemma insert_by_filter_other (p : A -> bool) x l :
  p x = false -> List.filter p (insert_by key ltb x l) = List.filter p l.
Proof.
  intros Hx. induction l as [|y l IH]; simpl; [rewrite Hx; reflexivity|].
  destruct (ltb (key y) (key x)); simpl; [rewrite IH|rewrite Hx]; reflexivity.
Qed.

Lemma insert_by_filter_tie z x l :
  ok z -> ok x -> Forall ok l -> tie z x = true ->
  List.filter (tie z) (insert_by key ltb x l) = x :: List.filter (tie z) l.
Proof.
  intros Hz Hx Hl Ht. induction Hl as [|y l Hy Hl IH]; simpl; [rewrite Ht; reflexivity|].
  destruct (ltb (key y) (key x)) eqn:E; simpl.
  - rewrite (tie_not_below x y z Hx Hy Hz Ht E). exact IH.
  - rewrite Ht. reflexivity.
Qed.

Lemma sorted_by_stable z l :
  ok z -> Forall ok l ->
  List.filter (tie z) (sorted_by key ltb l) = List.filter (tie z) l.
Proof.
  intros Hz Hl. induction Hl as [|x l Hx Hl IH]; simpl; [reflexivity|].
  destruct (tie z x) eqn:Ht.
  - rewrite insert_by_filter_tie; auto; [rewrite IH; reflexivity|].
    apply (Permutation_Forall (Permutation_sym (sorted_by_Permutation l))). exact Hl.
  - rewrite insert_by_filter_other; auto.
Qed.

End SortedBy.

(** Sorting commutes with a change of the records that keeps their keys. *)
Lemma sorted_by_map {A K} (key : A -> K) (ltb : K -> K -> bool) (f : A -> A) l :
  (forall x, key (f x) = key x) ->
  sorted_by key ltb (map f l) = map f (sorted_by key ltb l).
Proof.
  intros Hk. induction l as [|x l IH]; simpl; [reflexivity|].
  rewrite IH. generalize (sorted_by key ltb l). intros s.
  induction s as [|y s IHs]; simpl; [reflexivity|].
  rewrite !Hk. destruct (ltb (key y) (key x)); simpl; [rewrite IHs|]; reflexivity.
Qed.

(** * The order on titles *)

Lemma code_inj (a b : ascii) : code a = code b -> a = b.
Proof.
  unfold code. intros H.
  rewrite <- (ascii_N_embedding a), <- (ascii_N_embedding b), H. reflexivity.
Qed.

Lemma text_compare_antisym (a b : text) :
  text_compare b a = CompOpp (text_compare a b).
Proof.
  revert b. induction a as [|x a IH]; intros [|y b]; simpl; try reflexivity.
  rewrite (N.compare_antisym (code x) (code y)).
  destruct (code x ?= code y)%N; simpl; auto.
Qed.

Lemma text_compare_eq (a b : text) : text_compare a b = Eq <-> a = b.
Proof.
  revert b. induction a as [|x a IH]; intros [|y b]; simpl;
    try (split; (reflexivity || discriminate)).
  destruct (N.compare_spec (code x) (code y)) as [E|E|E].
  - apply code_inj in E as ->. rewrite IH. split; [intros ->; reflexivity|].
    intros [= ->]. reflexivity.
  - split; [discriminate|]. intros [= -> _]. lia.
  - split; [discriminate|]. intros [= -> _]. lia.
Qed.

Lemma text_ltb_leb (a b : text) : text_ltb b a = negb (text_leb a b).
Proof.
  unfold text_ltb, text_leb. rewrite (text_compare_antisym a b).
  destruct (text_compare a b); reflexivity.
Qed.

Lemma text_leb_trans (a b c : text) :
  text_leb a b = true -> text_leb b c = true -> text_leb a c = true.
Proof.
  unfold text_leb. revert b c.
  induction a as [|x a IH]; intros [|y b] [|z c]; simpl; try reflexivity; try discriminate.
  destruct (N.compare_spec (code x) (code y)) as [E1|E1|E1];
    destruct (N.compare_spec (code y) (code z)) as [E2|E2|E2];
    destruct (N.compare_spec (code x) (code z)) as [E3|E3|E3];
    try discriminate; try reflexivity; try lia.
  apply IH.
Qed.

Lemma text_leb_antisym (a b : text) :
  text_leb a b = true -> text_leb b a = true -> a = b.
Proof.
  unfold text_leb. rewrite (text_compare_antisym a b).
  destruct (text_compare a b) eqn:E; simpl; try discriminate.
  intros _ _. apply text_compare_eq. exact E.
Qed.

Lemma text_eqb_eq (a b : text) : text_eqb a b = true <-> a = b.
Proof. unfold text_eqb. apply bool_decide_eq_true. Qed.

(** * The sort key and the ranking order *)

Lemma SFcompare_fneg (a b : float) : SFcompare (fneg a) (fneg b) = SFcompare b a.
Proof.
  unfold fneg.
  destruct a as [[]|[]| |[] ? ?], b as [[]|[]| |[] ? ?]; simpl; try reflexivity;
    compare_cases.
Qed.

Lemma SFcompare_rating_l (e : Episode) (f : float) :
  SFcompare (rating_or_zero (imdb_rating e)) f = SFcompare (rating_as_number e) f.
Proof.
  unfold rating_or_zero, rating_as_number.
  destruct (imdb_rating e) as [[[]|[]| |[] ? ?]|]; reflexivity.
Qed.

Lemma SFcompare_rating_r (e : Episode) (f : float) :
  SFcompare f (rating_or_zero (imdb_rating e)) = SFcompare f (rating_as_number e).
Proof.
  rewrite SFcompare_antisym, SFcompare_rating_l, <- SFcompare_antisym. reflexivity.
Qed.

Lemma is_nan_rating_as_number (e : Episode) :
  rating_is_number e = true -> is_nan (rating_as_number e) = false.
Proof.
  unfold rating_is_number, rating_as_number.
  destruct (imdb_rating e) as [r|]; [|reflexivity].
  destruct (is_nan r); [discriminate|reflexivity].
Qed.

(** On ratings that are numbers, the comparison of the sort keys is the
    ranking order: the key of [y] is not below the key of [x] exactly when
    [x] may stand before [y]. *)
Lemma key_ltb_ranked_le (x y : Episode) :
  rating_is_number x = true -> rating_is_number y = true ->
  negb (key_ltb (sort_key y) (sort_key x)) = ranked_le x y.
Proof.
  intros Hx Hy. unfold key_ltb, sort_key, ranked_le, feq, flt, SFeqb, SFltb. simpl.
  rewrite !SFcompare_fneg, !SFcompare_rating_l, !SFcompare_rating_r.
  rewrite (SFcompare_antisym (rating_as_number x) (rating_as_number y)).
  destruct (SFcompare_defined _ _ (is_nan_rating_as_number x Hx) (is_nan_rating_as_number y Hy))
    as [c ->].
  rewrite text_ltb_leb. destruct c; simpl; try reflexivity.
  apply negb_involutive.
Qed.

Lemma key_le_ranked_le (x y : Episode) :
  rating_is_number x = true -> rating_is_number y = true ->
  key_le sort_key key_ltb x y <-> ranked_le x y = true.
Proof.
  intros Hx Hy. unfold key_le. rewrite <- (key_ltb_ranked_le x y Hx Hy).
  destruct (key_ltb (sort_key y) (sort_key x)); simpl; split; congruence.
Qed.

Lemma text_leb_total (a b : text) : text_leb a b = true \/ text_leb b a = true.
Proof.
  unfold text_leb. rewrite (text_compare_antisym a b).
  destruct (text_compare a b); simpl; auto.
Qed.

(** The ranking order through [<=] on the ratings. *)
Lemma ranked_le_spec (a b : Episode) :
  rating_is_number a = true -> rating_is_number b = true ->
  ranked_le a b = true <->
    fle (rating_as_number b) (rating_as_number a) = true
    /\ (fle (rating_as_number a) (rating_as_number b) = true ->
        text_leb (title a) (title b) = true).
Proof.
  intros Ha Hb. unfold ranked_le, flt, feq, fle, SFltb, SFeqb, SFleb.
  rewrite (SFcompare_antisym (rating_as_number a) (rating_as_number b)).
  destruct (SFcompare_defined _ _ (is_nan_rating_as_number a Ha) (is_nan_rating_as_number b Hb))
    as [c ->].
  destruct c; simpl; split; try tauto; try (intros [? ?]; auto; discriminate);
    try discriminate.
  intros _. split; [reflexivity|discriminate].
Qed.

Lemma ranked_le_total (a b : Episode) :
  rating_is_number a = true -> rating_is_number b = true ->
  ranked_le a b = true \/ ranked_le b a = true.
Proof.
  intros Ha Hb. rewrite (ranked_le_spec a b Ha Hb), (ranked_le_spec b a Hb Ha).
  destruct (fle (rating_as_number a) (rating_as_number b)) eqn:Eab,
           (fle (rating_as_number b) (rating_as_number a)) eqn:Eba.
  - destruct (text_leb_total (title a) (title b)); auto.
  - right. split; [reflexivity|discriminate].
  - left. split; [reflexivity|discriminate].
  - destruct (fle_total _ _ (is_nan_rating_as_number a Ha) (is_nan_rating_as_number b Hb));
      congruence.
Qed.

Lemma ranked_le_trans (a b c : Episode) :
  rating_is_number a = true -> rating_is_number b = true -> rating_is_number c = true ->
  ranked_le a b = true -> ranked_le b c = true -> ranked_le a c = true.
Proof.
  intros Ha Hb Hc.
  rewrite (ranked_le_spec a b Ha Hb), (ranked_le_spec b c Hb Hc), (ranked_le_spec a c Ha Hc).
  intros [Hba Tab] [Hcb Tbc]. split.
  - apply (fle_trans _ _ _ Hcb Hba).
  - intros Hac. apply (text_leb_trans _ (title b)).
    + apply Tab. apply (fle_trans _ _ _ Hac Hcb).
    + apply Tbc. apply (fle_trans _ _ _ Hba Hac).
Qed.

Lemma ranked_le_antisym (a b : Episode) :
  rating_is_number a = true -> rating_is_number b = true ->
  ranked_le a b = true -> ranked_le b a = true -> same_rank a b = true.
Proof.
  intros Ha Hb. rewrite (ranked_le_spec a b Ha Hb), (ranked_le_spec b a Hb Ha).
  intros [Hba Tab] [Hab Tba]. unfold same_rank.
  rewrite feq_fle, Hab, Hba. simpl. apply text_eqb_eq.
  apply text_leb_antisym; auto.
Qed.

Lemma forallb_Forall_ok (l : list Episode) :
  forallb rating_is_number l = true -> Forall (fun e => rating_is_number e = true) l.
Proof. intros H. apply List.Forall_forall. apply forallb_forall. exact H. Qed.

Lemma StronglySorted_impl {A} (R R' : A -> A -> Prop) (ok : A -> Prop) (l : list A) :
  (forall a b, ok a -> ok b -> R a b -> R' a b) ->
  Forall ok l -> StronglySorted R l -> StronglySorted R' l.
Proof.
  intros Himp Hok Hs. induction Hs as [|x l Hs IH Hx]; [constructor|].
  inversion Hok as [|? ? Hokx Hokl]; subst.
  constructor; [apply IH; exact Hokl|].
  rewrite List.Forall_forall in *. intros y Hy. apply Himp; auto.
Qed.

Lemma sort_key_sorted (l : list Episode) :
  forallb rating_is_number l = true ->
  StronglySorted (key_le sort_key key_ltb) (sorted_by sort_key key_ltb l).
Proof.
  intros Hl. apply (sorted_by_sorted sort_key key_ltb (fun e => rating_is_number e = true)).
  - intros a b Ha Hb Hlt.
    destruct (ranked_le_total a b Ha Hb) as [H|H].
    + apply (key_le_ranked_le a b Ha Hb). exact H.
    + rewrite <- (key_ltb_ranked_le b a Hb Ha), Hlt in H. discriminate.
  - intros a b c Ha Hb Hc.
    rewrite (key_le_ranked_le a b Ha Hb), (key_le_ranked_le b c Hb Hc),
      (key_le_ranked_le a c Ha Hc).
    apply ranked_le_trans; assumption.
  - apply forallb_Forall_ok. exact Hl.
Qed.

(** The sorted list of the ranker is in ranking order. *)
Lemma sorted_in_ranking_order (l : list Episode) :
  forallb rating_is_number l = true ->
  StronglySorted (fun a b => ranked_le a b = true) (sorted_by sort_key key_ltb l).
Proof.
  intros Hl.
  apply (StronglySorted_impl (key_le sort_key key_ltb) _ (fun e => rating_is_number e = true)).
  - intros a b Ha Hb. apply (key_le_ranked_le a b Ha Hb).
  - apply (Permutation_Forall (Permutation_sym (sorted_by_Permutation sort_key key_ltb l))).
    apply forallb_Forall_ok. exact Hl.
  - apply sort_key_sorted. exact Hl.
Qed.

Lemma same_rank_ranked_le (a b : Episode) :
  rating_is_number a = true -> rating_is_number b = true ->
  same_rank a b = true -> ranked_le a b = true /\ ranked_le b a = true.
Proof.
  intros Ha Hb. unfold same_rank. rewrite feq_fle, !andb_true_iff, text_eqb_eq.
  intros [[Hab Hba] Ht].
  rewrite (ranked_le_spec a b Ha Hb), (ranked_le_spec b a Hb Ha), Ht.
  assert (Hr : text_leb (title b) (title b) = true).
  { unfold text_leb. rewrite (proj2 (text_compare_eq _ _) eq_refl). reflexivity. }
  auto.
Qed.

(** Records that tie keep the order of the input in the sorted list. *)
Lemma sorted_keeps_ties (z : Episode) (l : list Episode) :
  rating_is_number z = true -> forallb rating_is_number l = true ->
  List.filter (same_rank z) (sorted_by sort_key key_ltb l) = List.filter (same_rank z) l.
Proof.
  intros Hz Hl.
  apply (sorted_by_stable sort_key key_ltb (fun e => rating_is_number e = true) same_rank);
    [|exact Hz|apply forallb_Forall_ok; exact Hl].
  intros x y z' Hx Hy Hz' Hzx Hlt.
  destruct (same_rank z' y) eqn:Hzy; [|reflexivity]. exfalso.
  destruct (same_rank_ranked_le z' x Hz' Hx Hzx) as [_ Hxz].
  destruct (same_rank_ranked_le z' y Hz' Hy Hzy) as [Hzy' _].
  pose proof (ranked_le_trans x z' y Hx Hz' Hy Hxz Hzy') as Hxy.
  rewrite <- (key_ltb_ranked_le x y Hx Hy), Hlt in Hxy. discriminate.
Qed.

Lemma no_ties_spec (l : list Episode) :
  no_ties l = true ->
  forall a b, In a l -> In b l -> same_rank a b = true -> a = b.
Proof.
  unfold no_ties. intros H a b Ha Hb Hs.
  rewrite forallb_forall in H. specialize (H a Ha).
  rewrite forallb_forall in H. specialize (H b Hb).
  rewrite Hs in H. simpl in H. apply bool_decide_eq_true in H. exact H.
Qed.

Lemma forallb_Permutation {A} (f : A -> bool) (l l' : list A) :
  Permutation l l' -> forallb f l = true -> forallb f l' = true.
Proof.
  intros Hp H. apply forallb_forall. intros x Hx.
  rewrite forallb_forall in H. apply H.
  apply (Permutation_in _ (Permutation_sym Hp)). exact Hx.
Qed.

(** Without ties the sorted list does not depend on the order of the
    input. *)
Lemma sorted_by_input_order (l l' : list Episode) :
  forallb rating_is_number l = true -> no_ties l = true -> Permutation l l' ->
  sorted_by sort_key key_ltb l' = sorted_by sort_key key_ltb l.
Proof.
  intros Hl Hn Hp.
  pose proof (forallb_Permutation _ _ _ Hp Hl) as Hl'.
  pose proof (sorted_by_Permutation sort_key key_ltb l) as P.
  pose proof (sorted_by_Permutation sort_key key_ltb l') as P'.
  symmetry. apply (sorted_unique sort_key key_ltb).
  - intros a b Ha Hb Hab Hba.
    apply (Permutation_in _ P) in Ha. apply (Permutation_in _ P) in Hb.
    assert (Hoka : rating_is_number a = true)
      by (rewrite forallb_forall in Hl; auto).
    assert (Hokb : rating_is_number b = true)
      by (rewrite forallb_forall in Hl; auto).
    apply (no_ties_spec l Hn a b Ha Hb).
    apply ranked_le_antisym; auto;
      [apply (key_le_ranked_le a b)|apply (key_le_ranked_le b a)]; auto.
  - rewrite P, P'. exact Hp.
  - apply sort_key_sorted. exact Hl.
  - apply sort_key_sorted. exact Hl'.
Qed.

Lemma take_upto_nonneg {A} (n : Z) (l : list A) :
  0 <= n -> take_upto n l = firstn (Z.to_nat n) l.
Proof.
  intros Hn. unfold take_upto. destruct (Z.leb_spec 0 n); [reflexivity|lia].
Qed.

(** * The ranker *)

Example rank_sample :
  rank_and_select sample_episodes 2 = [scourge; wrath].
Proof. vm_compute. reflexivity. Qed.

Example rank_sample_five :
  rank_and_select sample_episodes 5 = [scourge; wrath; repression].
Proof. vm_compute. reflexivity. Qed.

(** C5, as the code has it: for candidates whose ratings are numbers
    (none is NaN) and a count N >= 1, the ranker returns the first N
    records of the whole list put in ranking order (rating descending,
    equal ratings by title ascending), records with the same rating and
    the same title staying in the order of the input; it returns
    min(N, number of candidates) records, all of them when there are at
    most N; and when no two different candidates have both the same
    rating and the same title, the result is the same for every order of
    the input. *)
Theorem rank_and_select_top_n (candidates : list Episode) (n : Z) :
  1 <= n ->
  forallb rating_is_number candidates = true ->
  let out := rank_and_select candidates n in
  (exists full,
      Permutation full candidates
      /\ StronglySorted (fun a b => ranked_le a b = true) full
      /\ (forall e, In e candidates ->
          List.filter (same_rank e) full = List.filter (same_rank e) candidates)
      /\ out = firstn (Z.to_nat n) full)
  /\ length out = Nat.min (Z.to_nat n) (length candidates)
  /\ (Z.of_nat (length candidates) <= n -> Permutation out candidates)
  /\ (no_ties candidates = true ->
      forall other, Permutation candidates other -> rank_and_select other n = out).
Proof.
  intros Hn Hl out. unfold out, rank_and_select.
  rewrite (take_upto_nonneg n) by lia.
  pose proof (sorted_by_Permutation sort_key key_ltb candidates) as P.
  repeat split.
  - exists (sorted_by sort_key key_ltb candidates).
    repeat split; [exact P|apply sorted_in_ranking_order; exact Hl|].
    intros e He. apply sorted_keeps_ties; [|exact Hl].
    rewrite forallb_forall in Hl. apply Hl. exact He.
  - rewrite List.length_firstn, sorted_by_length. reflexivity.
  - intros Hall. rewrite List.firstn_all2; [exact P|].
    rewrite sorted_by_length. lia.
  - intros Hties other Hp. rewrite (take_upto_nonneg n) by lia.
    rewrite (sorted_by_input_order candidates other Hl Hties Hp). reflexivity.
Qed.

Lemma rank_and_select_top_n_witness :
  let out := rank_and_select sample_episodes 2 in
  (exists full,
      Permutation full sample_episodes
      /\ StronglySorted (fun a b => ranked_le a b = true) full
      /\ (forall e, In e sample_episodes ->
          List.filter (same_rank e) full = List.filter (same_rank e) sample_episodes)
      /\ out = firstn (Z.to_nat 2) full)
  /\ length out = Nat.min (Z.to_nat 2) (length sample_episodes)
  /\ (Z.of_nat (length sample_episodes) <= 2 -> Permutation out sample_episodes)
  /\ (no_ties sample_episodes = true ->
      forall other, Permutation sample_episodes other -> rank_and_select other 2 = out).
Proof.
  apply (rank_and_select_top_n sample_episodes 2); [lia|reflexivity].
Defined.

(** A list that is one ascending run is returned as it is. *)
Lemma sorted_by_ascending_run {A K} (key : A -> K) (ltb : K -> K -> bool) (l : list A) :
  ascending_run key ltb l = true -> sorted_by key ltb l = l.
Proof.
  induction l as [|x l IH]; [reflexivity|].
  destruct l as [|y l']; [reflexivity|].
  intros H. cbn [ascending_run] in H. apply andb_true_iff in H as [Hxy Hrun].
  cbn [sorted_by] in *. rewrite (IH Hrun). cbn [insert_by].
  apply negb_true_iff in Hxy. rewrite Hxy. reflexivity.
Qed.

(** C5 as stated fails in two ways.  Two candidates with the same rating
    and the same title come out in the order they came in, so the result
    follows the order of the input.  And a rating that is NaN is a known
    rating: its key compares false with every key, the list below is one
    ascending run for the sort, which leaves it as it is, and the first
    two records do not include the record with the highest rating. *)
Lemma rank_and_select_input_order_counterexample :
  (Permutation [scourge; scourge_again] [scourge_again; scourge]
   /\ forallb rating_known [scourge; scourge_again] = true
   /\ rank_and_select [scourge; scourge_again] 2 = [scourge; scourge_again]
   /\ rank_and_select [scourge_again; scourge] 2 = [scourge_again; scourge]
   /\ rank_and_select [scourge; scourge_again] 2
      <> rank_and_select [scourge_again; scourge] 2)
  /\ (forallb rating_known [scourge; nan_rated; nine_rated] = true
      /\ ascending_run sort_key key_ltb [scourge; nan_rated; nine_rated] = true
      /\ rank_and_select [scourge; nan_rated; nine_rated] 2 = [scourge; nan_rated]
      /\ flt (rating_as_number scourge) (rating_as_number nine_rated) = true).
Proof.
  split.
  - split; [apply perm_swap|].
    split; [reflexivity|].
    split; [vm_compute; reflexivity|].
    split; [vm_compute; reflexivity|].
    vm_compute. intros H. discriminate H.
  - repeat split; vm_compute; reflexivity.
Qed.

Lemma take_upto_prefix {A} (n : Z) (l : list A) :
  exists rest, l = take_upto n l ++ rest.
Proof.
  unfold take_upto. destruct (0 <=? n).
  - exists (skipn (Z.to_nat n) l). symmetry. apply List.firstn_skipn.
  - exists (skipn (length l - Z.to_nat (- n)) l). symmetry. apply List.firstn_skipn.
Qed.

Lemma take_upto_map {A B} (f : A -> B) (n : Z) (l : list A) :
  take_upto n (map f l) = map f (take_upto n l).
Proof.
  unfold take_upto. rewrite List.length_map.
  destruct (0 <=? n); apply List.firstn_map.
Qed.

Lemma sort_key_unknown_as_zero (e : Episode) :
  sort_key (with_unknown_as_zero e) = sort_key e.
Proof.
  unfold sort_key, with_unknown_as_zero, rating_as_number, rating_or_zero. simpl.
  destruct (imdb_rating e); reflexivity.
Qed.

Lemma StronglySorted_middle {A} (R : A -> A -> Prop) (l1 l2 : list A) (x y : A) :
  StronglySorted R (l1 ++ x :: l2) -> In y l2 -> R x y.
Proof.
  induction l1 as [|z l1 IH]; simpl; intros Hs Hy.
  - inversion Hs as [|? ? _ Hx]; subst.
    rewrite List.Forall_forall in Hx. apply Hx. exact Hy.
  - inversion Hs; subst. apply IH; assumption.
Qed.

(** C9, as the code has it: for every candidate list whose known ratings
    are numbers (none is NaN) the ranker returns a list in which a record
    with no rating is placed where it would be with the rating 0.0; so no
    record with a known rating above 0 stands after it, while against a
    record with the known rating 0 the titles decide; and with a count
    that covers the list every candidate is in the result. *)
Theorem rank_and_select_unknown_as_zero (candidates : list Episode) (n : Z) :
  forallb rating_is_number candidates = true ->
  let out := rank_and_select candidates n in
  rank_and_select (map with_unknown_as_zero candidates) n = map with_unknown_as_zero out
  /\ (forall before u after k r,
        out = before ++ u :: after ->
        imdb_rating u = None -> In k after -> imdb_rating k = Some r ->
        flt fzero r = false)
  /\ (forall before u after k,
        out = before ++ u :: after ->
        imdb_rating u = None -> In k after -> imdb_rating k = Some fzero ->
        text_leb (title u) (title k) = true)
  /\ (Z.of_nat (length candidates) <= n -> Permutation out candidates).
Proof.
  intros Hl out.
  assert (Hord : forall before u after k,
             out = before ++ u :: after -> In k after -> ranked_le u k = true).
  { intros before u after k Hout Hk.
    destruct (take_upto_prefix n (sorted_by sort_key key_ltb candidates)) as [rest Hrest].
    fold (rank_and_select candidates n) in Hrest. fold out in Hrest.
    pose proof (sorted_in_ranking_order candidates Hl) as Hs.
    rewrite Hrest, Hout, <- List.app_assoc in Hs. simpl in Hs.
    apply (StronglySorted_middle _ _ _ _ _ Hs).
    apply List.in_or_app. left. exact Hk. }
  repeat split.
  - unfold out, rank_and_select.
    rewrite (sorted_by_map sort_key key_ltb with_unknown_as_zero candidates
               sort_key_unknown_as_zero).
    apply take_upto_map.
  - intros before u after k r Hout Hu Hk Hr.
    pose proof (Hord before u after k Hout Hk) as H.
    unfold ranked_le, rating_as_number in H. rewrite Hu, Hr in H.
    unfold flt, feq, SFltb, SFeqb in *.
    rewrite (SFcompare_antisym r fzero) in H |- *.
    destruct (SFcompare r fzero) as [[]|]; simpl in *; congruence.
  - intros before u after k Hout Hu Hk Hr.
    pose proof (Hord before u after k Hout Hk) as H.
    unfold ranked_le, rating_as_number in H. rewrite Hu, Hr in H.
    simpl in H. exact H.
  - intros Hall. unfold out, rank_and_select.
    rewrite take_upto_nonneg by lia. rewrite List.firstn_all2.
    + apply sorted_by_Permutation.
    + rewrite sorted_by_length. lia.
Qed.

Lemma rank_and_select_unknown_as_zero_witness :
  rank_and_select (map with_unknown_as_zero [unrated; scourge; zero_rated]) 3
  = map with_unknown_as_zero (rank_and_select [unrated; scourge; zero_rated] 3).
Proof.
  apply (rank_and_select_unknown_as_zero [unrated; scourge; zero_rated] 3). reflexivity.
Defined.

(** C9 as stated fails in two ways.  At the rating 0 the record with no
    rating stands before the record whose rating 0.0 is known and lies in
    [0,10], as its title comes first.  And next to a rating that is NaN,
    whose key compares false with every key, the list below is one
    ascending run for the sort, which leaves it as it is: the record with
    no rating stays before the record rated 9.0. *)
Lemma rank_and_select_unknown_counterexample :
  (imdb_rating unrated = None
   /\ imdb_rating zero_rated = Some fzero
   /\ fle fzero fzero = true /\ fle fzero f10_0 = true
   /\ rank_and_select [zero_rated; unrated] 3 = [unrated; zero_rated])
  /\ (ascending_run sort_key key_ltb [unrated; nan_rated; nine_rated] = true
      /\ rank_and_select [unrated; nan_rated; nine_rated] 3
         = [unrated; nan_rated; nine_rated]
      /\ imdb_rating nine_rated = Some f9_0
      /\ flt fzero f9_0 = true /\ fle f9_0 f10_0 = true).
Proof. repeat split; vm_compute; reflexivity. Qed.

(** * Detail lookup *)

Lemma filter_head_find {A} (f : A -> bool) (l : list A) :
  List.find f l = head (List.filter f l).
Proof.
  induction l as [|x l IH]; simpl; [reflexivity|].
  destruct (f x); [reflexivity|exact IH].
Qed.

Lemma details_mode_find (str_strip str_lower : text -> text)
    (str_split : text -> list text) (repr_float : float -> text)
    (episodes : list Episode) (details : text) :
  Generic.details_mode str_strip str_lower str_split repr_float episodes details =
    match List.find (title_matches str_lower (str_strip details)) episodes with
    | Some e =>
        match Generic.details_expand str_strip str_split repr_float e with
        | Ok s => Exit 0 [s]
        | Err ex => Uncaught ex []
        end
    | None => Exit 1 [not_found_message (str_strip details)]
    end.
Proof.
  unfold Generic.details_mode. rewrite filter_head_find.
  change (fun e => text_eqb (str_lower (title e)) (str_lower (str_strip details)))
    with (title_matches str_lower (str_strip details)).
  destruct (List.filter (title_matches str_lower (str_strip details)) episodes);
    reflexivity.
Qed.

(** C8: for the string methods of the runtime, whatever they do on a
    string: in the detail-lookup mode the program takes the first record
    whose title equals the trimmed query once both are in lower case, and
    prints its expansion; it reports "not found" only when there is no
    such record, so a query that differs from a title only in letter case
    is found. *)
Theorem detail_lookup_ignores_case
    (str_strip str_upper str_lower : text -> text) (str_split : text -> list text)
    (str_isdigit : text -> bool) (int_of_text : text -> option Z)
    (repr_float : float -> text)
    (episodes : list Episode) (args : Args) (details : text) :
  arg_details args = Some details -> details <> [] ->
  let query := str_strip details in
  let run :=
    Generic.main_loaded str_strip str_upper str_lower str_split str_isdigit
      int_of_text repr_float episodes args in
  run =
    match List.find (title_matches str_lower query) episodes with
    | Some e =>
        match Generic.details_expand str_strip str_split repr_float e with
        | Ok s => Exit 0 [s]
        | Err ex => Uncaught ex []
        end
    | None => Exit 1 [not_found_message query]
    end
  /\ (forall e, In e episodes -> str_lower (title e) = str_lower query ->
      run <> Exit 1 [not_found_message query]).
Proof.
  intros Ha Hd query run.
  assert (Hmain : run = Generic.details_mode str_strip str_lower str_split
                          repr_float episodes details).
  { unfold run, Generic.main_loaded. rewrite Ha.
    destruct details; [contradiction|reflexivity]. }
  rewrite Hmain, details_mode_find. fold query. split; [reflexivity|].
  intros e He Hlow.
  destruct (List.find (title_matches str_lower query) episodes) as [e'|] eqn:Hf.
  - destruct (Generic.details_expand str_strip str_split repr_float e'); discriminate.
  - exfalso. apply (List.find_none _ _ Hf) in He.
    unfold title_matches in He. rewrite Hlow in He.
    assert (Ht : text_eqb (str_lower query) (str_lower query) = true)
      by (apply text_eqb_eq; reflexivity).
    congruence.
Qed.

Lemma detail_lookup_ignores_case_witness :
  main_loaded plain_repr sample_episodes lookup_args
  = match details_expand plain_repr repression with
    | Ok s => Exit 0 [s]
    | Err ex => Uncaught ex []
    end.
Proof.
  apply (detail_lookup_ignores_case strip upper lower split_ws isdigit parse_int
           plain_repr sample_episodes lookup_args (str " rEPRESSION "));
    [reflexivity|discriminate].
Defined.

(** * The record normalizer *)

Example normalize_sample_rows float_of_text repr_float :
  map (normalize_row float_of_text repr_float) SAMPLE_EPISODES
  = [Ok scourge; Ok repression; Ok wrath].
Proof. vm_compute. reflexivity. Qed.

Lemma py_int_cell (int_of_text : text -> option Z) (v : pyval) (z : Z) :
  cell_integer int_of_text v = Some z ->
  Generic.py_int int_of_text (py_or v (PInt 0)) = Ok z.
Proof.
  destruct v as [|b|n|f|s]; simpl; try discriminate.
  - intros [= <-]. reflexivity.
  - intros [= <-]. unfold py_or. simpl. destruct (Z.eqb_spec n 0) as [->|]; reflexivity.
  - destruct s as [|c s]; [intros [= <-]; reflexivity|].
    unfold py_or. simpl. unfold Generic.py_int_text. intros ->. reflexivity.
Qed.

(** C1, as the code has it, for the string methods, the integer reader
    and the float reader of the runtime, whatever they do: when the
    season cell and the episode cell of a row are absent, empty, or read
    as integers, the normalizer returns a record and does not raise; the
    field is 0 for an absent or empty cell and the integer read for the
    others, so it is negative exactly when the cell holds a negative
    integer. *)
Theorem normalize_row_season_episode
    (str_strip str_lower : text -> text) (int_of_text : text -> option Z)
    (float_of_text : text -> option float) (repr_float : float -> text)
    (r : gmap string pyval) (zs ze : Z) :
  cell_integer int_of_text (get r "season") = Some zs ->
  cell_integer int_of_text (get r "episode") = Some ze ->
  exists ep,
    Generic.normalize_row str_strip str_lower int_of_text float_of_text repr_float r
    = Ok ep
    /\ season ep = zs /\ episode ep = ze
    /\ (get r "season" = PNone \/ get r "season" = PStr [] -> season ep = 0)
    /\ (get r "episode" = PNone \/ get r "episode" = PStr [] -> episode ep = 0).
Proof.
  intros Hs He. unfold Generic.normalize_row.
  rewrite (py_int_cell _ _ _ Hs), (py_int_cell _ _ _ He). simpl.
  eexists. split; [reflexivity|]. simpl.
  split; [reflexivity|]. split; [reflexivity|]. split.
  - intros [H|H]; rewrite H in Hs; simpl in Hs; congruence.
  - intros [H|H]; rewrite H in He; simpl in He; congruence.
Qed.

Lemma normalize_row_season_episode_witness :
  exists ep,
    normalize_row no_float plain_repr row_missing_numbers = Ok ep
    /\ season ep = 0 /\ episode ep = 0
    /\ (get row_missing_numbers "season" = PNone
        \/ get row_missing_numbers "season" = PStr [] -> season ep = 0)
    /\ (get row_missing_numbers "episode" = PNone
        \/ get row_missing_numbers "episode" = PStr [] -> episode ep = 0).
Proof.
  apply (normalize_row_season_episode strip lower parse_int no_float plain_repr
           row_missing_numbers 0 0);
    vm_compute; reflexivity.
Defined.

(** C1 as stated fails: a season cell that holds a negative integer gives
    a negative season, and a season cell that does not read as an integer
    makes the normalizer raise [ValueError]. *)
Lemma normalize_row_counterexample :
  (exists ep,
      normalize_row no_float plain_repr row_negative_season = Ok ep /\ season ep < 0)
  /\ normalize_row no_float plain_repr row_unreadable_season
     = Err (ValueError (str "invalid literal for int() with base 10")).
Proof.
  split.
  - eexists. split; [vm_compute; reflexivity|]. simpl. lia.
  - vm_compute. reflexivity.
Qed.

(** * The detail expander *)

Example expand_one_word :
  expand_sentence_to_bullets (str "Gripping") 4
  = Ok [str "Gripping"; str "Gripping"; str "Gripping"; str "Gripping"].
Proof. reflexivity. Qed.

Example expand_sample_plot :
  plot_bullets repression
  = Ok [str "A rape case hinges on repressed childhood memories";
        str "raising doubts about truth"; str "trauma"; str "memory."].
Proof. vm_compute. reflexivity. Qed.

Example expand_sample_reason :
  reason_bullets wrath
  = Ok [str "High emotional"; str "stakes, strong"; str "profiling, and";
        str "relentless momentum"].
Proof. vm_compute. reflexivity. Qed.

Example expand_six_words :
  expand_sentence_to_bullets (str "one two three four five six") 4
  = Ok [str "one"; str "two"; str "three"; str "four"].
Proof. vm_compute. reflexivity. Qed.

Example expand_empty :
  expand_sentence_to_bullets [] 4 = Ok [no_detail; no_detail; no_detail; no_detail].
Proof. reflexivity. Qed.

(** The lemmas of this part are about the expander run with the string
    methods of this file, which are those of the runtime on ASCII text. *)

(** ** A field of white space only *)

Lemma space_not_letter_a c : is_space c = true -> char_eqb "a" c = false.
Proof. destruct c as [[] [] [] [] [] [] [] []]; (reflexivity || discriminate). Qed.

Lemma space_not_comma c : is_space c = true -> char_eqb "," c = false.
Proof. destruct c as [[] [] [] [] [] [] [] []]; (reflexivity || discriminate). Qed.

Lemma replace_blank (new s : text) :
  forallb is_space s = true -> replace (str " and ") new s = s.
Proof.
  unfold replace. induction s as [|c s IH]; simpl; [reflexivity|].
  intros H. apply andb_true_iff in H as [Hc Hs].
  change (str " and ") with (" "%char :: "a"%char :: str "nd ").
  cbn [startswith].
  destruct s as [|d s'].
  - rewrite andb_false_r. reflexivity.
  - simpl in Hs. apply andb_true_iff in Hs as [Hd Hs'].
    rewrite (space_not_letter_a d Hd). simpl. rewrite andb_false_r.
    f_equal. apply IH. simpl. rewrite Hd, Hs'. reflexivity.
Qed.

Lemma blank_no_comma s : forallb is_space s = true -> contains_char "," s = false.
Proof.
  induction s as [|c s IH]; simpl; [reflexivity|].
  intros H. apply andb_true_iff in H as [Hc Hs].
  rewrite (space_not_comma c Hc), (IH Hs). reflexivity.
Qed.

Lemma strip_blank s : forallb is_space s = true -> strip s = [].
Proof. intros H. unfold strip. rewrite (lstrip_blank s H). reflexivity. Qed.

Lemma split_ws_blank s : forallb is_space s = true -> split_ws s = [].
Proof.
  unfold split_ws. induction s as [|c s IH]; simpl; [reflexivity|].
  intros H. apply andb_true_iff in H as [-> Hs]. auto.
Qed.

Lemma expand_blank_raises (s : text) :
  s <> [] -> forallb is_space s = true ->
  expand_sentence_to_bullets s 4 = Err (IndexError (str "list index out of range")).
Proof.
  intros Hne Hs. unfold expand_sentence_to_bullets, Generic.expand_sentence_to_bullets.
  destruct s as [|c s']; [contradiction|].
  rewrite (replace_blank _ _ Hs), (split_on_no_sep _ _ (blank_no_comma _ Hs)).
  cbn [map]. rewrite (strip_blank _ Hs), (split_ws_blank _ Hs). reflexivity.
Qed.

(** C2 fails on the code for a field of white space only: such a field is
    a non-empty string, it yields no word and no chunk, and the padding
    loop reads the last element of an empty list. *)
Theorem details_expand_blank_field_raises (repr_float : float -> text) (ep : Episode) :
  one_sentence_plot ep <> [] ->
  forallb is_space (one_sentence_plot ep) = true ->
  details_expand repr_float ep = Err (IndexError (str "list index out of range")).
Proof.
  intros Hne Hs. unfold details_expand, Generic.details_expand, Generic.plot_bullets.
  change (Generic.expand_sentence_to_bullets strip split_ws)
    with expand_sentence_to_bullets.
  rewrite (expand_blank_raises _ Hne Hs). reflexivity.
Qed.

Lemma details_expand_blank_field_raises_witness :
  details_expand plain_repr blank_plot = Err (IndexError (str "list index out of range")).
Proof.
  apply (details_expand_blank_field_raises plain_repr blank_plot);
    [discriminate|reflexivity].
Defined.

(** ** A field with at least one word *)

Lemma has_word_app (a b : text) : has_word (a ++ b) = has_word a || has_word b.
Proof. apply existsb_app. Qed.

Lemma has_word_rev (s : text) : has_word (rev s) = has_word s.
Proof.
  induction s as [|c s IH]; simpl; [reflexivity|].
  rewrite has_word_app, IH. simpl. rewrite orb_false_r. apply orb_comm.
Qed.

Lemma has_word_lstrip (s : text) : has_word (lstrip s) = has_word s.
Proof.
  induction s as [|c s IH]; [reflexivity|].
  cbn [lstrip]. destruct (is_space c) eqn:Ec; [|reflexivity].
  rewrite IH. simpl. rewrite Ec. reflexivity.
Qed.

Lemma has_word_strip (s : text) : has_word (strip s) = has_word s.
Proof.
  unfold strip, rstrip.
  rewrite has_word_rev, has_word_lstrip, has_word_rev, has_word_lstrip. reflexivity.
Qed.

Lemma has_word_nonempty (s : text) : has_word s = true -> s <> [].
Proof. destruct s; [discriminate|discriminate]. Qed.

(** Every word that [split] finds has a character that is not white
    space. *)
Lemma split_ws_from_words (cur s : text) :
  forallb (fun c => negb (is_space c)) cur = true ->
  Forall (fun w => has_word w = true) (split_ws_from cur s).
Proof.
  revert cur. induction s as [|c s IH]; intros cur Hcur; simpl.
  - destruct cur as [|d cur']; [constructor|].
    constructor; [|constructor].
    rewrite has_word_rev. simpl. simpl in Hcur.
    apply andb_true_iff in Hcur as [-> _]. reflexivity.
  - destruct (is_space c) eqn:Ec.
    + destruct cur as [|d cur']; [apply IH; reflexivity|].
      constructor; [|apply IH; reflexivity].
      rewrite has_word_rev. simpl. simpl in Hcur.
      apply andb_true_iff in Hcur as [-> _]. reflexivity.
    + apply IH. simpl. rewrite Ec, Hcur. reflexivity.
Qed.

Lemma split_ws_from_not_nil (cur s : text) :
  cur <> [] \/ has_word s = true -> split_ws_from cur s <> [].
Proof.
  revert cur. induction s as [|c s IH]; intros cur H; simpl.
  - destruct H as [H|H]; [|discriminate]. destruct cur; [contradiction|discriminate].
  - destruct (is_space c) eqn:Ec.
    + destruct cur as [|d cur']; [|discriminate].
      apply IH. destruct H as [H|H]; [contradiction|].
      right. simpl in H. rewrite Ec in H. exact H.
    + apply IH. left. discriminate.
Qed.

Lemma split_ws_words (s : text) :
  Forall (fun w => has_word w = true) (split_ws s).
Proof. apply split_ws_from_words. reflexivity. Qed.

Lemma split_ws_not_nil (s : text) : has_word s = true -> split_ws s <> [].
Proof. intros H. apply split_ws_from_not_nil. right. exact H. Qed.

Lemma join_has_word (sep : text) (l : list text) :
  Forall (fun w => has_word w = true) l -> l <> [] -> has_word (join sep l) = true.
Proof.
  intros Hl Hne. destruct Hl as [|p ps Hp Hps]; [contradiction|].
  simpl. destruct ps; [exact Hp|]. rewrite has_word_app, Hp. reflexivity.
Qed.

Lemma slice_Forall {A} (P : A -> Prop) (a b : nat) (l : list A) :
  Forall P l -> Forall P (slice a b l).
Proof. intros H. unfold slice. apply Forall_take, Forall_drop, H. Qed.

(** A chunk that is not empty gives a bullet that is not empty. *)
Lemma chunk_bullet (words : list text) (a b : nat) :
  Forall (fun w => has_word w = true) words ->
  join (str " ") (slice a b words) <> [] ->
  strip (join (str " ") (slice a b words)) <> [].
Proof.
  intros Hw Hne. apply has_word_nonempty. rewrite has_word_strip.
  apply join_has_word; [apply slice_Forall; exact Hw|].
  intros Hnil. rewrite Hnil in Hne. apply Hne. reflexivity.
Qed.

Lemma chunk_loop_spec (words : list text) (approx : nat) (indices : list nat)
    (bullets : list text) :
  Forall (fun w => has_word w = true) words ->
  exists extra,
    Generic.chunk_loop strip words approx indices bullets = bullets ++ extra
    /\ Forall (fun b => b <> []) extra
    /\ (length extra <= length indices)%nat.
Proof.
  intros Hw. revert bullets.
  induction indices as [|i rest IH]; intros bullets; simpl.
  - exists []. rewrite List.app_nil_r. repeat split; [constructor|simpl; lia].
  - destruct (join (str " ") (slice (i * approx) ((i + 1) * approx) words))
      as [|c chunk] eqn:Ec.
    + destruct (IH bullets) as (extra & -> & Hex & Hlen).
      exists extra. repeat split; [exact Hex|lia].
    + destruct (IH (bullets ++ [strip (c :: chunk)])) as (extra & -> & Hex & Hlen).
      exists (strip (c :: chunk) :: extra).
      rewrite <- List.app_assoc. repeat split; [|simpl; lia].
      constructor; [|exact Hex].
      rewrite <- Ec. apply chunk_bullet; [exact Hw|]. rewrite Ec. discriminate.
Qed.

(** With at least one word the first chunk is not empty, so the loop
    leaves at least one bullet. *)
Lemma chunk_loop_not_nil (words : list text) (approx : nat) (rest : list nat) :
  Forall (fun w => has_word w = true) words -> words <> [] -> (1 <= approx)%nat ->
  Generic.chunk_loop strip words approx (O :: rest) [] <> [].
Proof.
  intros Hw Hne Ha. cbn [Generic.chunk_loop].
  assert (Hc : join (str " ") (slice (0 * approx) ((0 + 1) * approx) words) <> []).
  { apply has_word_nonempty, join_has_word; [apply slice_Forall; exact Hw|].
    unfold slice. simpl. rewrite Nat.add_0_r, Nat.sub_0_r, drop_0.
    destruct words as [|w ws]; [contradiction|].
    destruct approx; [lia|discriminate]. }
  destruct (join (str " ") (slice (0 * approx) ((0 + 1) * approx) words)) as [|c chunk];
    [contradiction|].
  destruct (chunk_loop_spec words approx rest ([] ++ [strip (c :: chunk)]) Hw)
    as (extra & He & _).
  rewrite He. discriminate.
Qed.

(** The padding loop on a list that is not empty repeats its last bullet. *)
Lemma pad_loop_ok (rounds : nat) (bullets : list text) :
  bullets <> [] ->
  exists b, last bullets = Some b
    /\ pad_loop rounds bullets = Ok (bullets ++ repeat b rounds).
Proof.
  revert bullets. induction rounds as [|k IH]; intros bullets Hne.
  - destruct (proj2 (last_is_Some bullets) Hne) as [b Hb].
    exists b. simpl. rewrite List.app_nil_r. auto.
  - destruct (proj2 (last_is_Some bullets) Hne) as [b Hb].
    exists b. split; [exact Hb|]. simpl. unfold last_item. rewrite Hb. simpl.
    destruct (IH (bullets ++ [b])) as (b' & Hb' & ->).
    { destruct bullets; discriminate. }
    rewrite last_snoc in Hb'. injection Hb' as <-.
    rewrite <- List.app_assoc. reflexivity.
Qed.

Lemma repeat_Forall {A} (P : A -> Prop) (x : A) (n : nat) :
  P x -> Forall P (repeat x n).
Proof. intros H. induction n; simpl; constructor; auto. Qed.

(** For a field with at least one character that is not white space the
    expander returns exactly 4 bullets, none of them empty. *)
Lemma expand_four_bullets (sentence : text) :
  has_word sentence = true ->
  exists bullets,
    expand_sentence_to_bullets sentence 4 = Ok bullets
    /\ length bullets = 4%nat
    /\ Forall (fun b => b <> []) bullets.
Proof.
  intros Hs. unfold expand_sentence_to_bullets, Generic.expand_sentence_to_bullets.
  destruct sentence as [|c0 s0] eqn:Esent; [discriminate|]. rewrite <- Esent in *.
  set (parts := List.filter (fun p => nonempty p)
                  (map strip (split_on "," (replace (str " and ") (str ", ") sentence)))).
  destruct (Nat.ltb_spec (length parts) 4) as [Hlt|Hge].
  - pose proof (split_ws_words sentence) as Hw.
    pose proof (split_ws_not_nil sentence Hs) as Hne.
    set (words := split_ws sentence) in *.
    set (approx := Nat.max 1 (length words / 4)).
    assert (Ha : (1 <= approx)%nat) by (unfold approx; lia).
    change (seq 0 4) with (O :: seq 1 3).
    pose proof (chunk_loop_not_nil words approx (seq 1 3) Hw Hne Ha) as Hb.
    destruct (chunk_loop_spec words approx (O :: seq 1 3) [] Hw) as (extra & He & Hex & Hlen).
    simpl List.app in He. rewrite He in *. simpl in Hlen.
    destruct (pad_loop_ok (4 - length extra) extra Hb) as (b & Hlast & ->).
    simpl. eexists. split; [reflexivity|].
    assert (Hbne : b <> []).
    { apply last_Some_elem_of in Hlast. rewrite List.Forall_forall in Hex.
      apply Hex. apply list_elem_of_In. exact Hlast. }
    split.
    + rewrite List.length_firstn, List.length_app, List.repeat_length. lia.
    + apply Forall_take. apply Forall_app. split; [exact Hex|].
      apply repeat_Forall. exact Hbne.
  - eexists. split; [reflexivity|]. split.
    + rewrite List.length_firstn. lia.
    + apply Forall_take. apply List.Forall_forall. intros p Hp.
      unfold parts in Hp. apply List.filter_In in Hp as [_ Hp].
      destruct p; [discriminate|discriminate].
Qed.

(** A record whose two free-text fields are ASCII text and each hold a
    word gets 4 plot bullets and 4 reason bullets, none empty. *)
Lemma details_bullets_four (ep : Episode) :
  is_ascii (one_sentence_plot ep) = true ->
  is_ascii (one_sentence_reason ep) = true ->
  has_word (one_sentence_plot ep) = true ->
  has_word (one_sentence_reason ep) = true ->
  exists plot reason,
    plot_bullets ep = Ok plot /\ reason_bullets ep = Ok reason
    /\ length plot = 4%nat /\ length reason = 4%nat
    /\ Forall (fun b => b <> []) plot /\ Forall (fun b => b <> []) reason.
Proof.
  intros _ _ Hp Hr. unfold plot_bullets, reason_bullets, Generic.plot_bullets,
    Generic.reason_bullets.
  change (Generic.expand_sentence_to_bullets strip split_ws)
    with expand_sentence_to_bullets.
  destruct (expand_four_bullets _ Hp) as (plot & H1 & H2 & H3).
  destruct (expand_four_bullets _ Hr) as (reason & H4 & H5 & H6).
  exists plot, reason. auto 10.
Qed.

(** * Runs of the program *)

Example exclude_list_example :
  exclude_list (str "2, 6,x,,12 ") = Ok [2; 6; 12].
Proof. reflexivity. Qed.

(** A piece with a separator character (FS, code 28) before its digits
    passes the digit test once trimmed, and [int] refuses the piece. *)
Example exclude_list_raises :
  exclude_list (ascii_of_N 28 :: str "2")
  = Err (ValueError (str "invalid literal for int() with base 10")).
Proof. reflexivity. Qed.

Example main_bad_exclusion :
  main_loaded plain_repr sample_episodes
    {| arg_range := Some (str "S2E1>S6E20"); arg_num := 2; arg_details := None;
       arg_exclude_seasons := ascii_of_N 28 :: str "2" |}
  = Uncaught (ValueError (str "invalid literal for int() with base 10")) [].
Proof. vm_compute. reflexivity. Qed.

Example main_top_two :
  main_loaded plain_repr sample_episodes (run_args "S2E1>S6E20" 2 "")
  = Exit 0 [format_episode plain_repr scourge; str "---";
            format_episode plain_repr wrath; str "---"].
Proof. vm_compute. reflexivity. Qed.

Example main_excluding_season_2 :
  main_loaded plain_repr sample_episodes (run_args "S2E1>S6E20" 2 "2")
  = Exit 0 [format_episode plain_repr wrath; str "---";
            format_episode plain_repr repression; str "---"].
Proof. vm_compute. reflexivity. Qed.

Example main_no_match :
  main_loaded plain_repr sample_episodes (run_args "S7E1>S9E20" 2 "")
  = Exit 0 [no_match_message].
Proof. vm_compute. reflexivity. Qed.

Example main_bad_range :
  main_loaded plain_repr sample_episodes (run_args "S6E1>S3E1" 2 "")
  = Uncaught (ArgumentTypeError (format_message (str "S6E1>S3E1"))
                (ValueError order_message)) [].
Proof. vm_compute. reflexivity. Qed.

Example main_details_not_found :
  main_loaded plain_repr sample_episodes
    {| arg_range := None; arg_num := 3; arg_details := Some (str "Loss");
       arg_exclude_seasons := [] |}
  = Exit 1 [not_found_message (str "Loss")].
Proof. vm_compute. reflexivity. Qed.

Example main_details_blank_plot :
  main_loaded plain_repr [blank_plot]
    {| arg_range := None; arg_num := 3; arg_details := Some (str "mother");
       arg_exclude_seasons := [] |}
  = Uncaught (IndexError (str "list index out of range")) [].
Proof. vm_compute. reflexivity. Qed.


(** * Printing and reading integers *)

Lemma code_ascii_of_N (n : N) : (n < 256)%N -> code (ascii_of_N n) = n.
Proof. intros H. unfold code. apply N_ascii_embedding. exact H. Qed.

Lemma digit_char (d : Z) :
  0 <= d < 10 ->
  let c := ascii_of_N (Z.to_N d + 48) in
  is_digit c = true /\ digit_value c = d.
Proof.
  intros Hd c. unfold is_digit, digit_value, c.
  rewrite code_ascii_of_N by lia. split.
  - apply andb_true_iff. split; apply N.leb_le; lia.
  - lia.
Qed.

(** Reading the digits that [digits_of_pos] writes in front of [rest]
    shifts the number read so far and adds [p]. *)
Lemma parse_digits_of_pos (fuel : nat) (p : Z) (rest : text) :
  (0 < fuel)%nat -> 0 <= p < 2 ^ Z.of_nat fuel ->
  exists n, forall a b,
    parse_digits a b (digits_of_pos fuel p rest) = parse_digits (a * 10 ^ n + p) true rest
    /\ 0 <= n.
Proof.
  revert p rest. induction fuel as [|k IH]; intros p rest Hf Hp; [lia|].
  cbn [digits_of_pos].
  assert (Hm : 0 <= p mod 10 < 10) by (apply Z.mod_pos_bound; lia).
  destruct (digit_char (p mod 10) Hm) as [Hd Hv].
  destruct (Z.ltb_spec p 10) as [Hlt|Hge].
  - exists 1. intros a b. split; [|lia]. cbn [parse_digits]. rewrite Hd, Hv.
    rewrite Z.mod_small by lia. f_equal. lia.
  - assert (Hk : (0 < k)%nat).
    { destruct k; [|lia]. simpl in Hp. lia. }
    assert (Hq : 0 <= p / 10 < 2 ^ Z.of_nat k).
    { split; [apply Z.div_pos; lia|].
      apply Z.div_lt_upper_bound; [lia|].
      rewrite Nat2Z.inj_succ, Z.pow_succ_r in Hp by lia. lia. }
    destruct (IH (p / 10) (ascii_of_N (Z.to_N (p mod 10) + 48) :: rest) Hk Hq) as [n Hn].
    exists (n + 1). intros a b. destruct (Hn a b) as [-> Hn0]. split; [|lia].
    cbn [parse_digits]. rewrite Hd, Hv. f_equal.
    rewrite Z.pow_add_r by lia. pose proof (Z.div_mod p 10). lia.
Qed.

Lemma is_digit_chars_of_pos (fuel : nat) (p : Z) (rest : text) :
  0 <= p -> forallb is_digit rest = true ->
  forallb is_digit (digits_of_pos fuel p rest) = true.
Proof.
  revert p rest. induction fuel as [|k IH]; intros p rest Hp Hr; [exact Hr|].
  cbn [digits_of_pos].
  assert (Hm : 0 <= p mod 10 < 10) by (apply Z.mod_pos_bound; lia).
  destruct (digit_char (p mod 10) Hm) as [Hd _].
  destruct (p <? 10).
  - simpl. rewrite Hd, Hr. reflexivity.
  - apply IH; [apply Z.div_pos; lia|]. simpl. rewrite Hd, Hr. reflexivity.
Qed.

Lemma digits_of_pos_not_nil (fuel : nat) (p : Z) (rest : text) :
  (0 < fuel)%nat -> digits_of_pos fuel p rest <> [].
Proof.
  revert p rest. induction fuel as [|k IH]; intros p rest Hf; [lia|].
  cbn [digits_of_pos]. destruct (p <? 10); [discriminate|].
  destruct k as [|k']; [simpl; discriminate|]. apply IH. lia.
Qed.

Lemma log2_fuel (p : Z) :
  0 <= p ->
  (0 < Z.to_nat (Z.log2 p) + 1)%nat /\ 0 <= p < 2 ^ Z.of_nat (Z.to_nat (Z.log2 p) + 1).
Proof.
  intros Hp. split; [lia|]. split; [exact Hp|].
  pose proof (Z.log2_nonneg p) as Hl.
  rewrite Nat2Z.inj_add, Z2Nat.id by lia. change (Z.of_nat 1) with 1.
  destruct (Z.eq_dec p 0) as [->|Hne]; [reflexivity|].
  pose proof (Z.log2_spec p). rewrite <- Z.add_1_r in *. lia.
Qed.

Lemma numeric_char_facts (c : ascii) :
  numeric_char c = true ->
  is_space c = false /\ upper_char c = c /\ lower_char c = c
  /\ char_eqb c "E" = false /\ char_eqb c ">" = false /\ char_eqb c "," = false
  /\ char_eqb c "+" = false.
Proof.
  destruct c as [[] [] [] [] [] [] [] []]; intros H; try discriminate H;
    repeat split; reflexivity.
Qed.

Lemma is_digit_numeric (s : text) :
  forallb is_digit s = true -> forallb numeric_char s = true.
Proof.
  induction s as [|c s IH]; simpl; [reflexivity|].
  intros H. apply andb_true_iff in H as [Hc Hs].
  unfold numeric_char at 1. rewrite Hc, (IH Hs). reflexivity.
Qed.

Lemma str_of_Z_numeric (z : Z) : forallb numeric_char (str_of_Z z) = true.
Proof.
  unfold str_of_Z. destruct (Z.ltb_spec z 0).
  - cbn [forallb]. apply andb_true_iff. split; [reflexivity|].
    apply is_digit_numeric, is_digit_chars_of_pos; [lia|reflexivity].
  - apply is_digit_numeric, is_digit_chars_of_pos; [lia|reflexivity].
Qed.

Lemma numeric_no_space (s : text) : forallb numeric_char s = true -> no_space s = true.
Proof.
  unfold no_space. induction s as [|c s IH]; simpl; [reflexivity|].
  intros H. apply andb_true_iff in H as [Hc Hs].
  destruct (numeric_char_facts c Hc) as (-> & _). rewrite (IH Hs). reflexivity.
Qed.

Lemma lstrip_no_space (s : text) : no_space s = true -> lstrip s = s.
Proof.
  unfold no_space. destruct s as [|c s]; simpl; [reflexivity|].
  intros H. apply andb_true_iff in H as [Hc _].
  destruct (is_space c); [discriminate|reflexivity].
Qed.

Lemma no_space_rev (s : text) : no_space (rev s) = no_space s.
Proof. apply forallb_rev. Qed.

(** [strip] leaves a text without white space as it is. *)
Lemma strip_no_space (s : text) : no_space s = true -> strip s = s.
Proof.
  intros H. unfold strip, rstrip. rewrite (lstrip_no_space s H).
  rewrite lstrip_no_space by (rewrite no_space_rev; exact H).
  apply rev_involutive.
Qed.

Lemma upper_numeric (s : text) : forallb numeric_char s = true -> upper s = s.
Proof.
  induction s as [|c s IH]; simpl; [reflexivity|].
  intros H. apply andb_true_iff in H as [Hc Hs].
  destruct (numeric_char_facts c Hc) as (_ & -> & _). rewrite (IH Hs). reflexivity.
Qed.

Lemma numeric_no_char (d : ascii) (s : text) :
  (forall c, numeric_char c = true -> char_eqb c d = false) ->
  forallb numeric_char s = true -> contains_char d s = false.
Proof.
  intros Hd. induction s as [|c s IH]; simpl; [reflexivity|].
  intros H. apply andb_true_iff in H as [Hc Hs].
  rewrite char_eqb_sym, (Hd c Hc), (IH Hs). reflexivity.
Qed.

Lemma numeric_no_E (s : text) :
  forallb numeric_char s = true -> contains_char "E" s = false.
Proof. apply numeric_no_char. intros c Hc. apply (numeric_char_facts c Hc). Qed.

Lemma numeric_no_separator (s : text) :
  forallb numeric_char s = true -> contains_char ">" s = false.
Proof. apply numeric_no_char. intros c Hc. apply (numeric_char_facts c Hc). Qed.

Lemma numeric_not_int_space c : numeric_char c = true -> is_int_space c = false.
Proof. destruct c as [[] [] [] [] [] [] [] []]; (reflexivity || discriminate). Qed.

Lemma int_lstrip_numeric (s : text) : forallb numeric_char s = true -> int_lstrip s = s.
Proof.
  destruct s as [|c s]; simpl; [reflexivity|].
  intros H. apply andb_true_iff in H as [Hc _].
  rewrite (numeric_not_int_space c Hc). reflexivity.
Qed.

(** [int] finds nothing to skip around the characters [str] writes for an
    integer. *)
Lemma int_strip_numeric (s : text) : forallb numeric_char s = true -> int_strip s = s.
Proof.
  intros H. unfold int_strip. rewrite (int_lstrip_numeric s H).
  rewrite int_lstrip_numeric by (rewrite forallb_rev; exact H).
  apply rev_involutive.
Qed.

(** [int(str(z))] is [z]. *)
Lemma parse_int_str_of_Z (z : Z) : parse_int (str_of_Z z) = Some z.
Proof.
  unfold parse_int.
  rewrite (int_strip_numeric _ (str_of_Z_numeric z)).
  unfold str_of_Z. destruct (Z.ltb_spec z 0) as [Hneg|Hpos].
  - change (char_eqb "-" "-") with true. cbv iota.
    destruct (log2_fuel (- z)) as [Hf Hp]; [lia|].
    destruct (parse_digits_of_pos _ (- z) [] Hf Hp) as [n Hn].
    destruct (Hn 0 false) as [-> _]. simpl. f_equal; lia.
  - destruct (log2_fuel z Hpos) as [Hf Hp].
    pose proof (digits_of_pos_not_nil _ z [] Hf) as Hne.
    pose proof (is_digit_chars_of_pos (Z.to_nat (Z.log2 z) + 1) z [] Hpos eq_refl) as Hd.
    destruct (parse_digits_of_pos _ z [] Hf Hp) as [n Hn].
    destruct (digits_of_pos (Z.to_nat (Z.log2 z) + 1) z []) as [|c s'] eqn:E;
      [contradiction|].
    simpl in Hd. apply andb_true_iff in Hd as [Hc _].
    assert (Hnum : numeric_char c = true) by (unfold numeric_char; rewrite Hc; reflexivity).
    destruct (numeric_char_facts c Hnum) as (_ & _ & _ & _ & _ & _ & Hplus).
    assert (Hminus : char_eqb c "-" = false).
    { destruct c as [[] [] [] [] [] [] [] []]; try reflexivity; discriminate Hc. }
    rewrite Hminus, Hplus. destruct (Hn 0 false) as [-> _]. simpl. f_equal; lia.
Qed.

(** * Range expressions that the program prints *)

Lemma app_range_str_sides (s1 e1 s2 e2 : Z) :
  app_range_str s1 e1 s2 e2 = printed_side s1 e1 ++ ">"%char :: printed_side s2 e2.
Proof.
  unfold app_range_str, printed_side.
  change (str "S") with ["S"%char]. change (str "E") with ["E"%char].
  change (str ">S") with [">"%char; "S"%char].
  simpl. rewrite <- !List.app_assoc. reflexivity.
Qed.

Lemma printed_side_no_space (s e : Z) : no_space (printed_side s e) = true.
Proof.
  unfold printed_side, no_space. cbn [forallb].
  rewrite forallb_app. cbn [forallb].
  fold (no_space (str_of_Z s)). fold (no_space (str_of_Z e)).
  rewrite !numeric_no_space by apply str_of_Z_numeric. reflexivity.
Qed.

Lemma printed_side_upper (s e : Z) : upper (printed_side s e) = printed_side s e.
Proof.
  unfold printed_side, upper. cbn [map]. rewrite List.map_app. cbn [map].
  fold (upper (str_of_Z s)). fold (upper (str_of_Z e)).
  rewrite !upper_numeric by apply str_of_Z_numeric. reflexivity.
Qed.

Lemma printed_side_no_separator (s e : Z) :
  contains_char ">" (printed_side s e) = false.
Proof.
  unfold printed_side. cbn [contains_char existsb].
  fold (contains_char ">" (str_of_Z s ++ "E"%char :: str_of_Z e)).
  rewrite contains_char_app. cbn [contains_char existsb].
  fold (contains_char ">" (str_of_Z e)).
  rewrite !numeric_no_separator by apply str_of_Z_numeric. reflexivity.
Qed.

(** A printed side reads back as the two integers. *)
Lemma se_to_tuple_printed_side (s e : Z) : se_to_tuple (printed_side s e) = Ok (s, e).
Proof.
  rewrite se_to_tuple_cut.
  rewrite (strip_no_space _ (printed_side_no_space s e)), printed_side_upper.
  unfold printed_side. change (char_eqb "S" "S") with true. cbv iota.
  rewrite (cut_at_app _ _ _ (numeric_no_E _ (str_of_Z_numeric s))).
  unfold py_int, Generic.py_int, Generic.py_int_text.
  rewrite !parse_int_str_of_Z. reflexivity.
Qed.

(** The range expression the page builds from its four number boxes
    parses back to the four numbers; when the end lies before the start
    (season first) the parser answers with the order error instead.  This
    holds for all integers, negative ones included. *)
Theorem app_range_str_round_trip (s1 e1 s2 e2 : Z) :
  parse_range (app_range_str s1 e1 s2 e2) =
    if (s2 <? s1) || ((s2 =? s1) && (e2 <? e1))
    then Err (ArgumentTypeError (format_message (app_range_str s1 e1 s2 e2))
                (ValueError order_message))
    else Ok (s1, e1, s2, e2).
Proof.
  apply (parse_range_endpoints _ (printed_side s1 e1) (printed_side s2 e2)).
  - rewrite app_range_str_sides.
    apply split_on_two; apply printed_side_no_separator.
  - apply se_to_tuple_printed_side.
  - apply se_to_tuple_printed_side.
Qed.

Example app_range_default :
  app_range_str 3 1 8 22 = str "S3E1>S8E22"
  /\ parse_range (app_range_str 3 1 8 22) = Ok (3, 1, 8, 22).
Proof. split; reflexivity. Qed.

(** For the string methods of the runtime, whatever they do on a string,
    the parser has two outcomes only: four numbers, of an expression that
    is well formed, with the start not after the end (season first); or
    an [ArgumentTypeError] whose message is built from the expression.
    No other exception leaves it. *)
Theorem parse_range_outcomes
    (str_strip str_upper : text -> text) (int_of_text : text -> option Z) (x : text) :
  (exists q,
      Generic.parse_range str_strip str_upper int_of_text x = Ok q
      /\ well_formed str_strip str_upper int_of_text x = true
      /\ ordered_range q)
  \/ (exists cause,
        Generic.parse_range str_strip str_upper int_of_text x
        = Err (ArgumentTypeError (format_message x) cause)).
Proof.
  unfold Generic.parse_range.
  destruct (Generic.parse_range_try str_strip str_upper int_of_text x)
    as [q|ex] eqn:Hq; [left|right; eauto].
  exists q. split; [reflexivity|]. unfold Generic.parse_range_try in Hq.
  destruct (split_on ">" x) as [|l [|r [|t ts]]] eqn:Hs; try discriminate Hq.
  simpl in Hq. rewrite (well_formed_sides _ _ _ x l r Hs), !well_formed_side_ok.
  destruct (Generic.se_to_tuple str_strip str_upper int_of_text l)
    as [[s1 e1]|]; [|discriminate Hq].
  destruct (Generic.se_to_tuple str_strip str_upper int_of_text r)
    as [[s2 e2]|]; [|discriminate Hq].
  simpl in Hq.
  destruct ((s2 <? s1) || ((s2 =? s1) && (e2 <? e1))) eqn:Ho; [discriminate Hq|].
  injection Hq as <-. split; [reflexivity|].
  apply orb_false_iff in Ho as [H1 H2]. apply Z.ltb_ge in H1.
  unfold ordered_range.
  destruct (Z.eqb_spec s2 s1) as [->|Hne]; [|lia].
  simpl in H2. apply Z.ltb_ge in H2. lia.
Qed.

(** * More on the filter *)

Lemma kept_in_range s1 e1 s2 e2 min_imdb allow_seasons ex_seasons ep :
  kept s1 e1 s2 e2 min_imdb allow_seasons ex_seasons ep = true ->
  in_range ep s1 e1 s2 e2 = true.
Proof.
  unfold kept. rewrite !andb_true_iff. tauto.
Qed.

(** A range whose linearized end lies before its linearized start selects
    nothing, whatever the records: such ranges pass the parser when an
    episode number is 100 or more. *)
Theorem filter_episodes_reversed_range (episodes : list Episode)
    (s1 e1 s2 e2 : Z) (min_imdb : float) (allow_seasons : Z * Z)
    (exclude_seasons : option (list Z)) :
  s2 * 100 + e2 < s1 * 100 + e1 ->
  filter_episodes episodes (s1, e1, s2, e2) min_imdb allow_seasons exclude_seasons = [].
Proof.
  intros Hrev. rewrite filter_episodes_kept. apply filter_none.
  intros ep _. destruct (kept _ _ _ _ _ _ _ ep) eqn:Hk; [|reflexivity].
  apply kept_in_range in Hk. unfold in_range in Hk.
  apply andb_true_iff in Hk as [H1 H2].
  apply Z.leb_le in H1. apply Z.leb_le in H2. lia.
Qed.

Lemma filter_episodes_reversed_range_witness :
  parse_range (str "S2E150>S3E1") = Ok (2, 150, 3, 1)
  /\ filter_episodes sample_episodes (2, 150, 3, 1) MIN_IMDB_RATING MAX_SEASONS_ALLOWED None
     = [].
Proof.
  split; [reflexivity|].
  apply (filter_episodes_reversed_range sample_episodes 2 150 3 1). lia.
Defined.

Lemma filter_filter {A} (f g : A -> bool) (l : list A) :
  List.filter f (List.filter g l) = List.filter (fun x => g x && f x) l.
Proof.
  induction l as [|x l IH]; simpl; [reflexivity|].
  destruct (g x); simpl; [destruct (f x); rewrite IH; reflexivity|exact IH].
Qed.

Lemma kept_excluded s1 e1 s2 e2 min_imdb allow_seasons (exclude_seasons : option (list Z)) ep :
  kept s1 e1 s2 e2 min_imdb allow_seasons (list_to_set (default [] exclude_seasons)) ep
  = kept s1 e1 s2 e2 min_imdb allow_seasons ∅ ep
    && season_not_in (default [] exclude_seasons) ep.
Proof.
  unfold kept, season_not_in.
  rewrite (excluded_test exclude_seasons ep). unfold season_excluded.
  assert (He : bool_decide ((∅ : gset Z) ≠ ∅) = false)
    by (apply bool_decide_eq_false; intros H; apply H; reflexivity).
  rewrite He. simpl.
  destruct (existsb (Z.eqb (season ep)) (default [] exclude_seasons)); simpl.
  - rewrite andb_false_r. reflexivity.
  - rewrite andb_true_r. reflexivity.
Qed.

(** Excluding seasons is the same as filtering without exclusions and
    dropping the records of those seasons afterwards; leaving the list
    out and giving the empty list are the same. *)
Theorem filter_episodes_exclusion (episodes : list Episode) (rng : Z * Z * Z * Z)
    (min_imdb : float) (allow_seasons : Z * Z) (ex : list Z) :
  filter_episodes episodes rng min_imdb allow_seasons (Some ex)
  = List.filter (season_not_in ex)
      (filter_episodes episodes rng min_imdb allow_seasons None)
  /\ filter_episodes episodes rng min_imdb allow_seasons (Some [])
     = filter_episodes episodes rng min_imdb allow_seasons None.
Proof.
  destruct rng as [[[s1 e1] s2] e2]. rewrite !filter_episodes_kept. split.
  - rewrite filter_filter. apply List.filter_ext. intros ep.
    apply (kept_excluded s1 e1 s2 e2 min_imdb allow_seasons (Some ex)).
  - reflexivity.
Qed.

(** Widening the range never loses a record: what passes with a range
    passes with every range that starts no later and ends no earlier, on
    the linearized positions. *)
Theorem filter_episodes_wider_range (episodes : list Episode)
    (s1 e1 s2 e2 t1 f1 t2 f2 : Z) (min_imdb : float) (allow_seasons : Z * Z)
    (exclude_seasons : option (list Z)) (ep : Episode) :
  t1 * 100 + f1 <= s1 * 100 + e1 ->
  s2 * 100 + e2 <= t2 * 100 + f2 ->
  In ep (filter_episodes episodes (s1, e1, s2, e2) min_imdb allow_seasons exclude_seasons) ->
  In ep (filter_episodes episodes (t1, f1, t2, f2) min_imdb allow_seasons exclude_seasons).
Proof.
  intros Hstart Hend. rewrite !filter_episodes_kept, !List.filter_In.
  intros [Hin Hk]. split; [exact Hin|].
  unfold kept, in_range in *. rewrite !andb_true_iff in *.
  rewrite !Z.leb_le in *. repeat split; try tauto; lia.
Qed.

Lemma filter_episodes_wider_range_witness :
  In wrath (filter_episodes sample_episodes (2, 1, 6, 20) MIN_IMDB_RATING
              MAX_SEASONS_ALLOWED None).
Proof.
  apply (filter_episodes_wider_range sample_episodes 3 2 3 2 2 1 6 20);
    [lia|lia|vm_compute; auto].
Defined.

(** * More on the ranker *)

Lemma rank_and_select_In (candidates : list Episode) (n : Z) (e : Episode) :
  In e (rank_and_select candidates n) -> In e candidates.
Proof.
  intros H. unfold rank_and_select in H.
  destruct (take_upto_prefix n (sorted_by sort_key key_ltb candidates)) as [rest Hrest].
  apply (Permutation_in _ (sorted_by_Permutation sort_key key_ltb candidates)).
  rewrite Hrest. apply List.in_or_app. left. exact H.
Qed.

(** Every record the pipeline selects (filter, then rank and cut) is a
    record of the input that lies in the range and in the allowed seasons,
    is not of an excluded season, features the profiler, is heavy on
    neither of the two flags, and has a known rating that is not below
    the minimum. *)
Theorem selected_records_pass (episodes : list Episode) (s1 e1 s2 e2 : Z)
    (min_imdb : float) (allow_seasons : Z * Z) (exclude_seasons : option (list Z))
    (n : Z) (ep : Episode) :
  In ep (rank_and_select
           (filter_episodes episodes (s1, e1, s2, e2) min_imdb allow_seasons exclude_seasons)
           n) ->
  In ep episodes
  /\ s1 * 100 + e1 <= season ep * 100 + episode ep <= s2 * 100 + e2
  /\ fst allow_seasons <= season ep <= snd allow_seasons
  /\ ~ In (season ep) (default [] exclude_seasons)
  /\ features_george_huang ep = true
  /\ heavy_finn_munch ep = false
  /\ heavy_trial ep = false
  /\ exists r, imdb_rating ep = Some r /\ flt r min_imdb = false.
Proof.
  intros H. apply rank_and_select_In in H.
  rewrite filter_episodes_kept in H. apply List.filter_In in H as [Hin Hk].
  split; [exact Hin|].
  unfold kept in Hk. rewrite (excluded_test exclude_seasons ep) in Hk.
  rewrite !andb_true_iff, !negb_true_iff in Hk.
  destruct Hk as [[[[[[Hex Hr] Ha] Hf] Hm] Ht] Hrate].
  unfold in_range in Hr. apply andb_true_iff in Hr as [Hr1 Hr2].
  destruct Ha as [Ha1 Ha2].
  rewrite Z.leb_le in Hr1, Hr2, Ha1, Ha2.
  repeat split; try assumption.
  - intros Hin'. unfold season_excluded in Hex.
    assert (Ht' : existsb (Z.eqb (season ep)) (default [] exclude_seasons) = true).
    { apply existsb_exists. exists (season ep). split; [exact Hin'|apply Z.eqb_refl]. }
    congruence.
  - unfold rating_too_low in Hrate. destruct (imdb_rating ep) as [r|]; [|discriminate].
    exists r. auto.
Qed.

Lemma selected_records_pass_witness :
  In wrath sample_episodes
  /\ 2 * 100 + 1 <= season wrath * 100 + episode wrath <= 6 * 100 + 20
  /\ fst MAX_SEASONS_ALLOWED <= season wrath <= snd MAX_SEASONS_ALLOWED
  /\ ~ In (season wrath) (default [] (Some [2]))
  /\ features_george_huang wrath = true
  /\ heavy_finn_munch wrath = false
  /\ heavy_trial wrath = false
  /\ exists r, imdb_rating wrath = Some r /\ flt r MIN_IMDB_RATING = false.
Proof.
  apply (selected_records_pass sample_episodes 2 1 6 20 MIN_IMDB_RATING
           MAX_SEASONS_ALLOWED (Some [2]) 1 wrath).
  vm_compute. auto.
Defined.

(** Sorting a list that is in order leaves it as it is. *)
Lemma sorted_by_of_sorted {A K} (key : A -> K) (ltb : K -> K -> bool) (l : list A) :
  StronglySorted (key_le key ltb) l -> sorted_by key ltb l = l.
Proof.
  intros Hs. induction Hs as [|x l Hs IH Hx]; simpl; [reflexivity|].
  rewrite IH. destruct l as [|y l']; simpl; [reflexivity|].
  apply List.Forall_inv in Hx. unfold key_le in Hx. rewrite Hx. reflexivity.
Qed.

Lemma StronglySorted_prefix {A} (R : A -> A -> Prop) (l1 l2 : list A) :
  StronglySorted R (l1 ++ l2) -> StronglySorted R l1.
Proof.
  induction l1 as [|x l1 IH]; simpl; intros H; [constructor|].
  inversion H as [|? ? Hs Hx]; subst. constructor; [apply IH; exact Hs|].
  apply List.Forall_app in Hx as [Hx _]. exact Hx.
Qed.

(** Ranking the result of the ranker again with the same count changes
    nothing, for a count that is not negative and ratings that are
    numbers. *)
Theorem rank_and_select_idempotent (candidates : list Episode) (n : Z) :
  0 <= n ->
  forallb rating_is_number candidates = true ->
  rank_and_select (rank_and_select candidates n) n = rank_and_select candidates n.
Proof.
  intros Hn Hl. unfold rank_and_select. rewrite !(take_upto_nonneg n) by exact Hn.
  pose proof (sort_key_sorted candidates Hl) as Hs.
  rewrite <- (List.firstn_skipn (Z.to_nat n) (sorted_by sort_key key_ltb candidates)) in Hs.
  apply StronglySorted_prefix in Hs.
  rewrite (sorted_by_of_sorted _ _ _ Hs).
  apply List.firstn_all2. rewrite List.length_firstn. lia.
Qed.

Lemma rank_and_select_idempotent_witness :
  rank_and_select (rank_and_select sample_episodes 2) 2 = rank_and_select sample_episodes 2.
Proof.
  apply (rank_and_select_idempotent sample_episodes 2); [lia|reflexivity].
Defined.

(** The ranker never fails on the count and never invents or repeats a
    record: its result and the records it leaves out are together a
    rearrangement of the candidates.  A count of 0 or more leaves out all
    but the first [n]; a negative count [-k] leaves out the last [k] of
    the ranking instead. *)
Theorem rank_and_select_any_count (candidates : list Episode) (n : Z) :
  exists dropped,
    rank_and_select candidates (Z.of_nat (length candidates))
    = rank_and_select candidates n ++ dropped
    /\ Permutation (rank_and_select candidates n ++ dropped) candidates
    /\ length (rank_and_select candidates n)
       = if 0 <=? n then Nat.min (Z.to_nat n) (length candidates)
         else (length candidates - Z.to_nat (- n))%nat.
Proof.
  unfold rank_and_select.
  pose proof (sorted_by_Permutation sort_key key_ltb candidates) as P.
  pose proof (sorted_by_length sort_key key_ltb candidates) as L.
  set (s := sorted_by sort_key key_ltb candidates) in *.
  assert (Hfull : take_upto (Z.of_nat (length candidates)) s = s).
  { rewrite take_upto_nonneg by lia. apply List.firstn_all2. lia. }
  rewrite Hfull. unfold take_upto. rewrite L.
  destruct (0 <=? n).
  - exists (skipn (Z.to_nat n) s). rewrite List.firstn_skipn.
    repeat split; [exact P|]. rewrite List.length_firstn. lia.
  - exists (skipn (length candidates - Z.to_nat (- n)) s). rewrite List.firstn_skipn.
    repeat split; [exact P|]. rewrite List.length_firstn. lia.
Qed.

Example rank_negative_count :
  rank_and_select sample_episodes (-1) = [scourge; wrath].
Proof. vm_compute. reflexivity. Qed.

(** * More on the detail expander *)

Lemma details_bullets_four_witness :
  exists plot reason,
    plot_bullets repression = Ok plot /\ reason_bullets repression = Ok reason
    /\ length plot = 4%nat /\ length reason = 4%nat
    /\ Forall (fun b => b <> []) plot /\ Forall (fun b => b <> []) reason.
Proof. apply (details_bullets_four repression); reflexivity. Defined.

Lemma no_word_blank (s : text) : has_word s = false -> forallb is_space s = true.
Proof.
  induction s as [|c s IH]; simpl; [reflexivity|].
  intros H. apply orb_false_iff in H as [Hc Hs].
  apply negb_false_iff in Hc. rewrite Hc, (IH Hs). reflexivity.
Qed.

Lemma blank_no_word (s : text) : forallb is_space s = true -> has_word s = false.
Proof.
  induction s as [|c s IH]; simpl; [reflexivity|].
  intros H. apply andb_true_iff in H as [-> Hs]. rewrite (IH Hs). reflexivity.
Qed.

(** What the expander does with a field, by the kind of field. *)
Lemma expand_by_kind (s : text) :
  match expand_sentence_to_bullets s 4 with
  | Ok bullets =>
      blank_only s = false /\ length bullets = 4%nat /\ Forall (fun b => b <> []) bullets
  | Err e => blank_only s = true /\ e = IndexError (str "list index out of range")
  end.
Proof.
  destruct s as [|c s'] eqn:Es.
  - simpl. repeat split. repeat constructor; discriminate.
  - rewrite <- Es. destruct (has_word s) eqn:Hw.
    + destruct (expand_four_bullets s Hw) as (bullets & -> & Hlen & Hall).
      repeat split; [|exact Hlen|exact Hall].
      unfold blank_only. destruct (forallb is_space s) eqn:Hb; [|apply andb_false_r].
      rewrite (blank_no_word s Hb) in Hw. discriminate.
    + pose proof (no_word_blank s Hw) as Hb.
      rewrite (expand_blank_raises s); [|rewrite Es; discriminate|exact Hb].
      split; [|reflexivity]. unfold blank_only. rewrite Hb, Es. reflexivity.
Qed.

(** On a record whose free-text fields are ASCII text, [details_expand]
    returns its text exactly when neither field is a non-empty run of
    white space; otherwise it raises [IndexError], and it raises nothing
    else. *)
Theorem details_expand_raises_exactly (repr_float : float -> text) (ep : Episode) :
  is_ascii (one_sentence_plot ep) = true ->
  is_ascii (one_sentence_reason ep) = true ->
  match details_expand repr_float ep with
  | Ok _ => blank_only (one_sentence_plot ep) || blank_only (one_sentence_reason ep) = false
  | Err e =>
      blank_only (one_sentence_plot ep) || blank_only (one_sentence_reason ep) = true
      /\ e = IndexError (str "list index out of range")
  end.
Proof.
  intros _ _.
  unfold details_expand, Generic.details_expand, Generic.plot_bullets,
    Generic.reason_bullets.
  change (Generic.expand_sentence_to_bullets strip split_ws)
    with expand_sentence_to_bullets.
  pose proof (expand_by_kind (one_sentence_plot ep)) as Hp.
  pose proof (expand_by_kind (one_sentence_reason ep)) as Hr.
  destruct (expand_sentence_to_bullets (one_sentence_plot ep) 4) as [plot|e1]; simpl.
  - destruct Hp as [-> _]. simpl.
    destruct (expand_sentence_to_bullets (one_sentence_reason ep) 4) as [reason|e2]; simpl.
    + apply Hr.
    + exact Hr.
  - destruct Hp as [-> ->]. auto.
Qed.

Lemma details_expand_raises_exactly_witness :
  match details_expand plain_repr blank_plot with
  | Ok _ =>
      blank_only (one_sentence_plot blank_plot)
      || blank_only (one_sentence_reason blank_plot) = false
  | Err e =>
      blank_only (one_sentence_plot blank_plot)
      || blank_only (one_sentence_reason blank_plot) = true
      /\ e = IndexError (str "list index out of range")
  end.
Proof.
  apply (details_expand_raises_exactly plain_repr blank_plot); reflexivity.
Defined.

Lemma space_char_space c : char_eqb " " c = true -> is_space c = true.
Proof. intros H. apply char_eqb_eq in H as <-. reflexivity. Qed.

Lemma replace_no_space (new s : text) :
  no_space s = true -> replace (str " and ") new s = s.
Proof.
  unfold replace, no_space. induction s as [|c s IH]; simpl; [reflexivity|].
  intros H. apply andb_true_iff in H as [Hc Hs].
  change (str " and ") with (" "%char :: str "and "). cbn [startswith].
  destruct (char_eqb " " c) eqn:E.
  - apply space_char_space in E. rewrite E in Hc. discriminate.
  - simpl. f_equal. apply IH. exact Hs.
Qed.

Lemma split_ws_from_no_space (cur s : text) :
  no_space s = true ->
  split_ws_from cur s = match rev cur ++ s with [] => [] | w => [w] end.
Proof.
  unfold no_space. revert cur. induction s as [|c s IH]; intros cur H; simpl.
  - rewrite List.app_nil_r. destruct cur as [|d cur']; [reflexivity|].
    destruct (rev (d :: cur')) eqn:E; [|reflexivity].
    apply (f_equal (@length ascii)) in E. rewrite List.length_rev in E. discriminate.
  - simpl in H. apply andb_true_iff in H as [Hc Hs].
    apply negb_true_iff in Hc. rewrite Hc, (IH _ Hs). simpl.
    rewrite <- List.app_assoc. reflexivity.
Qed.

(** An ASCII field of one word (no white space, no comma) gives the word
    four times: the first chunk, then three copies by padding. *)
Theorem expand_one_word_field (s : text) :
  is_ascii s = true ->
  s <> [] -> no_space s = true -> contains_char "," s = false ->
  expand_sentence_to_bullets s 4 = Ok [s; s; s; s].
Proof.
  intros _ Hne Hs Hc.
  unfold expand_sentence_to_bullets, Generic.expand_sentence_to_bullets.
  destruct s as [|c s'] eqn:Es; [contradiction|]. rewrite <- Es in *.
  rewrite (replace_no_space _ _ Hs), (split_on_no_sep _ _ Hc).
  cbn [map]. rewrite (strip_no_space _ Hs).
  unfold split_ws. rewrite (split_ws_from_no_space [] s Hs).
  rewrite Es. simpl. rewrite <- Es, (strip_no_space _ Hs). rewrite Es. reflexivity.
Qed.

Lemma expand_one_word_field_witness :
  expand_sentence_to_bullets (str "Gripping") 4
  = Ok [str "Gripping"; str "Gripping"; str "Gripping"; str "Gripping"].
Proof.
  apply (expand_one_word_field (str "Gripping"));
    [reflexivity|discriminate|reflexivity|reflexivity].
Defined.

(** * The list of excluded seasons *)

(** The lemmas of this part are about the two readers run with the string
    methods of this file, which are those of the runtime on ASCII text. *)

Lemma digit_value_nonneg c : is_digit c = true -> 0 <= digit_value c.
Proof.
  unfold is_digit, digit_value. intros H. apply andb_true_iff in H as [H _].
  apply N.leb_le in H. lia.
Qed.

Lemma parse_digits_all_digits (s : text) (a : Z) (b : bool) :
  forallb is_digit s = true -> 0 <= a -> s <> [] \/ b = true ->
  exists v, parse_digits a b s = Some v /\ 0 <= v.
Proof.
  revert a b. induction s as [|c s IH]; intros a b Hd Ha Hne; simpl.
  - destruct Hne as [Hne| ->]; [contradiction|]. eauto.
  - simpl in Hd. apply andb_true_iff in Hd as [Hc Hs]. rewrite Hc.
    apply IH; [exact Hs| |right; reflexivity].
    pose proof (digit_value_nonneg c Hc). lia.
Qed.

Lemma digit_not_sign c :
  is_digit c = true -> char_eqb c "-" = false /\ char_eqb c "+" = false.
Proof. destruct c as [[] [] [] [] [] [] [] []]; intros H; try discriminate H; auto. Qed.

(** The trimmed piece of a piece that passes the digit test reads as an
    integer that is not negative. *)
Lemma parse_int_digit_piece (x : text) :
  digit_piece x = true -> exists z, parse_int (strip x) = Some z /\ 0 <= z.
Proof.
  unfold digit_piece, isdigit, parse_int. intros H. apply andb_true_iff in H as [Hne Hd].
  rewrite (int_strip_numeric _ (is_digit_numeric _ Hd)).
  destruct (strip x) as [|c s'] eqn:E; [discriminate|].
  pose proof Hd as Hd'. simpl in Hd'. apply andb_true_iff in Hd' as [Hc _].
  destruct (digit_not_sign c Hc) as [-> ->].
  apply parse_digits_all_digits; [exact Hd|lia|left; discriminate].
Qed.

Lemma piece_value_spec (x : text) :
  digit_piece x = true -> parse_int (strip x) = Some (piece_value x) /\ 0 <= piece_value x.
Proof.
  intros H. destruct (parse_int_digit_piece x H) as (z & Hz & Hpos).
  unfold piece_value. rewrite Hz. auto.
Qed.

(** White space for [strip] is white space for [int] or one of the four
    separators. *)
Lemma space_kinds c : is_space c = is_int_space c || is_separator_control c.
Proof. destruct c as [[] [] [] [] [] [] [] []]; reflexivity. Qed.

Lemma int_space_no_separator c :
  is_int_space c = true -> is_separator_control c = false.
Proof. destruct c as [[] [] [] [] [] [] [] []]; (reflexivity || discriminate). Qed.

Lemma int_char_no_separator c : int_char c = true -> is_separator_control c = false.
Proof. destruct c as [[] [] [] [] [] [] [] []]; (reflexivity || discriminate). Qed.

Lemma forallb_lstrip (P : ascii -> bool) (x : text) :
  forallb P x = true -> forallb P (lstrip x) = true.
Proof.
  induction x as [|c x IH]; [reflexivity|].
  cbn [lstrip]. destruct (is_space c); [|tauto].
  simpl. intros H. apply andb_true_iff in H as [_ H]. auto.
Qed.

(** On a text without separators [int] skips what [strip] removes. *)
Lemma int_lstrip_plain (x : text) :
  forallb (fun c => negb (is_separator_control c)) x = true -> int_lstrip x = lstrip x.
Proof.
  induction x as [|c x IH]; [reflexivity|].
  simpl. intros H. apply andb_true_iff in H as [Hc Hx].
  rewrite (space_kinds c). apply negb_true_iff in Hc. rewrite Hc, orb_false_r.
  destruct (is_int_space c); [apply IH; exact Hx|reflexivity].
Qed.

Lemma int_strip_plain (x : text) :
  forallb (fun c => negb (is_separator_control c)) x = true -> int_strip x = strip x.
Proof.
  intros H. unfold int_strip, strip, rstrip.
  rewrite (int_lstrip_plain x H).
  rewrite int_lstrip_plain; [reflexivity|].
  rewrite forallb_rev. apply forallb_lstrip. exact H.
Qed.

Lemma forallb_int_lstrip (P : ascii -> bool) (x : text) :
  (forall c, is_int_space c = true -> P c = true) ->
  forallb P (int_lstrip x) = true -> forallb P x = true.
Proof.
  intros HP. induction x as [|c x IH]; [reflexivity|].
  cbn [int_lstrip]. destruct (is_int_space c) eqn:Ec; [|tauto].
  intros H. simpl. rewrite (HP c Ec), (IH H). reflexivity.
Qed.

Lemma forallb_int_strip (P : ascii -> bool) (x : text) :
  (forall c, is_int_space c = true -> P c = true) ->
  forallb P (int_strip x) = true -> forallb P x = true.
Proof.
  intros HP H. unfold int_strip in H. rewrite forallb_rev in H.
  apply (forallb_int_lstrip P _ HP) in H. rewrite forallb_rev in H.
  apply (forallb_int_lstrip P _ HP) in H. exact H.
Qed.

Lemma parse_digits_int_chars (s : text) (a : Z) (b : bool) (v : Z) :
  parse_digits a b s = Some v -> forallb int_char s = true.
Proof.
  revert a b. induction s as [|c s IH]; intros a b; simpl; [reflexivity|].
  unfold int_char at 1. destruct (is_digit c); simpl.
  - apply IH.
  - destruct (char_eqb c "_"); simpl; [|discriminate].
    destruct b; simpl; [apply IH|discriminate].
Qed.

(** A string [int] reads holds none of the four separators. *)
Lemma parse_int_no_separator (x : text) (z : Z) :
  parse_int x = Some z ->
  forallb (fun c => negb (is_separator_control c)) x = true.
Proof.
  intros H. apply forallb_int_strip.
  { intros c Hc. rewrite (int_space_no_separator c Hc). reflexivity. }
  unfold parse_int in H. destruct (int_strip x) as [|c s'] eqn:E; [discriminate|].
  assert (Hall : forallb int_char (c :: s') = true).
  { simpl. destruct (char_eqb c "-") eqn:Em.
    - unfold int_char at 1. rewrite Em, orb_true_r. simpl.
      destruct (parse_digits 0 false s') as [v|] eqn:Ep; [|discriminate].
      apply (parse_digits_int_chars _ _ _ _ Ep).
    - destruct (char_eqb c "+") eqn:Ep.
      + unfold int_char at 1. rewrite Ep, orb_true_r. simpl.
        apply (parse_digits_int_chars _ _ _ _ H).
      + apply (parse_digits_int_chars _ _ _ _ H). }
  clear H E. induction (c :: s') as [|d t IH]; [reflexivity|].
  simpl in *. apply andb_true_iff in Hall as [Hd Ht].
  rewrite (int_char_no_separator d Hd), (IH Ht). reflexivity.
Qed.

(** What [int] makes of a piece that passes the digit test: the number
    of its digits, unless the piece holds a separator. *)
Lemma parse_int_piece (x : text) :
  digit_piece x = true ->
  parse_int x = if existsb is_separator_control x then None else Some (piece_value x).
Proof.
  intros Hd. destruct (existsb is_separator_control x) eqn:Ex.
  - destruct (parse_int x) as [z|] eqn:Hz; [|reflexivity].
    apply parse_int_no_separator in Hz.
    assert (Hno : existsb is_separator_control x = false).
    { clear Ex Hd. induction x as [|c x IH]; [reflexivity|].
      simpl in *. apply andb_true_iff in Hz as [Hc Hx].
      apply negb_true_iff in Hc. rewrite Hc, (IH Hx). reflexivity. }
    congruence.
  - assert (Hall : forallb (fun c => negb (is_separator_control c)) x = true).
    { clear Hd. induction x as [|c x IH]; [reflexivity|].
      simpl in *. apply orb_false_iff in Ex as [-> Hx]. simpl. apply IH, Hx. }
    destruct (piece_value_spec x Hd) as [Hv _].
    unfold parse_int in *. rewrite (int_strip_plain x Hall).
    unfold digit_piece, isdigit in Hd. apply andb_true_iff in Hd as [_ Hd].
    rewrite (int_strip_numeric _ (is_digit_numeric _ Hd)) in Hv. exact Hv.
Qed.

(** ** Comprehensions *)

Lemma comprehension_ok {A B} (conv : A -> result B) (keep : A -> bool) (f : A -> B)
    (pieces : list A) :
  (forall x, In x pieces -> keep x = true -> conv x = Ok (f x)) ->
  comprehension conv keep pieces = Ok (map f (List.filter keep pieces)).
Proof.
  induction pieces as [|x l IH]; intros H; simpl; [reflexivity|].
  destruct (keep x) eqn:Ek.
  - rewrite (H x (or_introl eq_refl) Ek). simpl.
    rewrite IH by (intros y Hy; apply H; right; exact Hy). reflexivity.
  - apply IH. intros y Hy. apply H. right. exact Hy.
Qed.

Lemma comprehension_err {A B} (conv : A -> result B) (keep : A -> bool) (e : exn)
    (pieces : list A) :
  (forall x ex, In x pieces -> conv x = Err ex -> ex = e) ->
  existsb (fun x => keep x && negb (is_ok (conv x))) pieces = true ->
  comprehension conv keep pieces = Err e.
Proof.
  induction pieces as [|x l IH]; intros He H; simpl in *; [discriminate|].
  destruct (keep x) eqn:Ek; simpl in H.
  - destruct (conv x) as [y|ex] eqn:Ec; simpl in *.
    + rewrite IH; [reflexivity| |exact H].
      intros y' ex Hy. apply He. right. exact Hy.
    + rewrite (He x ex (or_introl eq_refl) Ec). reflexivity.
  - apply IH; [|exact H]. intros y ex Hy. apply He. right. exact Hy.
Qed.

Lemma existsb_filter {A} (p keep : A -> bool) (l : list A) :
  existsb p (List.filter keep l) = existsb (fun x => keep x && p x) l.
Proof.
  induction l as [|x l IH]; simpl; [reflexivity|].
  destruct (keep x); simpl; rewrite IH; reflexivity.
Qed.

Lemma existsb_same {A} (f g : A -> bool) (l : list A) :
  (forall x, f x = g x) -> existsb f l = existsb g l.
Proof.
  intros H. induction l as [|x l IH]; simpl; [reflexivity|]. rewrite H, IH. reflexivity.
Qed.

Lemma existsb_none {A} (p : A -> bool) (l : list A) (x : A) :
  existsb p l = false -> In x l -> p x = false.
Proof.
  induction l as [|y l IH]; simpl; [contradiction|].
  intros H [->|Hx]; apply orb_false_iff in H as [Hy Hl]; auto.
Qed.

(** ** The two readers *)

(** What [main] reads from a text of excluded seasons. *)
Lemma exclude_list_spec (s : text) :
  exclude_list s =
    if existsb (existsb is_separator_control) (List.filter digit_piece (split_on "," s))
    then Err int_error
    else Ok (map piece_value (List.filter digit_piece (split_on "," s))).
Proof.
  unfold exclude_list, Generic.exclude_list.
  change (fun x => isdigit (strip x)) with digit_piece.
  rewrite existsb_filter.
  match goal with |- _ = if ?b then _ else _ => destruct b eqn:Ex end.
  - apply comprehension_err.
    + intros x ex _. unfold Generic.py_int_text.
      destruct (parse_int x); [discriminate|]. intros [= <-]. reflexivity.
    + rewrite (existsb_same _
                 (fun x => digit_piece x && existsb is_separator_control x));
        [exact Ex|]. intros x.
      destruct (digit_piece x) eqn:Hd; [|reflexivity]. simpl.
      unfold Generic.py_int_text. rewrite (parse_int_piece x Hd).
      destruct (existsb is_separator_control x); reflexivity.
  - apply comprehension_ok. intros x Hx Hd.
    unfold Generic.py_int_text. rewrite (parse_int_piece x Hd).
    assert (Hno : existsb is_separator_control x = false).
    { pose proof (existsb_none _ _ x Ex Hx) as Hn. simpl in Hn.
      rewrite Hd in Hn. exact Hn. }
    rewrite Hno. reflexivity.
Qed.

Lemma pieces_nonneg (pieces : list text) :
  Forall (fun z => 0 <= z) (map piece_value (List.filter digit_piece pieces)).
Proof.
  induction pieces as [|x l IH]; simpl; [constructor|].
  destruct (digit_piece x) eqn:Hd; [|exact IH].
  simpl. constructor; [apply (piece_value_spec x Hd)|exact IH].
Qed.

(** In [main], on ASCII text: reading the list of excluded seasons raises
    [ValueError] exactly when a piece between commas that passes the digit
    test (trimmed, it is made of digits) holds one of the separators FS,
    GS, RS, US, which [strip] removes and [int] does not skip.  Otherwise
    the list read holds, in order, the number of each such piece; the
    other pieces are skipped.  No season read is negative, so a piece
    such as [-2] excludes nothing. *)
Theorem exclude_list_outcome (s : text) :
  is_ascii s = true ->
  let pieces := List.filter digit_piece (split_on "," s) in
  exclude_list s =
    (if existsb (existsb is_separator_control) pieces
     then Err int_error
     else Ok (map piece_value pieces))
  /\ Forall (fun z => 0 <= z) (map piece_value pieces).
Proof.
  intros _ pieces. split; [apply exclude_list_spec|apply pieces_nonneg].
Qed.

Lemma exclude_list_outcome_witness :
  exclude_list (str "2, x,-3, 12 ,") = Ok [2; 12]
  /\ Forall (fun z => 0 <= z) [2; 12].
Proof.
  apply (exclude_list_outcome (str "2, x,-3, 12 ,")). reflexivity.
Defined.

Lemma strip_nil_blank (s : text) : strip s = [] -> forallb is_space s = true.
Proof.
  intros H. apply no_word_blank. rewrite <- has_word_strip, H. reflexivity.
Qed.

(** What the page reads from its text box. *)
Lemma app_exclude_seasons_spec (s : text) :
  app_exclude_seasons s
  = Ok (map piece_value (List.filter digit_piece (split_on "," s))).
Proof.
  unfold app_exclude_seasons, Generic.app_exclude_seasons.
  change (fun x => isdigit (strip x)) with digit_piece.
  destruct (strip s) as [|c t] eqn:E.
  - pose proof (strip_nil_blank _ E) as Hb.
    rewrite (split_on_no_sep _ _ (blank_no_comma _ Hb)). simpl.
    unfold digit_piece. rewrite E. reflexivity.
  - apply comprehension_ok. intros x _ Hd.
    unfold Generic.py_int_text. destruct (piece_value_spec x Hd) as [-> _].
    reflexivity.
Qed.

Lemma main_exclude_seasons_spec (s : text) :
  main_exclude_seasons s = exclude_list s.
Proof. destruct s; reflexivity. Qed.

(** On ASCII text the page always reads a list from its text box: the
    numbers of the pieces that pass the digit test.  [main] reads the
    same list from its argument, or raises [ValueError] where the page
    does not, when such a piece holds one of the separators FS, GS, RS,
    US: the page converts the trimmed piece, [main] the piece itself. *)
Theorem exclude_seasons_in_app_and_main (s : text) :
  is_ascii s = true ->
  let pieces := List.filter digit_piece (split_on "," s) in
  app_exclude_seasons s = Ok (map piece_value pieces)
  /\ main_exclude_seasons s =
       (if existsb (existsb is_separator_control) pieces
        then Err int_error
        else app_exclude_seasons s).
Proof.
  intros _ pieces. split; [apply app_exclude_seasons_spec|].
  rewrite main_exclude_seasons_spec, app_exclude_seasons_spec.
  apply exclude_list_spec.
Qed.

Lemma exclude_seasons_in_app_and_main_witness :
  app_exclude_seasons (ascii_of_N 28 :: str "2, 6") = Ok [2; 6]
  /\ main_exclude_seasons (ascii_of_N 28 :: str "2, 6") = Err int_error.
Proof.
  apply (exclude_seasons_in_app_and_main (ascii_of_N 28 :: str "2, 6")). reflexivity.
Defined.

Lemma split_on_join (sep : ascii) (parts : list text) :
  parts <> [] -> Forall (fun p => contains_char sep p = false) parts ->
  split_on sep (join [sep] parts) = parts.
Proof.
  intros Hne Hall. induction Hall as [|p ps Hp Hps IH]; [contradiction|].
  destruct ps as [|q ps'].
  - simpl. apply split_on_no_sep. exact Hp.
  - change (join [sep] (p :: q :: ps')) with (p ++ sep :: join [sep] (q :: ps')).
    rewrite (split_on_app _ _ _ Hp), IH; [reflexivity|discriminate].
Qed.

Lemma str_of_Z_isdigit (z : Z) : 0 <= z -> isdigit (strip (str_of_Z z)) = true.
Proof.
  intros Hz. rewrite (strip_no_space _ (numeric_no_space _ (str_of_Z_numeric z))).
  unfold isdigit, str_of_Z. destruct (Z.ltb_spec z 0); [lia|].
  destruct (log2_fuel z Hz) as [Hf _].
  pose proof (digits_of_pos_not_nil _ z [] Hf) as Hne.
  rewrite (is_digit_chars_of_pos _ z [] Hz eq_refl).
  destruct (digits_of_pos _ z []); [contradiction|reflexivity].
Qed.

Lemma numeric_no_comma (s : text) :
  forallb numeric_char s = true -> contains_char "," s = false.
Proof. apply numeric_no_char. intros c Hc. apply (numeric_char_facts c Hc). Qed.

Lemma comprehension_printed (seasons : list Z) :
  Forall (fun z => 0 <= z) seasons ->
  comprehension (Generic.py_int_text parse_int) (fun x => isdigit (strip x))
    (map str_of_Z seasons) = Ok seasons.
Proof.
  intros Hall. induction Hall as [|y ys Hy Hys IH]; [reflexivity|].
  cbn [map comprehension]. rewrite (str_of_Z_isdigit y Hy).
  assert (Hr : Generic.py_int_text parse_int (str_of_Z y) = Ok y)
    by (unfold Generic.py_int_text; rewrite parse_int_str_of_Z; reflexivity).
  rewrite Hr. simpl. rewrite IH. reflexivity.
Qed.

(** A text of seasons that are not negative, written in decimal and
    separated by commas, is read as exactly those seasons, in order. *)
Theorem exclude_list_round_trip (seasons : list Z) :
  Forall (fun z => 0 <= z) seasons ->
  exclude_list (join (str ",") (map str_of_Z seasons)) = Ok seasons.
Proof.
  intros Hall. unfold exclude_list, Generic.exclude_list. change (str ",") with [","%char].
  destruct seasons as [|z zs]; [reflexivity|].
  rewrite split_on_join;
    [|discriminate
     |apply List.Forall_forall; intros p Hp; apply List.in_map_iff in Hp as (y & <- & _);
      apply numeric_no_comma, str_of_Z_numeric].
  apply comprehension_printed. exact Hall.
Qed.

Lemma exclude_list_round_trip_witness :
  exclude_list (join (str ",") (map str_of_Z [2; 6; 12])) = Ok [2; 6; 12].
Proof.
  apply (exclude_list_round_trip [2; 6; 12]). repeat constructor; lia.
Defined.

(** * More on the normalizer *)

Lemma is_space_lower_char c : is_space (lower_char c) = is_space c.
Proof. destruct c as [[] [] [] [] [] [] [] []]; reflexivity. Qed.

Lemma lower_lstrip s : lower (lstrip s) = lstrip (lower s).
Proof.
  induction s as [|c s IH]; simpl; [reflexivity|].
  rewrite is_space_lower_char. destruct (is_space c); [exact IH|reflexivity].
Qed.

Lemma lower_strip s : lower (strip s) = strip (lower s).
Proof.
  unfold strip, rstrip, lower.
  rewrite List.map_rev. fold (lower (lstrip (rev (lstrip s)))).
  rewrite lower_lstrip. unfold lower at 1. rewrite List.map_rev.
  fold (lower (lstrip s)). rewrite lower_lstrip. reflexivity.
Qed.

(** A flag cell is read without regard to letter case and to white space
    around it: [" YES "] and ["yes"] give the same flag. *)
Theorem to_bool_case_and_space_insensitive (repr_float : float -> text)
    (w1 u w2 s : text) :
  forallb is_space w1 = true -> forallb is_space w2 = true ->
  lower u = lower s ->
  to_bool repr_float (PStr (w1 ++ u ++ w2)) = to_bool repr_float (PStr s).
Proof.
  intros H1 H2 Hu. unfold to_bool, Generic.to_bool, py_str.
  rewrite (strip_padded w1 u w2 H1 H2), !lower_strip, Hu. reflexivity.
Qed.

Lemma to_bool_case_and_space_insensitive_witness :
  to_bool plain_repr (PStr (str " YES ")) = to_bool plain_repr (PStr (str "yes")).
Proof.
  apply (to_bool_case_and_space_insensitive plain_repr (str " ") (str "YES") (str " ")
           (str "yes")); reflexivity.
Defined.

Lemma lower_numeric (s : text) : forallb numeric_char s = true -> lower s = s.
Proof.
  induction s as [|c s IH]; simpl; [reflexivity|].
  intros H. apply andb_true_iff in H as [Hc Hs].
  destruct (numeric_char_facts c Hc) as (_ & _ & -> & _). rewrite (IH Hs). reflexivity.
Qed.

Lemma str_of_Z_is_word (z : Z) (w : text) :
  text_eqb (str_of_Z z) w = true -> forallb numeric_char w = true /\ parse_int w = Some z.
Proof.
  intros H. apply text_eqb_eq in H as <-.
  split; [apply str_of_Z_numeric|apply parse_int_str_of_Z].
Qed.

(** An integer in a flag cell is true exactly when it is 1: the cell is
    compared as text with the accepted words, so 2 or -1 are false. *)
Theorem to_bool_integer (repr_float : float -> text) (z : Z) :
  to_bool repr_float (PInt z) = (z =? 1).
Proof.
  unfold to_bool, Generic.to_bool, py_str.
  rewrite (strip_no_space _ (numeric_no_space _ (str_of_Z_numeric z))).
  rewrite (lower_numeric _ (str_of_Z_numeric z)).
  unfold truthy_words. cbn [existsb]. rewrite !orb_false_r.
  destruct (Z.eqb_spec z 1) as [->|Hne]; [reflexivity|].
  repeat match goal with
    | |- context [text_eqb (str_of_Z z) ?w] =>
        let E := fresh "E" in
        destruct (text_eqb (str_of_Z z) w) eqn:E;
          [apply str_of_Z_is_word in E as [En Ep];
           vm_compute in En; vm_compute in Ep; try discriminate En;
           injection Ep as Ep; lia|]
    end.
  reflexivity.
Qed.

Lemma normalize_row_rating float_of_text repr_float (r : gmap string pyval) (ep : Episode) :
  normalize_row float_of_text repr_float r = Ok ep ->
  imdb_rating ep = to_float float_of_text (get r "imdb_rating").
Proof.
  unfold normalize_row, Generic.normalize_row.
  destruct (Generic.py_int parse_int (py_or (get r "season") (PInt 0)));
    simpl; [|discriminate].
  destruct (Generic.py_int parse_int (py_or (get r "episode") (PInt 0)));
    simpl; [|discriminate].
  intros [= <-]. reflexivity.
Qed.

(** A row whose rating cell is absent, or holds text that the float
    reader rejects, becomes a record with no rating, and such a record is
    never selected, whatever the catalog it is in, the range, the minimum
    and the count. *)
Theorem unrated_row_never_selected (float_of_text : text -> option float)
    (repr_float : float -> text) (r : gmap string pyval) (ep : Episode)
    (episodes : list Episode) (rng : Z * Z * Z * Z) (min_imdb : float)
    (allow_seasons : Z * Z) (exclude_seasons : option (list Z)) (n : Z) :
  normalize_row float_of_text repr_float r = Ok ep ->
  get r "imdb_rating" = PNone
  \/ (exists s, get r "imdb_rating" = PStr s /\ float_of_text s = None) ->
  imdb_rating ep = None
  /\ ~ In ep (rank_and_select
                (filter_episodes episodes rng min_imdb allow_seasons exclude_seasons) n).
Proof.
  intros Hn Hcell.
  assert (Hr : imdb_rating ep = None).
  { rewrite (normalize_row_rating _ _ _ _ Hn). unfold to_float.
    destruct Hcell as [->|(s & -> & Hs)]; simpl; [reflexivity|]. rewrite Hs. reflexivity. }
  split; [exact Hr|]. intros Hin. apply rank_and_select_In in Hin.
  destruct rng as [[[s1 e1] s2] e2]. rewrite filter_episodes_kept in Hin.
  apply List.filter_In in Hin as [_ Hk]. unfold kept in Hk.
  apply andb_true_iff in Hk as [_ Hk]. unfold rating_too_low in Hk.
  rewrite Hr in Hk. discriminate Hk.
Qed.

Lemma unrated_row_never_selected_witness :
  exists ep,
    normalize_row no_float plain_repr row_missing_numbers = Ok ep
    /\ imdb_rating ep = None
    /\ ~ In ep (rank_and_select
                  (filter_episodes [ep] (0, 0, 99, 99) fzero (0, 99) None) 3).
Proof.
  destruct (normalize_row no_float plain_repr row_missing_numbers) as [ep|] eqn:E;
    [|vm_compute in E; discriminate E].
  exists ep. split; [reflexivity|].
  apply (unrated_row_never_selected no_float plain_repr row_missing_numbers ep);
    [exact E|left; vm_compute; reflexivity].
Defined.

(** * Loading the rows *)



Example load_sample_rows float_of_text repr_float :
  load_csv float_of_text repr_float SAMPLE_EPISODES = Ok sample_episodes.
Proof. vm_compute. reflexivity. Qed.

Example load_with_unreadable_season :
  load_csv no_float plain_repr (SAMPLE_EPISODES ++ [row_unreadable_season])
  = Err (ValueError (str "invalid literal for int() with base 10")).
Proof. vm_compute. reflexivity. Qed.

(** * Refreshing the ratings *)

Lemma refresh_without_key (key : option text) answer call ep :
  key = None \/ key = Some [] -> refresh key answer call ep = ep.
Proof.
  intros Hk. unfold refresh, fetch_imdb_rating_from_omdb.
  destruct (wants_lookup ep); [|reflexivity].
  destruct Hk as [->| ->]; reflexivity.
Qed.

(** With no API key in the environment, or an empty one, the refresh loop
    looks nothing up and leaves every record as it is. *)
Theorem refresh_ratings_without_key (key : option text)
    (omdb_answer : nat -> text -> option float) (episodes : list Episode) :
  key = None \/ key = Some [] ->
  refresh_ratings key omdb_answer episodes = episodes.
Proof.
  intros Hk. unfold refresh_ratings. generalize O.
  induction episodes as [|ep rest IH]; intros call; simpl; [reflexivity|].
  rewrite (refresh_without_key key omdb_answer call ep Hk), IH. reflexivity.
Qed.

Lemma refresh_ratings_without_key_witness :
  refresh_ratings None (fun _ _ => Some f9_0) [unrated; scourge] = [unrated; scourge].
Proof.
  apply (refresh_ratings_without_key None (fun _ _ => Some f9_0) [unrated; scourge]).
  left. reflexivity.
Defined.

Lemma refresh_loop_lookup (key : option text) (omdb_answer : nat -> text -> option float)
    (call : nat) (episodes : list Episode) (i : nat) :
  refresh_loop key omdb_answer call episodes !! i
  = refresh key omdb_answer (call + i)%nat <$> (episodes !! i).
Proof.
  revert call i. induction episodes as [|ep rest IH]; intros call i; [reflexivity|].
  destruct i as [|i]; simpl.
  - rewrite Nat.add_0_r. reflexivity.
  - rewrite IH. replace (S call + i)%nat with (call + S i)%nat by lia. reflexivity.
Qed.

Lemma refresh_loop_length (key : option text) (omdb_answer : nat -> text -> option float)
    (call : nat) (episodes : list Episode) :
  length (refresh_loop key omdb_answer call episodes) = length episodes.
Proof.
  revert call. induction episodes as [|ep rest IH]; intros call; simpl; [reflexivity|].
  rewrite IH. reflexivity.
Qed.

(** The refresh loop keeps the number and the order of the records and
    changes nothing but ratings.  The record at position [i] comes out as
    it went in, or, when its rating was unknown or below 0.1, it has an
    identifier and the key is set, with the rating the service answered
    to the request of position [i] for that identifier, which is never
    zero; and whenever the service answers such a request with a rating
    that is not zero, that rating is written.  So a known rating never
    becomes unknown, and a rating of 0.1 or more is never touched. *)
Theorem refresh_ratings_changes (key : option text)
    (omdb_answer : nat -> text -> option float) (episodes : list Episode) :
  length (refresh_ratings key omdb_answer episodes) = length episodes
  /\ forall (i : nat) (ep : Episode),
       episodes !! i = Some ep ->
       exists ep',
         refresh_ratings key omdb_answer episodes !! i = Some ep'
         /\ (ep' = ep
             \/ ((imdb_rating ep = None
                  \/ exists r0, imdb_rating ep = Some r0 /\ flt r0 f0_1 = true)
                 /\ imdb_id ep <> []
                 /\ (exists k, key = Some k /\ k <> [])
                 /\ exists r,
                      omdb_answer i (imdb_id ep) = Some r
                      /\ is_fzero r = false /\ ep' = set_rating ep r))
         /\ (forall k r,
               key = Some k -> k <> [] ->
               (imdb_rating ep = None
                \/ exists r0, imdb_rating ep = Some r0 /\ flt r0 f0_1 = true) ->
               imdb_id ep <> [] ->
               omdb_answer i (imdb_id ep) = Some r -> is_fzero r = false ->
               ep' = set_rating ep r).
Proof.
  unfold refresh_ratings. split; [apply refresh_loop_length|].
  intros i ep Hi. rewrite refresh_loop_lookup, Hi. simpl.
  eexists. split; [reflexivity|]. unfold refresh, fetch_imdb_rating_from_omdb.
  split.
  - destruct (wants_lookup ep) eqn:Hw; [|left; reflexivity].
    destruct key as [[|c k]|]; try (left; reflexivity).
    destruct (imdb_id ep) as [|d t] eqn:Hid; [left; reflexivity|].
    destruct (omdb_answer i (d :: t)) as [r|] eqn:Ha; [|left; reflexivity].
    destruct (is_fzero r) eqn:Hz; [left; reflexivity|].
    right. unfold wants_lookup in Hw. apply andb_true_iff in Hw as [Hrate _].
    split; [|split; [discriminate|split]].
    + destruct (imdb_rating ep) as [r0|]; [right; eauto|left; reflexivity].
    + exists (c :: k). split; [reflexivity|discriminate].
    + exists r. auto.
  - intros k r -> Hk Hrate Hid Ha Hz.
    assert (Hw : wants_lookup ep = true).
    { unfold wants_lookup. apply andb_true_iff. split.
      - destruct Hrate as [->|(r0 & -> & Hr0)]; [reflexivity|exact Hr0].
      - destruct (imdb_id ep); [contradiction|reflexivity]. }
    rewrite Hw. destruct k as [|c k]; [contradiction|].
    destruct (imdb_id ep) as [|d t]; [contradiction|].
    rewrite Ha, Hz. reflexivity.
Qed.

Example refresh_answered :
  refresh_ratings (Some (str "k"))
    (fun i _ => match i with 1%nat => Some f9_0 | _ => None end)
    [unrated; unrated_with_id; scourge]
  = [unrated; set_rating unrated_with_id f9_0; scourge].
Proof. vm_compute. reflexivity. Qed.

Example refresh_sample :
  refresh_ratings (Some (str "k")) (fun _ _ => Some f9_0) [unrated; zero_rated; scourge]
  = [unrated; zero_rated; scourge].
Proof. vm_compute. reflexivity. Qed.

(** * How a run can end *)

Lemma pad_loop_error (rounds : nat) (bullets : list text) (e : exn) :
  pad_loop rounds bullets = Err e -> e = IndexError (str "list index out of range").
Proof.
  revert bullets. induction rounds as [|k IH]; intros bullets; simpl; [discriminate|].
  unfold last_item. destruct (last bullets) as [b|]; simpl.
  - apply IH.
  - intros [= <-]. reflexivity.
Qed.

Section Runs.

Variable str_strip str_upper str_lower : text -> text.
Variable str_split : text -> list text.
Variable str_isdigit : text -> bool.
Variable int_of_text : text -> option Z.
Variable repr_float : float -> text.

(** Whatever [strip] and [split] give, the expander raises nothing but
    the [IndexError] of the padding loop. *)
Lemma expand_error (s : text) (n : nat) (e : exn) :
  Generic.expand_sentence_to_bullets str_strip str_split s n = Err e ->
  e = IndexError (str "list index out of range").
Proof.
  unfold Generic.expand_sentence_to_bullets. destruct s as [|c s']; [discriminate|].
  match goal with |- context [if ?b then _ else _] => destruct b end; [|discriminate].
  match goal with |- context [pad_loop ?k ?l] => destruct (pad_loop k l) eqn:Hp end;
    simpl; [discriminate|].
  intros [= <-]. apply (pad_loop_error _ _ _ Hp).
Qed.

Lemma details_expand_error (ep : Episode) (e : exn) :
  Generic.details_expand str_strip str_split repr_float ep = Err e ->
  e = IndexError (str "list index out of range").
Proof.
  unfold Generic.details_expand, Generic.plot_bullets, Generic.reason_bullets.
  destruct (Generic.expand_sentence_to_bullets str_strip str_split
              (one_sentence_plot ep) 4) as [plot|e1] eqn:Hp; simpl.
  - destruct (Generic.expand_sentence_to_bullets str_strip str_split
                (one_sentence_reason ep) 4) as [reason|e2] eqn:Hr; simpl.
    + discriminate.
    + intros [= <-]. apply (expand_error _ _ _ Hr).
  - intros [= <-]. apply (expand_error _ _ _ Hp).
Qed.

(** A comprehension raises what the conversion of one of the pieces it
    keeps raises. *)
Lemma comprehension_error {A B} (conv : A -> result B) (keep : A -> bool)
    (pieces : list A) (e : exn) :
  comprehension conv keep pieces = Err e ->
  exists x, In x pieces /\ keep x = true /\ conv x = Err e.
Proof.
  induction pieces as [|x l IH]; simpl; [discriminate|].
  destruct (keep x) eqn:Ek.
  - destruct (conv x) as [y|ex] eqn:Ec; simpl.
    + destruct (comprehension conv keep l) as [ys|ex]; simpl; [discriminate|].
      intros [= <-]. destruct IH as (x' & Hx & Hk & Hc); [reflexivity|].
      exists x'. auto.
    + intros [= <-]. exists x. auto.
  - intros H. destruct (IH H) as (x' & Hx & Hk & Hc). exists x'. auto.
Qed.

Lemma main_exclude_seasons_error (s : text) (e : exn) :
  Generic.main_exclude_seasons str_strip str_isdigit int_of_text s = Err e ->
  Generic.exclude_list str_strip str_isdigit int_of_text s = Err e
  /\ e = int_error
  /\ exists piece,
       In piece (split_on "," s)
       /\ str_isdigit (str_strip piece) = true
       /\ int_of_text piece = None.
Proof.
  intros H.
  assert (He : Generic.exclude_list str_strip str_isdigit int_of_text s = Err e)
    by (destruct s; [discriminate H|exact H]).
  split; [exact He|].
  apply comprehension_error in He as (x & Hx & Hk & Hc).
  unfold Generic.py_int_text in Hc.
  destruct (int_of_text x) eqn:Hi; [discriminate Hc|].
  injection Hc as <-. split; [reflexivity|]. exists x. auto.
Qed.

Lemma empty_range_rejected :
  exists cause,
    Generic.parse_range str_strip str_upper int_of_text [] = Err cause.
Proof. eexists. reflexivity. Qed.

End Runs.

(** For the string methods of the runtime, whatever they do on a string:
    a run of [main] on loaded records ends with an uncaught exception in
    three cases only, and prints nothing before it: in details mode, the
    [IndexError] of the detail expander on the record found; otherwise,
    the [ArgumentTypeError] of the range parser, or, with a range that
    parses, the [ValueError] of [int] on a piece of the list of excluded
    seasons that passes the digit test.  Filtering, ranking and printing
    the results never raise. *)
Theorem main_loaded_uncaught
    (str_strip str_upper str_lower : text -> text) (str_split : text -> list text)
    (str_isdigit : text -> bool) (int_of_text : text -> option Z)
    (repr_float : float -> text)
    (episodes : list Episode) (args : Args) (e : exn) (printed : list text) :
  Generic.main_loaded str_strip str_upper str_lower str_split str_isdigit
    int_of_text repr_float episodes args = Uncaught e printed ->
  printed = []
  /\ ((exists details ep,
         arg_details args = Some details /\ details <> []
         /\ List.find (title_matches str_lower (str_strip details)) episodes = Some ep
         /\ Generic.details_expand str_strip str_split repr_float ep = Err e
         /\ e = IndexError (str "list index out of range"))
      \/ (exists range_str cause,
            arg_range args = Some range_str
            /\ Generic.parse_range str_strip str_upper int_of_text range_str = Err e
            /\ e = ArgumentTypeError (format_message range_str) cause)
      \/ (exists range_str rng piece,
            arg_range args = Some range_str
            /\ Generic.parse_range str_strip str_upper int_of_text range_str = Ok rng
            /\ Generic.exclude_list str_strip str_isdigit int_of_text
                 (arg_exclude_seasons args) = Err e
            /\ e = int_error
            /\ In piece (split_on "," (arg_exclude_seasons args))
            /\ str_isdigit (str_strip piece) = true
            /\ int_of_text piece = None)).
Proof.
  unfold Generic.main_loaded. intros H.
  destruct (arg_details args) as [[|c d]|] eqn:Hd.
  2: { rewrite details_mode_find in H.
       destruct (List.find _ episodes) as [ep|] eqn:Hf; [|discriminate H].
       destruct (Generic.details_expand str_strip str_split repr_float ep)
         as [t|ex] eqn:He; [discriminate H|].
       injection H as <- <-. split; [reflexivity|]. left.
       exists (c :: d), ep. split; [reflexivity|]. split; [discriminate|].
       split; [exact Hf|]. split; [exact He|].
       apply (details_expand_error _ _ _ _ _ He). }
  all: destruct (arg_range args) as [[|c' r]|] eqn:Hr; try discriminate H;
    destruct (Generic.parse_range str_strip str_upper int_of_text (c' :: r))
      as [rng|ex] eqn:Hp;
    [destruct (Generic.main_exclude_seasons str_strip str_isdigit int_of_text
                 (arg_exclude_seasons args)) as [ex_seasons|ex] eqn:Hx;
       [destruct (filter_episodes _ _ _ _ _); discriminate H|];
       injection H as <- <-; split; [reflexivity|]; right; right;
       destruct (main_exclude_seasons_error _ _ _ _ _ Hx) as (He & -> & piece & Hpiece);
       exists (c' :: r), rng, piece; auto
    |];
    injection H as <- <-; split; [reflexivity|]; right; left;
    pose proof Hp as Hp'; unfold Generic.parse_range in Hp';
    destruct (Generic.parse_range_try str_strip str_upper int_of_text (c' :: r))
      as [q|cause]; [discriminate Hp'|];
    injection Hp' as <-; exists (c' :: r), cause; auto.
Qed.

Lemma main_loaded_uncaught_witness :
  [] = ([] : list text)
  /\ ((exists details ep,
         arg_details bad_exclusion_args = Some details /\ details <> []
         /\ List.find (title_matches lower (strip details)) sample_episodes = Some ep
         /\ details_expand plain_repr ep = Err int_error
         /\ int_error = IndexError (str "list index out of range"))
      \/ (exists range_str cause,
            arg_range bad_exclusion_args = Some range_str
            /\ parse_range range_str = Err int_error
            /\ int_error = ArgumentTypeError (format_message range_str) cause)
      \/ (exists range_str rng piece,
            arg_range bad_exclusion_args = Some range_str
            /\ parse_range range_str = Ok rng
            /\ exclude_list (arg_exclude_seasons bad_exclusion_args) = Err int_error
            /\ int_error = int_error
            /\ In piece (split_on "," (arg_exclude_seasons bad_exclusion_args))
            /\ isdigit (strip piece) = true
            /\ parse_int piece = None)).
Proof.
  apply (main_loaded_uncaught strip upper lower split_ws isdigit parse_int plain_repr
           sample_episodes bad_exclusion_args).
  vm_compute. reflexivity.
Defined.

Lemma flt_lower_bound (r lo hi : float) :
  fle lo hi = true -> flt r hi = false -> flt r lo = false.
Proof.
  unfold fle, flt, SFleb, SFltb.
  destruct r as [[]|[]| |[] ? ?], lo as [[]|[]| |[] ? ?], hi as [[]|[]| |[] ? ?];
    simpl; try reflexivity; try discriminate; intros H1 H2; compare_cases.
Qed.

(** Lowering the minimum rating never loses a record: what passes with a
    minimum passes with every minimum that is not greater. *)
Theorem filter_episodes_lower_minimum (episodes : list Episode) (rng : Z * Z * Z * Z)
    (min_imdb lower_min : float) (allow_seasons : Z * Z)
    (exclude_seasons : option (list Z)) (ep : Episode) :
  fle lower_min min_imdb = true ->
  In ep (filter_episodes episodes rng min_imdb allow_seasons exclude_seasons) ->
  In ep (filter_episodes episodes rng lower_min allow_seasons exclude_seasons).
Proof.
  intros Hle. destruct rng as [[[s1 e1] s2] e2].
  rewrite !filter_episodes_kept, !List.filter_In.
  intros [Hin Hk]. split; [exact Hin|].
  unfold kept in *. rewrite !andb_true_iff in *.
  destruct Hk as [Hrest Hrate]. split; [exact Hrest|].
  unfold rating_too_low in *. destruct (imdb_rating ep) as [r|]; [|exact Hrate].
  apply negb_true_iff in Hrate. apply negb_true_iff.
  apply (flt_lower_bound r lower_min min_imdb Hle Hrate).
Qed.

Lemma filter_episodes_lower_minimum_witness :
  In repression (filter_episodes sample_episodes (2, 1, 6, 20) MIN_IMDB_RATING
                   MAX_SEASONS_ALLOWED None).
Proof.
  apply (filter_episodes_lower_minimum sample_episodes (2, 1, 6, 20) f8_2 MIN_IMDB_RATING);
    [reflexivity|vm_compute; auto].
Defined.


Example main_no_arguments :
  main_loaded plain_repr sample_episodes
    {| arg_range := None; arg_num := 3; arg_details := None; arg_exclude_seasons := [] |}
  = Exit 1 [no_range_message].
Proof. reflexivity. Qed.
